(** * The downstream executor of tidb-binlog's loader and its loopback plugin

    A shallow embedding of [pkg/loader/executor.go] (package [loader]) and of
    the loopback-sync plugin (package [main], [FilterTxn] / [ExtendTxn]).

    The executor talks to a downstream SQL server.  Every call that leaves the
    process ([db.Begin], [tx.Exec], [tx.Commit], [tx.Rollback], the
    [refreshTableInfo] callback, the logger) is an operation of a small free
    monad [Prog]; a run interprets the operations against an arbitrary
    downstream and records them, in order, in a trace. *)

From stdpp Require Import gmap strings list fin_maps.
From Equations Require Import Equations.
From Stdlib Require Import ZArith Lia.

Local Open Scope Z_scope.

#[export] Set Warnings "-clear-no-such-hyp".

(** ** Go values *)

(** [error]: the driver's [*mysql.MySQLError], [errors.New] and
    [errors.Annotate].  A Go [error] that may be nil is an [option error]. *)
Inductive error : Type :=
| MySQLError (code : Z) (msg : string)
| ErrorString (msg : string)
| Annotated (cause : error) (msg : string).

(** [errors.Trace] only records a stack frame. *)
Definition Trace (err : error) : error := err.

Definition Annotate (err : error) (msg : string) : error := Annotated err msg.

Fixpoint Cause (err : error) : error :=
  match err with
  | Annotated c _ => Cause c
  | _ => err
  end.

(** [interface{}] column values and statement arguments. *)
Inductive value : Type :=
| VNil
| VInt (n : Z)
| VString (s : string).

(** [int64] arithmetic wraps around. *)
Definition wrap64 (z : Z) : Z := (z + 2 ^ 63) `mod` 2 ^ 64 - 2 ^ 63.

(** ** Data model of package [loader] *)

Inductive DMLType : Type := InsertDMLType | UpdateDMLType | DeleteDMLType.

Global Instance DMLType_eq_dec : EqDecision DMLType.
Proof. solve_decision. Defined.

Record tableInfo : Type := mkTableInfo {
  columns : list string;
  primaryKey : list string;
  uniqueKeys : list (list string)
}.

Record DML : Type := mkDML {
  Database : string;
  Table : string;
  Tp : DMLType;
  OldValues : gmap string value;
  Values : gmap string value;
  info : tableInfo
}.

(** [Tx] wraps a [*sql.Tx]; the wrapped handle is what the downstream sees.
    The latency histogram is not modelled. *)
Definition Tx : Type := nat.

(** [sql.Result]: possibly nil; [RowsAffected] may itself fail. *)
Inductive Result : Type :=
| NilResult
| Rows (n : Z)
| RowsUnknown (err : error).

(** ** Operations, programs, traces *)

(** The source line that hands a statement to [tx.Exec]. *)
Inductive site : Type :=
| SiteUpdateMark
| SiteExtension
| SiteBulkDelete
| SiteBulkReplace
| SiteSingleExec.

Global Instance site_eq_dec : EqDecision site.
Proof. solve_decision. Defined.

Inductive level : Type := LDebug | LInfo | LWarn | LError | LFatal.

Inductive Op : Type -> Type :=
| OBegin : Op (Tx + error)
| OExec (st : site) (tx : Tx) (query : string) (args : list value) : Op (Result + error)
| OCommit (tx : Tx) : Op (option error)
| ORollback (tx : Tx) : Op (option error)
| OSetProtocolFlag (tx : Tx) (b : bool) : Op unit
| OAddIndex : Op Z
| ORefresh (schema table : string) : Op (tableInfo + error)
| OLog (lvl : level) (msg : string) : Op unit.

(** How a call ends when it does not return: a run-time panic, or the
    [os.Exit] of [log.Fatal]. *)
Inductive panic : Type :=
| NilDereference
| DivideByZero
| TypeAssertion
| OsExit.

Inductive Prog (A : Type) : Type :=
| Ret (a : A)
| Crash (p : panic)
| Do {X : Type} (o : Op X) (k : X -> Prog A).

Arguments Ret {A} a.
Arguments Crash {A} p.
Arguments Do {A X} o k.

Fixpoint bind {A B : Type} (p : Prog A) (f : A -> Prog B) : Prog B :=
  match p with
  | Ret a => f a
  | Crash c => Crash c
  | Do o k => Do o (fun x => bind (k x) f)
  end.

Definition call {X : Type} (o : Op X) : Prog X := Do o Ret.

Declare Scope prog_scope.
Delimit Scope prog_scope with prog.
Notation "x <- p ;; q" := (bind p (fun x => q))
  (at level 20, p at level 99, q at level 200, only parsing) : prog_scope.
Notation "p ;; q" := (bind p (fun _ => q))
  (at level 100, q at level 200, only parsing, right associativity) : prog_scope.
Local Open Scope prog_scope.

Definition logf (lvl : level) (msg : string) : Prog unit := call (OLog lvl msg).

(** An operation together with the answer it got. *)
Inductive event : Type :=
| Ev {X : Type} (o : Op X) (x : X).

Record World : Type := mkWorld {
  trace : list event;
  Index : Z
}.

(** The downstream and the other collaborators answer every operation; the
    answer may depend on everything that happened before. *)
Definition Downstream : Type := forall X : Type, list event -> Op X -> X.

Inductive outcome (A : Type) : Type :=
| Done (a : A)
| Panicked (p : panic).

Arguments Done {A} a.
Arguments Panicked {A} p.

(** [atomic.AddInt64(&info.Index, 1)] is answered by the counter itself. *)
Definition perform (w : Downstream) {X : Type} (o : Op X) (s : World) : X * World :=
  match o in Op T return (T -> event) -> T * World with
  | OAddIndex => fun mk =>
      let i := wrap64 (Index s + 1) in
      (i, {| trace := trace s ++ [mk i]; Index := i |})
  | o' => fun mk =>
      let x := w _ (trace s) o' in
      (x, {| trace := trace s ++ [mk x]; Index := Index s |})
  end (Ev o).

Fixpoint run {A : Type} (w : Downstream) (p : Prog A) (s : World) : outcome A * World :=
  match p with
  | Ret a => (Done a, s)
  | Crash c => (Panicked c, s)
  | Do o k => let '(x, s') := perform w o s in run w (k x) s'
  end.

(** Which [tx.Exec] call site, if any, an event comes from. *)
Definition event_site (ev : event) : option site :=
  match ev with
  | Ev (OExec st _ _ _) _ => Some st
  | Ev _ _ => None
  end.

Definition is_begin (ev : event) : bool :=
  match ev with
  | Ev OBegin _ => true
  | Ev _ _ => false
  end.

(** Rewrites the call site of every statement of a program: statements issued
    by code called from a given place are attributed to that place. *)
Definition at_site_op (st : site) {X : Type} (o : Op X) : Op X :=
  match o in Op T return Op T with
  | OExec _ tx q args => OExec st tx q args
  | o' => o'
  end.

Fixpoint at_site {A : Type} (st : site) (p : Prog A) : Prog A :=
  match p with
  | Ret a => Ret a
  | Crash c => Crash c
  | Do o k => Do (at_site_op st o) (fun x => at_site st (k x))
  end.

(** ** Package [loopbacksync] and the plugin registry *)

(** The state shared by the executor and its plugins.  [Index] is the one
    field that changes; it lives in the [World].  [Hooks] is the registry of
    kind [plugin.ExecutorExtend], in the order [Range] visits it. *)
Record LoopBackSync (H : Type) : Type := mkLoopBackSync {
  ChannelID : Z;
  LoopbackControl : bool;
  SupportPlugin : bool;
  MarkTableName : string;
  RecordID : Z;
  MigrationIPs : list string;
  Hooks : list H
}.

Arguments mkLoopBackSync {H}.
Arguments ChannelID {H}.
Arguments LoopbackControl {H}.
Arguments SupportPlugin {H}.
Arguments MarkTableName {H}.
Arguments RecordID {H}.
Arguments MigrationIPs {H}.
Arguments Hooks {H}.

(** Interface [ExecutorExtend]: [ExtendTxn(tx, info)], where [info] is the
    executor's own [e.info]; an implementation is given already applied to
    it.  A registry entry that does not implement the interface is [None]. *)
Definition ExecutorExtend : Type := Tx -> Prog (option error).

Record executor : Type := mkExecutor {
  batchSize : Z;
  workerCount : Z;
  exe_info : option (LoopBackSync (option ExecutorExtend));
  refreshTableInfo : bool
}.

(** [newExecutor], followed by the setters. *)
Definition defaultBatchSize : Z := 128.
Definition defaultWorkerCount : Z := 16.

Definition newExecutor : executor :=
  {| batchSize := defaultBatchSize; workerCount := defaultWorkerCount;
     exe_info := None; refreshTableInfo := false |}.

Definition withRefreshTableInfo (e : executor) : executor :=
  {| batchSize := batchSize e; workerCount := workerCount e;
     exe_info := exe_info e; refreshTableInfo := true |}.

Definition withBatchSize (e : executor) (n : Z) : executor :=
  {| batchSize := n; workerCount := workerCount e;
     exe_info := exe_info e; refreshTableInfo := refreshTableInfo e |}.

Definition setSyncInfo (e : executor)
    (i : option (LoopBackSync (option ExecutorExtend))) : executor :=
  {| batchSize := batchSize e; workerCount := workerCount e;
     exe_info := i; refreshTableInfo := refreshTableInfo e |}.

Definition setWorkerCount (e : executor) (n : Z) : executor :=
  {| batchSize := batchSize e; workerCount := n;
     exe_info := exe_info e; refreshTableInfo := refreshTableInfo e |}.

(** Functions of this repository that the executor calls and that are
    defined in other files: the DML methods that print SQL, the splitter and
    the merger, [loopbacksync.UpdateMark], [pkgsql.GetSQLErrCode],
    [util.RetryContext].  The executor is verified for every implementation
    of them. *)
Class Package : Type := {
  splitDMLs : forall A : Type, list A -> Z -> list (list A);
  mergeByPrimaryKey : list DML -> (DMLType -> option (list DML)) + error;
  DML_sql : DML -> string * list value;
  DML_deleteSQL : DML -> string * list value;
  DML_replaceSQL : DML -> string * list value;
  DML_TableName : DML -> string;
  buildColumnList : list string -> string;
  holderString : nat -> string;
  UpdateMark : Tx -> Z -> Z -> Prog (option error);
  removeOrphanCols : tableInfo -> DML -> DML;
  GetSQLErrCode : error -> option Z;
  ErrColumnNotExists_Code : Z;
  RetryContext : forall S : Type,
      Z -> Z -> (S -> Prog (S * option error)) -> S -> Prog (S * option error)
}.

(** ** [errgroup]: tasks that run concurrently *)

Definition first_error (first r : option error) : option error :=
  match first with
  | Some err => Some err
  | None => r
  end.

(** When the scheduler has nothing more to say, the remaining tasks run one
    after the other. *)
Fixpoint errg_drain (tasks : list (Prog (option error))) (first : option error)
    : Prog (option error) :=
  match tasks with
  | [] => Ret first
  | t :: ts => r <- t;; errg_drain ts (first_error first r)
  end.

(** [errg.Go] for every task, then [errg.Wait].  Each number of the schedule
    picks the live task that performs its next operation.  A task that has
    returned leaves the group, and the first error to arrive is the one
    [Wait] returns; a panic in any goroutine ends the process. *)
Fixpoint errg_go (sched : list nat) (tasks : list (Prog (option error)))
    (first : option error) : Prog (option error) :=
  match sched with
  | [] => errg_drain tasks first
  | i :: sched' =>
      match tasks !! i with
      | None => errg_go sched' tasks first
      | Some (Ret r) => errg_go sched' (delete i tasks) (first_error first r)
      | Some (Crash c) => Crash c
      | Some (Do o k) => Do o (fun x => errg_go sched' (<[i := k x]> tasks) first)
      end
  end.

Section Executor.

Context {pkg : Package}.

(** ** The transaction wrapper *)

Definition autoRollbackExec (tx : Tx) (st : site) (query : string)
    (args : list value) : Prog (Result + error) :=
  r <- call (OExec st tx query args);;
  match r with
  | inr err =>
      logf LError "exec fail";;
      call (ORollback tx);;
      Ret (inr (Trace err))
  | inl res => Ret (inl res)
  end.

Definition commit (tx : Tx) : Prog (option error) :=
  err <- call (OCommit tx);;
  Ret (Trace <$> err).

(** [begin]: the mark row is [atomic.AddInt64(&e.info.Index, 1) %
    int64(e.workerCount)]; Go's [%] truncates ([Z.rem]) and panics on a zero
    divisor. *)
Definition begin (e : executor) : Prog (Tx + error) :=
  r <- call OBegin;;
  match r with
  | inr err => Ret (inr (Trace err))
  | inl tx =>
      match exe_info e with
      | Some i =>
          if LoopbackControl i then
            idx <- call OAddIndex;;
            if decide (workerCount e = 0) then Crash DivideByZero
            else
              err <- at_site SiteUpdateMark
                      (UpdateMark tx (Z.rem idx (workerCount e)) (ChannelID i));;
              match err with
              | Some err =>
                  rerr <- call (ORollback tx);;
                  match rerr with
                  | Some _ => logf LError "fail to rollback"
                  | None => Ret tt
                  end;;
                  Ret (inr (Annotate err "failed to update mark data"))
              | None => Ret (inl tx)
              end
          else Ret (inl tx)
      | None => Ret (inl tx)
      end
  end.

(** ** The [ExecutorExtend] hook chain *)

(** [hook.Range]: the callback skips an entry of the wrong type, stores the
    extension's error in [err] and stops the iteration when it is not nil. *)
Fixpoint rangeHooks (hooks : list (option ExecutorExtend)) (tx : Tx)
    : Prog (option error) :=
  match hooks with
  | [] => Ret None
  | None :: rest => rangeHooks rest tx
  | Some c :: rest =>
      err <- at_site SiteExtension (c tx);;
      match err with
      | Some err => Ret (Some err)
      | None => rangeHooks rest tx
      end
  end.

(** The block [if e.info.SupportPlugin { ... }] that [bulkDelete],
    [bulkReplace] and [singleExec] all contain, word for word. *)
Definition extendTxn (e : executor) (tx : Tx) : Prog unit :=
  match exe_info e with
  | None => Crash NilDereference
  | Some i =>
      if SupportPlugin i then
        err <- rangeHooks (Hooks i) tx;;
        match err with
        | Some _ => logf LError "ExecutorExtend plugin failed"
        | None => Ret tt
        end
      else Ret tt
  end.

(** ** Bulk statements *)

Definition deleteQuery (deletes : list DML) : string :=
  foldl (fun sqls dml => sqls +:+ (DML_sql dml).1 +:+ ";") "" deletes.

Definition deleteArgs (deletes : list DML) : list value :=
  foldl (fun argss dml => argss ++ (DML_sql dml).2) [] deletes.

Definition bulkDelete_body (tx : Tx) (deletes : list DML) : Prog (option error) :=
  r <- autoRollbackExec tx SiteBulkDelete (deleteQuery deletes) (deleteArgs deletes);;
  match r with
  | inr err => Ret (Some (Trace err))
  | inl _ => commit tx
  end.

Definition bulkDelete (e : executor) (deletes : list DML) : Prog (option error) :=
  match deletes with
  | [] => Ret None
  | _ :: _ =>
      r <- begin e;;
      match r with
      | inr err => Ret (Some (Trace err))
      | inl tx => extendTxn e tx;; bulkDelete_body tx deletes
      end
  end.

Fixpoint holders (holder : string) (n : nat) : string :=
  match n with
  | O => ""
  | S O => holder
  | S m => holders holder m +:+ "," +:+ holder
  end.

Definition replaceQuery (first : DML) (n : nat) : string :=
  let cols := "(" +:+ buildColumnList (columns (info first)) +:+ ")" in
  let holder := "(" +:+ holderString (length (columns (info first))) +:+ ")" in
  ("REPLACE INTO " +:+ DML_TableName first +:+ cols +:+ " VALUES ")
    +:+ holders holder n.

(** The argument loops; a missing column reads as nil, and every value is
    logged at level warn. *)
Fixpoint rowArgs (vals : gmap string value) (names : list string)
    : Prog (list value) :=
  match names with
  | [] => Ret []
  | name :: rest =>
      logf LWarn "######";;
      args <- rowArgs vals rest;;
      Ret (default VNil (vals !! name) :: args)
  end.

Fixpoint replaceArgs (inserts : list DML) (names : list string)
    : Prog (list value) :=
  match inserts with
  | [] => Ret []
  | insert :: rest =>
      row <- rowArgs (Values insert) names;;
      args <- replaceArgs rest names;;
      Ret (row ++ args)
  end.

Definition bulkReplace_body (tx : Tx) (first : DML) (inserts : list DML)
    : Prog (option error) :=
  args <- replaceArgs inserts (columns (info first));;
  r <- autoRollbackExec tx SiteBulkReplace
        (replaceQuery first (length inserts)) args;;
  match r with
  | inr err => Ret (Some (Trace err))
  | inl _ => commit tx
  end.

Definition bulkReplace (e : executor) (inserts : list DML) : Prog (option error) :=
  match inserts with
  | [] => Ret None
  | first :: _ =>
      r <- begin e;;
      match r with
      | inr err => Ret (Some (Trace err))
      | inl tx => extendTxn e tx;; bulkReplace_body tx first inserts
      end
  end.

(** ** Table-batched apply *)

(** [splitExecDML]: one goroutine per split, then [Wait]. *)
Definition splitExecDML (sched : list nat) (e : executor) (dmls : list DML)
    (exec : list DML -> Prog (option error)) : Prog (option error) :=
  err <- errg_go sched
          (map (fun split => err <- exec split;; Ret (Trace <$> err))
               (splitDMLs DML dmls (batchSize e)))
          None;;
  Ret (Trace <$> err).

(** One bucket of [execTableBatch]: skipped when the key is absent from
    [types]; [k] is the rest of the function. *)
Definition bucket (sched : list nat) (e : executor) (b : option (list DML))
    (exec : list DML -> Prog (option error)) (k : Prog (option error))
    : Prog (option error) :=
  match b with
  | Some all =>
      err <- splitExecDML sched e all exec;;
      match err with
      | Some err => Ret (Some (Trace err))
      | None => k
      end
  | None => k
  end.

(** [execTableBatch]; [sched] gives the goroutine schedule of each bucket. *)
Definition execTableBatch (sched : DMLType -> list nat) (e : executor)
    (dmls : list DML) : Prog (option error) :=
  match dmls with
  | [] => Ret None
  | _ :: _ =>
      match mergeByPrimaryKey dmls with
      | inr err => Ret (Some (Trace err))
      | inl types =>
          logf LDebug "merge dmls";;
          bucket (sched DeleteDMLType) e (types DeleteDMLType) (bulkDelete e)
            (bucket (sched InsertDMLType) e (types InsertDMLType) (bulkReplace e)
               (bucket (sched UpdateDMLType) e (types UpdateDMLType) (bulkReplace e)
                  (Ret None)))
      end
  end.

(** ** Single-row apply *)

(** The loop of [singleExec], followed by the commit. *)
Fixpoint singleExec_loop (tx : Tx) (safeMode : bool) (dmls : list DML)
    : Prog (option error) :=
  match dmls with
  | [] => commit tx
  | dml :: rest =>
      if safeMode && bool_decide (Tp dml = UpdateDMLType) then
        r <- autoRollbackExec tx SiteSingleExec
               (DML_deleteSQL dml).1 (DML_deleteSQL dml).2;;
        match r with
        | inr err => Ret (Some (Trace err))
        | inl _ =>
            r <- autoRollbackExec tx SiteSingleExec
                   (DML_replaceSQL dml).1 (DML_replaceSQL dml).2;;
            match r with
            | inr err => Ret (Some (Trace err))
            | inl _ => singleExec_loop tx safeMode rest
            end
        end
      else if safeMode && bool_decide (Tp dml = InsertDMLType) then
        r <- autoRollbackExec tx SiteSingleExec
               (DML_replaceSQL dml).1 (DML_replaceSQL dml).2;;
        match r with
        | inr err => Ret (Some (Trace err))
        | inl _ => singleExec_loop tx safeMode rest
        end
      else
        r <- autoRollbackExec tx SiteSingleExec (DML_sql dml).1 (DML_sql dml).2;;
        match r with
        | inr err => Ret (Some (Trace err))
        | inl _ => singleExec_loop tx safeMode rest
        end
  end.

Definition singleExec (e : executor) (dmls : list DML) (safeMode : bool)
    : Prog (option error) :=
  r <- begin e;;
  match r with
  | inr err => Ret (Some (Trace err))
  | inl tx => extendTxn e tx;; singleExec_loop tx safeMode dmls
  end.

(** ** Retry with schema refresh *)

Definition tryRefreshTableErr (err : error) : bool :=
  match GetSQLErrCode err with
  | None => false
  | Some errCode => bool_decide (errCode = ErrColumnNotExists_Code)
  end.

(** A [[]*DML] whose elements are written through is a list of addresses
    into a store of DMLs: two entries with the same address are the same
    object.  An address the store does not bind is a nil pointer. *)
Definition load (h : gmap nat DML) (dmls : list nat) : option (list DML) :=
  mapM (fun p => h !! p) dmls.

Definition set_info (fresh : tableInfo) (dml : DML) : DML :=
  {| Database := Database dml; Table := Table dml; Tp := Tp dml;
     OldValues := OldValues dml; Values := Values dml; info := fresh |}.

(** The tail of the loop body, once [info] is known: prune when the column
    counts differ, then [dml.info = info]. *)
Definition rebind (p : nat) (fresh : tableInfo) (dml : DML) (h : gmap nat DML)
    : Prog (gmap nat DML) :=
  if decide (length (columns (info dml)) ≠ length (columns fresh)) then
    logf LInfo "columns change";;
    Ret (<[p := set_info fresh (removeOrphanCols fresh dml)]> h)
  else Ret (<[p := set_info fresh dml]> h).

(** The loop over the failed batch; it returns the store and the map
    [name2info] as the last iteration leaves them. *)
Fixpoint refreshLoop (dmls : list nat) (name2info : gmap string tableInfo)
    (h : gmap nat DML) : Prog (gmap nat DML * gmap string tableInfo) :=
  match dmls with
  | [] => Ret (h, name2info)
  | p :: rest =>
      match h !! p with
      | None => Crash NilDereference
      | Some dml =>
          match name2info !! DML_TableName dml with
          | Some fresh =>
              h' <- rebind p fresh dml h;;
              refreshLoop rest name2info h'
          | None =>
              r <- call (ORefresh (Database dml) (Table dml));;
              match r with
              | inr _ =>
                  logf LError "fail to refresh table info";;
                  refreshLoop rest name2info h
              | inl fresh =>
                  h' <- rebind p fresh dml h;;
                  refreshLoop rest (<[DML_TableName dml := fresh]> name2info) h'
              end
          end
      end
  end.

(** The function [singleExecRetry] hands to [util.RetryContext]: one
    attempt on one batch. *)
Definition singleExecAttempt (e : executor) (safeMode : bool) (dmls : list nat)
    (h : gmap nat DML) : Prog (gmap nat DML * option error) :=
  match load h dmls with
  | None => Crash NilDereference
  | Some ds =>
      execErr <- singleExec e ds safeMode;;
      match execErr with
      | None => Ret (h, None)
      | Some err =>
          if tryRefreshTableErr err && refreshTableInfo e then
            logf LInfo "try refresh table info";;
            r <- refreshLoop dmls ∅ h;;
            Ret (r.1, Some err)
          else Ret (h, Some err)
      end
  end.

Fixpoint singleExecRetry_loop (e : executor) (safeMode : bool)
    (retryNum backoff : Z) (splits : list (list nat)) (h : gmap nat DML)
    : Prog (gmap nat DML * option error) :=
  match splits with
  | [] => Ret (h, None)
  | dmls :: rest =>
      r <- RetryContext _ retryNum backoff (singleExecAttempt e safeMode dmls) h;;
      match r.2 with
      | Some err => Ret (r.1, Some (Trace err))
      | None => singleExecRetry_loop e safeMode retryNum backoff rest r.1
      end
  end.

Definition singleExecRetry (e : executor) (allDMLs : list nat) (safeMode : bool)
    (retryNum backoff : Z) (h : gmap nat DML)
    : Prog (gmap nat DML * option error) :=
  singleExecRetry_loop e safeMode retryNum backoff
    (splitDMLs nat allDMLs (batchSize e)) h.

End Executor.

(** ** The loopback plugin (package [main]) *)

Module Plugin.

(** What the plugin sees of package [loader]'s transactions.  [DMLs] holds
    addresses into the store of DMLs; [Metadata] is an [interface{}] of
    which only the dynamic type matters here. *)
Record DDL : Type := mkDDL {
  DDL_Database : string;
  DDL_Table : string;
  SQL : string
}.

Inductive metadata : Type :=
| MetaItem (commitTs : Z)
| MetaOther.

Record Txn : Type := mkTxn {
  DMLs : list nat;
  TxnDDL : option DDL;
  AppliedTS : Z;
  Metadata : metadata;
  Ip : string
}.

(** The objects the plugin reaches through pointers. *)
Record Store : Type := mkStore {
  txns : gmap nat Txn;
  dmls : gmap nat DML
}.

Definition ID : string := "id".
Definition Val : string := "val".

Section WithGo.

(** [strings.EqualFold] and the two [fmt.Sprintf] calls of [logFilterTx]
    belong to the Go library. *)
Variable EqualFold : string -> string -> bool.
Variable Sprintf_count : nat -> string.
Variable Sprintf_dml : nat -> option DML -> string.

Context {H : Type}.

Definition addIndex (i : LoopBackSync H) : Prog Z :=
  idx <- call OAddIndex;;
  if decide (RecordID i = 0) then Crash DivideByZero
  else Ret (Z.rem idx (RecordID i)).

Definition logFilterTx (h : gmap nat DML) (ps : list nat) : string :=
  (Sprintf_count (length ps)
     +:+ foldl (fun str d => str +:+ Sprintf_dml (S d.1) (h !! d.2)) ""
           (imap (fun i p => (i, p)) ps))
    +:+ "#### Tx-End ####" +:+ String (Ascii.ascii_of_nat 10) EmptyString.

Fixpoint findLoopBackMark_loop (all rest : list nat) (i : LoopBackSync H)
    (h : gmap nat DML) : Prog (bool * option error) :=
  match rest with
  | [] => Ret (false, None)
  | p :: rest' =>
      match h !! p with
      | None => Crash NilDereference
      | Some dml =>
          if EqualFold (Table dml) (MarkTableName i) then
            logf LInfo "find loopback mark, no need to handle DML transaction";;
            logf LInfo (logFilterTx h all);;
            Ret (true, None)
          else findLoopBackMark_loop all rest' i h
      end
  end.

Definition findLoopBackMark (ps : list nat) (i : LoopBackSync H)
    (h : gmap nat DML) : Prog (bool * option error) :=
  findLoopBackMark_loop ps ps i h.

Definition rollbackLogged (tx : Tx) : Prog unit :=
  rerr <- call (ORollback tx);;
  match rerr with
  | Some _ => logf LError "fail to rollback"
  | None => Ret tt
  end.

(** [ExtendTxn] inserts the statement that updates the mark table. *)
Definition ExtendTxn (tx : option Tx) (i : option (LoopBackSync H))
    : Prog (option error) :=
  match tx, i with
  | Some tx, Some i =>
      let sql := "update " +:+ MarkTableName i +:+ " set " +:+ Val +:+ "="
                   +:+ Val +:+ "+1 where " +:+ ID +:+ "=? limit 1;" in
      call (OSetProtocolFlag tx true);;
      idx <- addIndex i;;
      r <- call (OExec SiteExtension tx sql [VInt idx]);;
      match r with
      | inr err =>
          call (OSetProtocolFlag tx false);;
          rollbackLogged tx;;
          logf LError "fail to update mark";;
          Ret (Some err)
      | inl NilResult => Ret None
      | inl (RowsUnknown _) =>
          logf LError "get affected rows failed";;
          call (OSetProtocolFlag tx false);;
          rollbackLogged tx;;
          Ret (Some (ErrorString "get affected rows failed"))
      | inl (Rows affectedrows) =>
          if decide (affectedrows = 0) then
            logf LError "affected rows is zero";;
            call (OSetProtocolFlag tx false);;
            rollbackLogged tx;;
            Ret (Some (ErrorString "affected rows is zero"))
          else Ret None
      end
  | None, Some _ => logf LError "tx is nil";; Ret None
  | Some _, None => logf LError "info is nil";; Ret None
  | None, None => logf LError "tx is nil";; logf LError "info is nil";; Ret None
  end.

(** The loop over [info.MigrationIPs]: on a match the arguments of
    [log.Fatal] are evaluated, the type assertion on [Metadata] first, and
    the process exits. *)
Fixpoint checkMigrationIPs (t : Txn) (ips : list string) : Prog unit :=
  match ips with
  | [] => Ret tt
  | ip :: rest =>
      if EqualFold (Ip t) ip then
        match Metadata t with
        | MetaOther => Crash TypeAssertion
        | MetaItem _ =>
            logf LFatal "Cyclic replication may occur";;
            Crash OsExit
        end
      else checkMigrationIPs t rest
  end.

(** [v.Database = ""] through the pointer [v]. *)
Definition clearDatabase (dml : DML) : DML :=
  {| Database := ""; Table := Table dml; Tp := Tp dml;
     OldValues := OldValues dml; Values := Values dml; info := info dml |}.

Fixpoint clearDatabases (ps : list nat) (h : gmap nat DML)
    : Prog (gmap nat DML) :=
  match ps with
  | [] => Ret h
  | p :: rest =>
      match h !! p with
      | None => Crash NilDereference
      | Some dml => clearDatabases rest (<[p := clearDatabase dml]> h)
      end
  end.

(** [FilterTxn] returns the pointer, the error, and the store it leaves. *)
Definition FilterTxn (txn : option nat) (i : option (LoopBackSync H))
    (σ : Store) : Prog (option nat * option error * Store) :=
  match txn, i with
  | Some a, Some i =>
      match txns σ !! a with
      | None => Crash NilDereference
      | Some t =>
          match TxnDDL t with
          | Some _ =>
              logf LInfo "skip DDL by FilterTxn plugin.";;
              Ret (None, None, σ)
          | None =>
              r <- findLoopBackMark (DMLs t) i (dmls σ);;
              match r.2 with
              | Some err =>
                  logf LError "analyze transaction failed";;
                  Ret (Some a, Some err, σ)
              | None =>
                  if r.1 then Ret (None, None, σ)
                  else
                    checkMigrationIPs t (MigrationIPs i);;
                    h <- clearDatabases (DMLs t) (dmls σ);;
                    Ret (Some a, None, {| txns := txns σ; dmls := h |})
              end
          end
      end
  | _, _ => Ret (None, None, σ)
  end.

End WithGo.

End Plugin.

(** ** The collaborators, as the specification describes them *)

Module SpecModel.

(** Groups of up to [S n] items, in input order. *)
Equations? chunks {A : Type} (n : nat) (l : list A) : list (list A)
    by wf (length l) lt :=
  chunks n [] := [];
  chunks n (x :: l) := (x :: take n l) :: chunks n (drop n l).
Proof. rewrite length_drop. simpl. lia. Qed.

(** Modelled from the spec: [splitDMLs] (package [loader], not among the
    files verified here).  "Partitions the input into contiguous groups of
    up to [N] items, preserving input order."  The specification speaks of
    [N >= 1] only; for other sizes there is no result. *)
Definition splitDMLs {A : Type} (dmls : list A) (N : Z) : option (list (list A)) :=
  if decide (1 ≤ N) then Some (chunks (Z.to_nat N - 1) dmls) else None.

Global Instance value_eq_dec : EqDecision value.
Proof. solve_decision. Defined.

(** The composite key [(schema, table, pk-tuple)] of a DML; the tuple reads
    the primary-key columns of the DML's own [info] in its [Values]. *)
Definition key : Type := string * string * list (option value).

Definition dml_key (d : DML) : key :=
  (Database d, Table d, (fun c => Values d !! c) <$> primaryKey (info d)).

Definition retype (tp : DMLType) (d : DML) : DML :=
  {| Database := Database d; Table := Table d; Tp := tp;
     OldValues := OldValues d; Values := Values d; info := info d |}.

Definition ErrMergeConflict : error := ErrorString "ErrMergeConflict".

(** The collapse table: the state of a key after [next] arrives, given the
    operation [prior] the key holds so far.  [inl None] is the empty state. *)
Definition collapse (prior : DMLType) (next : DML) : option DML + error :=
  match prior, Tp next with
  | InsertDMLType, UpdateDMLType => inl (Some (retype InsertDMLType next))
  | InsertDMLType, DeleteDMLType => inl None
  | UpdateDMLType, UpdateDMLType => inl (Some next)
  | UpdateDMLType, DeleteDMLType => inl (Some next)
  | DeleteDMLType, InsertDMLType => inl (Some (retype UpdateDMLType next))
  | _, _ => inr ErrMergeConflict
  end.

(** One arrival: the survivors are kept in order of first arrival. *)
Fixpoint arrive (next : DML) (survivors : list (key * DML))
    : list (key * DML) + error :=
  match survivors with
  | [] => inl [(dml_key next, next)]
  | (k, prior) :: rest =>
      if decide (k = dml_key next) then
        match collapse (Tp prior) next with
        | inr err => inr err
        | inl (Some d) => inl ((k, d) :: rest)
        | inl None => inl rest
        end
      else
        match arrive next rest with
        | inr err => inr err
        | inl rest' => inl ((k, prior) :: rest')
        end
  end.

Fixpoint scan (dmls : list DML) (survivors : list (key * DML))
    : list (key * DML) + error :=
  match dmls with
  | [] => inl survivors
  | d :: rest =>
      match arrive d survivors with
      | inr err => inr err
      | inl survivors' => scan rest survivors'
      end
  end.

Definition regroup (survivors : list (key * DML)) (op : DMLType)
    : option (list DML) :=
  Some (filter (fun d => Tp d = op) (snd <$> survivors)).

(** Modelled from the spec: [mergeByPrimaryKey] (package [loader], not among
    the files verified here).  "Scans in input order; for each DML, forms a
    composite key [(schema, table, pk-tuple)]; collapses successive
    operations on the same key per the rules; then regroups the survivors
    by op."  A combination the table does not list is [ErrMergeConflict]. *)
Definition mergeByPrimaryKey (dmls : list DML)
    : (DMLType -> option (list DML)) + error :=
  match scan dmls [] with
  | inr err => inr err
  | inl survivors => inl (regroup survivors)
  end.

Definition ErrLoopbackMarkFailed : error := ErrorString "ErrLoopbackMarkFailed".

(** Modelled from the spec: [loopbacksync.UpdateMark] (package
    [loopbacksync], not among the files verified here).  "[UPDATE
    <mark_table> SET val = val + 1 WHERE id = ? LIMIT 1]"; the update counts
    as failed when it "returned an error or zero affected rows". *)
Definition markUpdate (markTable : string) (tx : Tx) (id : Z) : Op (Result + error) :=
  OExec SiteUpdateMark tx
    ("UPDATE " +:+ markTable +:+ " SET val = val + 1 WHERE id = ? LIMIT 1")
    [VInt id].

Definition UpdateMark (markTable : string) (tx : Tx) (id channel : Z)
    : Prog (option error) :=
  r <- call (markUpdate markTable tx id);;
  match r with
  | inr err => Ret (Some err)
  | inl (Rows 0) => Ret (Some ErrLoopbackMarkFailed)
  | inl _ => Ret None
  end.

(** The update "fails or affects zero rows". *)
Definition markFailed (r : Result + error) : bool :=
  match r with
  | inr _ => true
  | inl (Rows 0) => true
  | inl _ => false
  end.

(** Modelled from the spec: [removeOrphanCols] (package [loader], not among
    the files verified here).  "Extraneous columns are removed from the
    DML's value mapping": what stays is what the fresh column list names. *)
Definition removeOrphanCols (fresh : tableInfo) (dml : DML) : DML :=
  {| Database := Database dml; Table := Table dml; Tp := Tp dml;
     OldValues := OldValues dml;
     Values := filter (fun kv => kv.1 ∈ columns fresh) (Values dml);
     info := info dml |}.

(** Modelled from the spec: [pkgsql.GetSQLErrCode] (package [pkg/sql], not
    among the files verified here).  "Maps a downstream error to a numeric
    code." *)
Definition GetSQLErrCode (err : error) : option Z :=
  match Cause err with
  | MySQLError code _ => Some code
  | _ => None
  end.

(** Modelled from the spec: [util.RetryContext] (package [pkg/util], not
    among the files verified here), for a context that is never cancelled.
    "Invoke [fn]; if it returns an error and attempts remain, [...] retry.
    On final attempt failure, return the last [fn] error." *)
Fixpoint retry {S : Type} (remain : nat) (fn : S -> Prog (S * option error))
    (s : S) : Prog (S * option error) :=
  r <- fn s;;
  match r.2, remain with
  | Some _, S remain' => retry remain' fn r.1
  | _, _ => Ret r
  end.

Definition RetryContext (S : Type) (maxAttempts backoff : Z)
    (fn : S -> Prog (S * option error)) (s : S) : Prog (S * option error) :=
  retry (Z.to_nat (maxAttempts - 1)) fn s.

End SpecModel.

(** ** A package to run examples with *)

(** Statement printers that keep the operation readable, and the
    collaborators above. *)
Definition demo_sql (verb : string) (d : DML) : string * list value :=
  (verb +:+ " " +:+ Table d, default VNil <$> ((fun c => Values d !! c) <$> columns (info d))).

Definition demoPackage : Package := {|
  splitDMLs := fun A l n => default [] (SpecModel.splitDMLs l n);
  mergeByPrimaryKey := SpecModel.mergeByPrimaryKey;
  DML_sql := fun d =>
    match Tp d with
    | InsertDMLType => demo_sql "INSERT" d
    | UpdateDMLType => demo_sql "UPDATE" d
    | DeleteDMLType => demo_sql "DELETE" d
    end;
  DML_deleteSQL := demo_sql "DELETE";
  DML_replaceSQL := demo_sql "REPLACE";
  DML_TableName := fun d => Database d +:+ "." +:+ Table d;
  buildColumnList := fun names => foldr (fun n s => n +:+ "," +:+ s) "" names;
  holderString := fun n => holders "?" n;
  UpdateMark := SpecModel.UpdateMark "mark";
  removeOrphanCols := SpecModel.removeOrphanCols;
  GetSQLErrCode := SpecModel.GetSQLErrCode;
  ErrColumnNotExists_Code := 1054;
  RetryContext := SpecModel.RetryContext
|}.

(** Downstreams for the examples, from one answer function per operation. *)
Definition downstream
    (onBegin : list event -> Tx + error)
    (onExec : list event -> site -> Tx -> string -> list value -> Result + error)
    (onCommit : list event -> Tx -> option error)
    (onRollback : list event -> Tx -> option error)
    (onRefresh : list event -> string -> string -> tableInfo + error)
    : Downstream :=
  fun X tr o =>
    match o in Op T return T with
    | OBegin => onBegin tr
    | OExec st tx q args => onExec tr st tx q args
    | OCommit tx => onCommit tr tx
    | ORollback tx => onRollback tr tx
    | OSetProtocolFlag _ _ => tt
    | OAddIndex => 0
    | ORefresh schema table => onRefresh tr schema table
    | OLog _ _ => tt
    end.

Definition begins (tr : list event) : nat := length (filter (fun ev => is_begin ev = true) tr).

Definition noInfo : tableInfo := {| columns := []; primaryKey := []; uniqueKeys := [] |}.

(** Everything succeeds; transactions are numbered in order of [Begin]. *)
Definition healthy : Downstream :=
  downstream (fun tr => inl (begins tr)) (fun _ _ _ _ _ => inl (Rows 1))
    (fun _ _ => None) (fun _ _ => None) (fun _ _ _ => inl noInfo).

Definition world0 : World := {| trace := []; Index := 0 |}.

(** ** Vocabulary of the properties *)

(** Every event a program can produce, whatever the answers, satisfies [P]. *)
Fixpoint emits (P : event -> Prop) {A : Type} (p : Prog A) : Prop :=
  match p with
  | Ret _ => True
  | Crash _ => True
  | Do o k => (forall x, P (Ev o x)) /\ (forall x, emits P (k x))
  end.

(** The statements a trace hands to [tx.Exec] at a call site, in order. *)
Definition statement_at (st : site) (ev : event) : option (string * list value) :=
  match ev with
  | Ev (OExec st' _ q args) _ => if decide (st' = st) then Some (q, args) else None
  | Ev _ _ => None
  end.

Definition statements_at (st : site) (tr : list event) : list (string * list value) :=
  omap (statement_at st) tr.

Definition not_from (st : site) (ev : event) : Prop := event_site ev ≠ Some st.

(** The two replace buckets of [execTableBatch], which follow the delete
    bucket. *)
Definition replaceBuckets {pkg : Package} (sched : DMLType -> list nat)
    (e : executor) (types : DMLType -> option (list DML)) : Prog (option error) :=
  bucket (sched InsertDMLType) e (types InsertDMLType) (bulkReplace e)
    (bucket (sched UpdateDMLType) e (types UpdateDMLType) (bulkReplace e) (Ret None)).

(** The statements safe mode prescribes for one DML: an update is its
    pre-image [DELETE] followed by its post-image [REPLACE], an insert is a
    [REPLACE], a delete is its own statement; without safe mode every DML is
    its own statement. *)
Definition safeModeStatements {pkg : Package} (safeMode : bool) (d : DML)
    : list (string * list value) :=
  if safeMode then
    match Tp d with
    | UpdateDMLType => [DML_deleteSQL d; DML_replaceSQL d]
    | InsertDMLType => [DML_replaceSQL d]
    | DeleteDMLType => [DML_sql d]
    end
  else [DML_sql d].

(** Statements sent one after the other through [autoRollbackExec], each
    failure returned at once; then [k]. *)
Fixpoint execSeq {pkg : Package} (tx : Tx) (stmts : list (string * list value))
    (k : Prog (option error)) : Prog (option error) :=
  match stmts with
  | [] => k
  | stmt :: rest =>
      r <- autoRollbackExec tx SiteSingleExec stmt.1 stmt.2;;
      match r with
      | inr err => Ret (Some (Trace err))
      | inl _ => execSeq tx rest k
      end
  end.

(** ** Examples: data *)

Definition users : tableInfo :=
  {| columns := ["id"; "name"]; primaryKey := ["id"]; uniqueKeys := [] |}.

Definition row (tp : DMLType) (id : Z) (name : string) : DML :=
  {| Database := "app"; Table := "users"; Tp := tp; OldValues := ∅;
     Values := <["id" := VInt id]> (<["name" := VString name]> ∅);
     info := users |}.

(** Sync info without loopback control and without plugins. *)
Definition plainInfo : LoopBackSync (option ExecutorExtend) :=
  {| ChannelID := 1; LoopbackControl := false; SupportPlugin := false;
     MarkTableName := "mark"; RecordID := 16; MigrationIPs := []; Hooks := [] |}.

Definition plainExecutor : executor := setSyncInfo newExecutor (Some plainInfo).

Definition deadlock : error := MySQLError 1213 "Deadlock found".

(** A downstream that rejects every statement of [bulkDelete]. *)
Definition rejectsDeletes : Downstream :=
  downstream (fun tr => inl (begins tr))
    (fun _ st _ _ _ =>
       match st with
       | SiteBulkDelete => inr deadlock
       | _ => inl (Rows 1)
       end)
    (fun _ _ => None) (fun _ _ => None) (fun _ _ _ => inl noInfo).

(** A downstream on which the mark update touches no row. *)
Definition markRowMissing : Downstream :=
  downstream (fun tr => inl (begins tr))
    (fun _ st _ _ _ =>
       match st with
       | SiteUpdateMark => inl (Rows 0)
       | _ => inl (Rows 1)
       end)
    (fun _ _ => None) (fun _ _ => None) (fun _ _ _ => inl noInfo).

Definition loopbackInfo : LoopBackSync (option ExecutorExtend) :=
  {| ChannelID := 1; LoopbackControl := true; SupportPlugin := false;
     MarkTableName := "mark"; RecordID := 16; MigrationIPs := []; Hooks := [] |}.

Definition loopbackExecutor : executor := setSyncInfo newExecutor (Some loopbackInfo).

(** The loopback plugin registered as an extension, followed by a second
    extension that only logs. *)
Definition markExtension : ExecutorExtend :=
  fun tx => Plugin.ExtendTxn (Some tx) (Some plainInfo).

Definition chattyExtension : ExecutorExtend :=
  fun tx => logf LInfo "second extension";; Ret None.

Definition pluginInfo : LoopBackSync (option ExecutorExtend) :=
  {| ChannelID := 1; LoopbackControl := false; SupportPlugin := true;
     MarkTableName := "mark"; RecordID := 16; MigrationIPs := [];
     Hooks := [None; Some markExtension; Some chattyExtension] |}.

Definition pluginExecutor : executor := setSyncInfo newExecutor (Some pluginInfo).

(** A downstream on which the plugin's update touches no row. *)
Definition extensionRowMissing : Downstream :=
  downstream (fun tr => inl (begins tr))
    (fun _ st _ _ _ =>
       match st with
       | SiteExtension => inl (Rows 0)
       | _ => inl (Rows 1)
       end)
    (fun _ _ => None) (fun _ _ => None) (fun _ _ _ => inl noInfo).

(** A store with one transaction of two DMLs, neither on the mark table. *)
Definition orders : Plugin.Txn :=
  {| Plugin.DMLs := [0%nat; 1%nat]; Plugin.TxnDDL := None; Plugin.AppliedTS := 0;
     Plugin.Metadata := Plugin.MetaItem 42; Plugin.Ip := "10.0.0.1" |}.

Definition ordersStore : Plugin.Store :=
  {| Plugin.txns := {[ 0%nat := orders ]};
     Plugin.dmls := {[ 0%nat := row InsertDMLType 1 "ann"; 1%nat := row DeleteDMLType 2 "bob" ]} |}.

Definition peerInfo : LoopBackSync unit :=
  {| ChannelID := 1; LoopbackControl := true; SupportPlugin := true;
     MarkTableName := "mark"; RecordID := 16; MigrationIPs := ["10.0.0.9"]; Hooks := [] |}.

(** The answers the [refreshTableInfo] callback gave in a trace, in order,
    and the successful ones among them. *)
Definition refresh_call (ev : event) : option (tableInfo + error) :=
  match ev with
  | Ev o x =>
      match o in Op T return T -> option (tableInfo + error) with
      | ORefresh _ _ => fun r => Some r
      | _ => fun _ => None
      end x
  end.

Definition refresh_calls (t : list event) : list (tableInfo + error) :=
  omap refresh_call t.

Definition fetched (r : tableInfo + error) : option tableInfo :=
  match r with
  | inl fresh => Some fresh
  | inr _ => None
  end.

Definition refresh_successes (t : list event) : list tableInfo :=
  omap fetched (refresh_calls t).

(** The distinct table names of a batch. *)
Definition batch_names {pkg : Package} (h : gmap nat DML) (dmls : list nat)
    : gset string :=
  list_to_set (omap (fun p => DML_TableName <$> h !! p) dmls).

(** A DML after [rebind]: pruned when the column counts differ, and bound
    to the fresh info. *)
Definition rebound {pkg : Package} (fresh : tableInfo) (dml : DML) : DML :=
  set_info fresh
    (if decide (length (columns (info dml)) ≠ length (columns fresh))
     then removeOrphanCols fresh dml else dml).

(** Table [users] after a column was renamed downstream. *)
Definition renamed : tableInfo :=
  {| columns := ["id"; "email"]; primaryKey := ["id"]; uniqueKeys := [] |}.

Definition unknownColumn : error := MySQLError 1054 "Unknown column".

(** A downstream that rejects every statement for an unknown column; the
    schema callback fails on its first call and answers [renamed] then. *)
Definition flakyRefresh : Downstream :=
  downstream (fun tr => inl (begins tr))
    (fun _ _ _ _ _ => inr unknownColumn)
    (fun _ _ => None) (fun _ _ => None)
    (fun tr _ _ =>
       match refresh_calls tr with
       | [] => inr (ErrorString "connection refused")
       | _ => inl renamed
       end).

Definition refreshingExecutor : executor := withRefreshTableInfo plainExecutor.

Definition twoUsers : gmap nat DML :=
  {[ 0%nat := row InsertDMLType 1 "ann"; 1%nat := row InsertDMLType 2 "bob" ]}.

(** An update, an insert and a delete, and what a healthy downstream sees of
    them in safe mode. *)
Definition safeBatch : list DML :=
  [row UpdateDMLType 1 "ann"; row InsertDMLType 2 "bob"; row DeleteDMLType 3 "cy"].

Definition safeTrace : list event :=
  [Ev OBegin (inl 0%nat);
   Ev (OExec SiteSingleExec 0%nat "DELETE users" [VInt 1; VString "ann"]) (inl (Rows 1));
   Ev (OExec SiteSingleExec 0%nat "REPLACE users" [VInt 1; VString "ann"]) (inl (Rows 1));
   Ev (OExec SiteSingleExec 0%nat "REPLACE users" [VInt 2; VString "bob"]) (inl (Rows 1));
   Ev (OExec SiteSingleExec 0%nat "DELETE users" [VInt 3; VString "cy"]) (inl (Rows 1));
   Ev (OCommit 0%nat) None].

(** Every survivor is filed under its own key, and no key is filed twice. *)
Definition keyed (survivors : list (SpecModel.key * DML)) : Prop :=
  NoDup (fst <$> survivors)
  /\ Forall (fun kd => kd.1 = SpecModel.dml_key kd.2) survivors.

(** What a continuation sends from [singleExec]'s call site: a prefix of
    [all], and the whole of [all] when it returns nil. *)
Definition sends (w : Downstream) (k : Prog (option error))
    (all : list (string * list value)) : Prop :=
  forall s, exists t,
    trace (run w k s).2 = trace s ++ t
    /\ statements_at SiteSingleExec t `prefix_of` all
    /\ ((run w k s).1 = Done None -> statements_at SiteSingleExec t = all).

(** No DML of the list is on the mark table. *)
Definition off_mark (EqualFold : string -> string -> bool) {H : Type}
    (i : LoopBackSync H) (h : gmap nat DML) (ps : list nat) : Prop :=
  forall p, p ∈ ps ->
    exists d, h !! p = Some d /\ EqualFold (Table d) (MarkTableName i) = false.

(** The world after the failed first attempt of the example: the insert was
    rewritten to a [REPLACE] and rejected. *)
Definition rejectedWorld : World :=
  {| trace :=
       [Ev OBegin (inl 0%nat);
        Ev (OExec SiteSingleExec 0%nat "REPLACE users" [VInt 1; VString "ann"])
           (inr unknownColumn);
        Ev (OLog LError "exec fail") tt;
        Ev (ORollback 0%nat) None];
     Index := 0 |}.

(** [ordersStore] after the transaction passed the filter. *)
Definition clearedStore : Plugin.Store :=
  {| Plugin.txns := Plugin.txns ordersStore;
     Plugin.dmls := Plugin.clearDatabase <$> Plugin.dmls ordersStore |}.

(** ** More of the plugin: the statements [LoaderInit] builds *)

(** [initMarkTableData] hands one [REPLACE] to [db.Exec]: the query with one
    holder per row, and the arguments [id, 1] for every [id] below
    [rowNum].  Only the statement is modelled; [db.Exec] on the pool is not
    an operation of [Prog]. *)
Definition initMarkTableQuery (markTableName : string) (rowNum : Z) : string :=
  ("REPLACE INTO " +:+ markTableName
     +:+ ("(" +:+ Plugin.ID +:+ "," +:+ Plugin.Val +:+ ") ") +:+ " VALUES ")
    +:+ holders "(?,?)" (Z.to_nat rowNum).

Definition initMarkTableArgs (rowNum : Z) : list value :=
  foldl (fun args id => args ++ [VInt id; VInt 1]) [] (seqZ 0 rowNum).

(** What a trace did to a transaction's protocol flag and whether it rolled
    the transaction back. *)
Definition flag_event (tx : Tx) (ev : event) : option bool :=
  match ev with
  | Ev (OSetProtocolFlag tx' b) _ => if decide (tx' = tx) then Some b else None
  | Ev _ _ => None
  end.

Definition last_flag (tx : Tx) (t : list event) : option bool :=
  last (omap (flag_event tx) t).

Definition is_rollback (tx : Tx) (ev : event) : bool :=
  match ev with
  | Ev (ORollback tx') _ => bool_decide (tx' = tx)
  | Ev _ _ => false
  end.

Definition is_fatal_log (ev : event) : bool :=
  match ev with
  | Ev (OLog LFatal _) _ => true
  | Ev _ _ => false
  end.

(** An info that lists the origin of [orders] among the migration IPs. *)
Definition cyclicInfo : LoopBackSync unit :=
  {| ChannelID := 1; LoopbackControl := true; SupportPlugin := true;
     MarkTableName := "mark"; RecordID := 16; MigrationIPs := ["10.0.0.9"; "10.0.0.1"];
     Hooks := [] |}.

(** ** More vocabulary for the executor *)

Definition is_add_index (ev : event) : bool :=
  match ev with
  | Ev OAddIndex _ => true
  | Ev _ _ => false
  end.

(** An event that neither moves the mark counter nor is a statement of the
    mark update or of an extension. *)
Definition harmless (ev : event) : Prop :=
  is_add_index ev = false
  /\ not_from SiteUpdateMark ev /\ not_from SiteExtension ev.

(** A run that leaves the loopback machinery alone. *)
Definition leaves_mark_alone {A : Type} (w : Downstream) (p : Prog A) (s : World) : Prop :=
  Index (run w p s).2 = Index s
  /\ exists t, trace (run w p s).2 = trace s ++ t
               /\ statements_at SiteUpdateMark t = []
               /\ statements_at SiteExtension t = [].

(** The part of [bulkDelete], [bulkReplace] and [singleExec] up to the
    business statements: [begin], then the hook chain. *)
Definition withTx {pkg : Package} (e : executor) (body : Tx -> Prog (option error))
    : Prog (option error) :=
  r <- begin e;;
  match r with
  | inr err => Ret (Some (Trace err))
  | inl tx => extendTxn e tx;; body tx
  end.

(** What the downstream sees when the plugin fails and [bulkDelete] goes on. *)
Definition swallowedTrace : list event :=
  [Ev OBegin (inl 0%nat);
   Ev (OSetProtocolFlag 0%nat true) tt;
   Ev OAddIndex 1;
   Ev (OExec SiteExtension 0%nat "update mark set val=val+1 where id=? limit 1;" [VInt 1])
      (inl (Rows 0));
   Ev (OLog LError "affected rows is zero") tt;
   Ev (OSetProtocolFlag 0%nat false) tt;
   Ev (ORollback 0%nat) None;
   Ev (OLog LError "ExecutorExtend plugin failed") tt;
   Ev (OExec SiteBulkDelete 0%nat "DELETE users;" [VInt 1; VString "ann"]) (inl (Rows 1));
   Ev (OCommit 0%nat) None].

(** Loopback control on, and no mark row at all. *)
Definition noWorkers : executor := setWorkerCount loopbackExecutor 0.

(** The events that end a transaction, and the successful commit. *)
Definition ends (tx : Tx) (ev : event) : bool :=
  match ev with
  | Ev (OCommit tx') _ => bool_decide (tx' = tx)
  | Ev (ORollback tx') _ => bool_decide (tx' = tx)
  | Ev _ _ => false
  end.

Definition committed (tx : Tx) (ev : event) : bool :=
  match ev with
  | Ev o x =>
      match o in Op T return T -> bool with
      | OCommit tx' => fun r =>
          bool_decide (tx' = tx) && match r with None => true | Some _ => false end
      | _ => fun _ => false
      end x
  end.

(** A program that always returns and ends the transaction exactly once, by
    its last event; it returns nil exactly when that is a successful commit. *)
Definition closes (w : Downstream) (tx : Tx) (k : Prog (option error)) : Prop :=
  forall s, exists r s' t0 ev,
    run w k s = (Done r, s')
    /\ trace s' = trace s ++ t0 ++ [ev]
    /\ Forall (fun e => ends tx e = false) t0
    /\ ends tx ev = true
    /\ (r = None <-> committed tx ev = true).

(** A business statement the downstream rejected. *)
Definition business (st : site) : bool :=
  match st with
  | SiteBulkDelete | SiteBulkReplace | SiteSingleExec => true
  | SiteUpdateMark | SiteExtension => false
  end.

Definition failed_stmt (ev : event) : bool :=
  match ev with
  | Ev o x =>
      match o in Op T return T -> bool with
      | OExec st _ _ _ => fun r =>
          business st && match r with inr _ => true | inl _ => false end
      | _ => fun _ => false
      end x
  end.

(** [doomed bad p]: however it goes on, [p] panics or returns a [bad] result.
    [honest bad p]: after a rejected business statement, [p] is doomed. *)
Fixpoint doomed {A : Type} (bad : A -> Prop) (p : Prog A) : Prop :=
  match p with
  | Ret a => bad a
  | Crash _ => True
  | Do o k => forall x, doomed bad (k x)
  end.

Fixpoint honest {A : Type} (bad : A -> Prop) (p : Prog A) : Prop :=
  match p with
  | Ret _ => True
  | Crash _ => True
  | Do o k =>
      forall x, (failed_stmt (Ev o x) = true -> doomed bad (k x)) /\ honest bad (k x)
  end.

Definition is_err {A : Type} (r : A + error) : Prop :=
  match r with
  | inr _ => True
  | inl _ => False
  end.

Definition some_err (r : option error) : Prop := r <> None.

(** An event other than [db.Begin]. *)
Definition no_begin (ev : event) : Prop := is_begin ev = false.

(** Every run of the program that returns has asked [db.Begin] exactly [n]
    times. *)
Fixpoint tally {A : Type} (p : Prog A) (n : nat) : Prop :=
  match p with
  | Ret _ => n = 0%nat
  | Crash _ => True
  | Do o k =>
      forall x, exists m,
        n = ((if is_begin (Ev o x) then 1 else 0) + m)%nat /\ tally (k x) m
  end.

Definition nonempty (split : list DML) : bool :=
  match split with
  | [] => false
  | _ :: _ => true
  end.

(** Two deletes in batches of one, and a schedule that starts the second
    goroutine first. *)
Definition twoDeletes : list DML := [row DeleteDMLType 1 "ann"; row DeleteDMLType 2 "bob"].

Definition oneByOne : executor := withBatchSize pluginExecutor 1.

Definition secondFirst : list nat := [1%nat; 0%nat; 1%nat; 0%nat].

(** The calls of the [refreshTableInfo] callback in a trace, in order: schema,
    table and answer. *)
Definition refresh_request (ev : event)
    : option (string * string * (tableInfo + error)) :=
  match ev with
  | Ev o x =>
      match o in Op T return T -> option (string * string * (tableInfo + error)) with
      | ORefresh schema table => fun r => Some (schema, table, r)
      | _ => fun _ => None
      end x
  end.

Definition refresh_requests (t : list event)
    : list (string * string * (tableInfo + error)) :=
  omap refresh_request t.

(** What one iteration of the refresh loop did with its DML: it found the
    info in [name2info], it fetched it with the callback, or the callback
    failed. *)
Inductive refreshStep : Type :=
| Cached (fresh : tableInfo)
| Fetched (fresh : tableInfo)
| Failed (err : error).

Definition step_info (st : refreshStep) : option tableInfo :=
  match st with
  | Cached fresh => Some fresh
  | Fetched fresh => Some fresh
  | Failed _ => None
  end.

Definition asked (st : refreshStep) : bool :=
  match st with
  | Cached _ => false
  | Fetched _ => true
  | Failed _ => true
  end.

(** The callback call an iteration made, if any. *)
Definition step_request (d : DML) (st : refreshStep)
    : option (string * string * (tableInfo + error)) :=
  match st with
  | Cached _ => None
  | Fetched fresh => Some (Database d, Table d, inl fresh)
  | Failed err => Some (Database d, Table d, inr err)
  end.

Definition step_requests (ds : list DML) (steps : list refreshStep)
    : list (string * string * (tableInfo + error)) :=
  omap (fun x => step_request x.1 x.2) (zip ds steps).

(** The DML an iteration leaves behind. *)
Definition after_step {pkg : Package} (d : DML) (st : refreshStep) : DML :=
  match step_info st with
  | Some fresh => rebound fresh d
  | None => d
  end.

(** * Properties *)

(** ** Runs *)

Lemma run_bind {A B : Type} (w : Downstream) (p : Prog A) (f : A -> Prog B) (s : World) :
  run w (bind p f) s =
  match run w p s with
  | (Done a, s') => run w (f a) s'
  | (Panicked c, s') => (Panicked c, s')
  end.
Proof.
  revert s. induction p as [a | c | X o k IH]; intros s; simpl; try reflexivity.
  destruct (perform w o s) as [x s']. apply IH.
Qed.

Lemma run_bind_done {A B : Type} (w : Downstream) (p : Prog A) (f : A -> Prog B)
    (s s' : World) (a : A) :
  run w p s = (Done a, s') -> run w (bind p f) s = run w (f a) s'.
Proof. intros Hp. rewrite run_bind, Hp. reflexivity. Qed.

Lemma run_bind_panicked {A B : Type} (w : Downstream) (p : Prog A) (f : A -> Prog B)
    (s s' : World) (c : panic) :
  run w p s = (Panicked c, s') -> run w (bind p f) s = (Panicked c, s').
Proof. intros Hp. rewrite run_bind, Hp. reflexivity. Qed.

Lemma perform_trace (w : Downstream) {X : Type} (o : Op X) (s : World) :
  trace (perform w o s).2 = trace s ++ [Ev o (perform w o s).1].
Proof. destruct o; reflexivity. Qed.

(** A run only ever appends to the trace, and what it appends is what the
    program can emit. *)
Lemma run_emits {A : Type} (P : event -> Prop) (w : Downstream) (p : Prog A) (s : World) :
  emits P p -> exists t, trace (run w p s).2 = trace s ++ t /\ Forall P t.
Proof.
  revert s. induction p as [a | c | X o k IH]; intros s Hp; simpl.
  - exists []. rewrite app_nil_r. auto.
  - exists []. rewrite app_nil_r. auto.
  - destruct Hp as [Ho Hk].
    pose proof (perform_trace w o s) as Ht.
    destruct (perform w o s) as [x s'] eqn:E. simpl in Ht.
    destruct (IH x s' (Hk x)) as (t & Et & Ft).
    exists (Ev o x :: t). split.
    + rewrite Et, Ht, <- app_assoc. reflexivity.
    + constructor; auto.
Qed.

Lemma run_extends {A : Type} (w : Downstream) (p : Prog A) (s : World) :
  exists t, trace (run w p s).2 = trace s ++ t.
Proof.
  assert (He : emits (fun _ => True) p).
  { induction p; simpl; auto. }
  destruct (run_emits _ w p s He) as (t & Et & _). eauto.
Qed.

Lemma emits_bind {A B : Type} (P : event -> Prop) (p : Prog A) (f : A -> Prog B) :
  emits P p -> (forall a, emits P (f a)) -> emits P (bind p f).
Proof.
  intros Hp Hf. induction p as [a | c | X o k IH]; simpl in *; auto.
  destruct Hp as [Ho Hk]. split; auto.
Qed.

Lemma emits_weaken {A : Type} (P Q : event -> Prop) (p : Prog A) :
  (forall ev, P ev -> Q ev) -> emits P p -> emits Q p.
Proof.
  intros HPQ. induction p as [a | c | X o k IH]; simpl; auto.
  intros [Ho Hk]. split; auto.
Qed.

(** Whatever a program does, under [at_site st] its statements come from [st]. *)
Lemma emits_at_site {A : Type} (st st' : site) (p : Prog A) :
  st <> st' -> emits (not_from st') (at_site st p).
Proof.
  intros Hne. induction p as [a | c | X o k IH]; simpl; auto.
  split; auto. intros x. unfold not_from. destruct o; simpl; congruence.
Qed.

Lemma emits_errg_drain (P : event -> Prop) (tasks : list (Prog (option error)))
    (first : option error) :
  Forall (emits P) tasks -> emits P (errg_drain tasks first).
Proof.
  intros Ht. revert first. induction Ht as [| t ts Hp _ IH]; intros first; simpl; auto.
  apply emits_bind; auto.
Qed.

(** Whatever the schedule, a group emits what its tasks emit. *)
Lemma emits_errg_go (P : event -> Prop) (sched : list nat)
    (tasks : list (Prog (option error))) (first : option error) :
  Forall (emits P) tasks -> emits P (errg_go sched tasks first).
Proof.
  revert tasks first. induction sched as [| i sched IH]; intros tasks first Ht; simpl.
  - apply emits_errg_drain, Ht.
  - destruct (tasks !! i) as [t |] eqn:Ei; [| auto].
    pose proof (Forall_lookup_1 _ _ _ _ Ht Ei) as Hti.
    destruct t as [r | c | X o k]; simpl in *; auto.
    + apply IH. apply Forall_delete, Ht.
    + destruct Hti as [Ho Hk]. split; auto.
      intros x. apply IH. apply Forall_insert; auto.
Qed.

Lemma statements_at_app (st : site) (t1 t2 : list event) :
  statements_at st (t1 ++ t2) = statements_at st t1 ++ statements_at st t2.
Proof. unfold statements_at. apply omap_app. Qed.

Lemma statement_at_not_from (st : site) (ev : event) :
  not_from st ev -> statement_at st ev = None.
Proof.
  unfold not_from. destruct ev as [X o x]. destruct o; simpl; auto.
  intros Hne. destruct (decide (st0 = st)); congruence.
Qed.

Lemma statements_at_not_from (st : site) (t : list event) :
  Forall (not_from st) t -> statements_at st t = [].
Proof.
  induction 1 as [| ev t Hev _ IH]; [reflexivity |].
  unfold statements_at in *. simpl. rewrite (statement_at_not_from _ _ Hev). exact IH.
Qed.

(** ** What each function of the executor can emit *)

Section ExecutorEmits.

Context {pkg : Package}.

Lemma emits_autoRollbackExec (st st' : site) (tx : Tx) (q : string) (args : list value) :
  st <> st' -> emits (not_from st') (autoRollbackExec tx st q args).
Proof.
  intros Hne. unfold autoRollbackExec, not_from. simpl. split; [congruence |].
  intros [res | err]; simpl; repeat split; congruence.
Qed.

Lemma emits_commit (st' : site) (tx : Tx) : emits (not_from st') (commit tx).
Proof. unfold commit, not_from. simpl. split; [congruence | auto]. Qed.

Lemma emits_begin (st' : site) (e : executor) :
  SiteUpdateMark <> st' -> emits (not_from st') (begin e).
Proof.
  intros Hne. unfold begin. simpl. split; [unfold not_from; simpl; congruence |].
  intros [tx | err]; simpl; auto.
  destruct (exe_info e) as [i |]; simpl; auto.
  destruct (LoopbackControl i); simpl; auto.
  split; [unfold not_from; simpl; congruence |]. intros idx.
  destruct (decide (workerCount e = 0)); simpl; auto.
  apply emits_bind; [apply emits_at_site, Hne |].
  intros [err |]; simpl; auto.
  split; [unfold not_from; simpl; congruence |].
  intros [rerr |]; simpl; auto.
  split; [unfold not_from; simpl; congruence | auto].
Qed.

Lemma emits_rangeHooks (st' : site) (hooks : list (option ExecutorExtend)) (tx : Tx) :
  SiteExtension <> st' -> emits (not_from st') (rangeHooks hooks tx).
Proof.
  intros Hne. induction hooks as [| [c |] rest IH]; simpl; auto.
  apply emits_bind; [apply emits_at_site, Hne |].
  intros [err |]; simpl; auto.
Qed.

Lemma emits_extendTxn (st' : site) (e : executor) (tx : Tx) :
  SiteExtension <> st' -> emits (not_from st') (extendTxn e tx).
Proof.
  intros Hne. unfold extendTxn.
  destruct (exe_info e) as [i |]; simpl; auto.
  destruct (SupportPlugin i); simpl; auto.
  apply emits_bind; [apply emits_rangeHooks, Hne |].
  intros [err |]; simpl; auto.
  split; [unfold not_from; simpl; congruence | auto].
Qed.

Lemma emits_bulkDelete (st' : site) (e : executor) (deletes : list DML) :
  st' = SiteBulkReplace \/ st' = SiteSingleExec ->
  emits (not_from st') (bulkDelete e deletes).
Proof.
  intros Hst. destruct deletes as [| d ds]; [simpl; auto |]. unfold bulkDelete.
  apply emits_bind; [apply emits_begin; destruct Hst; congruence |].
  intros [tx | err]; [| simpl; auto].
  apply emits_bind; [apply emits_extendTxn; destruct Hst; congruence |].
  intros _. unfold bulkDelete_body.
  apply emits_bind; [apply emits_autoRollbackExec; destruct Hst; congruence |].
  intros [res | err]; simpl; auto. apply emits_commit.
Qed.

Lemma emits_rowArgs (st' : site) (vals : gmap string value) (names : list string) :
  emits (not_from st') (rowArgs vals names).
Proof.
  induction names as [| n rest IH]; simpl; auto.
  split; [unfold not_from; simpl; congruence |]. intros _.
  apply emits_bind; simpl; auto.
Qed.

Lemma emits_replaceArgs (st' : site) (inserts : list DML) (names : list string) :
  emits (not_from st') (replaceArgs inserts names).
Proof.
  induction inserts as [| d rest IH]; simpl; auto.
  apply emits_bind; [apply emits_rowArgs |]. intros row.
  apply emits_bind; simpl; auto.
Qed.

Lemma emits_bulkReplace (st' : site) (e : executor) (inserts : list DML) :
  st' = SiteBulkDelete \/ st' = SiteSingleExec ->
  emits (not_from st') (bulkReplace e inserts).
Proof.
  intros Hst. destruct inserts as [| d ds]; [simpl; auto |]. unfold bulkReplace.
  apply emits_bind; [apply emits_begin; destruct Hst; congruence |].
  intros [tx | err]; [| simpl; auto].
  apply emits_bind; [apply emits_extendTxn; destruct Hst; congruence |].
  intros _. unfold bulkReplace_body.
  apply emits_bind; [apply emits_replaceArgs |]. intros args.
  apply emits_bind; [apply emits_autoRollbackExec; destruct Hst; congruence |].
  intros [res | err]; simpl; auto. apply emits_commit.
Qed.

(** A bucket emits what its executor emits, however it is split and
    scheduled. *)
Lemma emits_splitExecDML (P : event -> Prop) (sched : list nat) (e : executor)
    (dmls : list DML) (exec : list DML -> Prog (option error)) :
  (forall split, emits P (exec split)) -> emits P (splitExecDML sched e dmls exec).
Proof.
  intros Hexec. unfold splitExecDML.
  apply emits_bind; [| simpl; auto].
  apply emits_errg_go. apply Forall_forall. intros t Ht.
  apply list_elem_of_fmap in Ht as (split & -> & _).
  apply emits_bind; [apply Hexec | simpl; auto].
Qed.

Lemma emits_bucket (P : event -> Prop) (sched : list nat) (e : executor)
    (b : option (list DML)) (exec : list DML -> Prog (option error))
    (k : Prog (option error)) :
  (forall split, emits P (exec split)) -> emits P k -> emits P (bucket sched e b exec k).
Proof.
  intros Hexec Hk. unfold bucket. destruct b as [all |]; auto.
  apply emits_bind; [apply emits_splitExecDML, Hexec |].
  intros [err |]; simpl; auto.
Qed.

End ExecutorEmits.

(** ** [execTableBatch]: deletes first *)

Section TableBatch.

Context {pkg : Package}.

Lemma run_bucket (w : Downstream) (sched : list nat) (e : executor)
    (b : option (list DML)) (exec : list DML -> Prog (option error))
    (k : Prog (option error)) (s : World) :
  run w (bucket sched e b exec k) s =
  match b with
  | Some all =>
      match run w (splitExecDML sched e all exec) s with
      | (Done (Some err), s') => (Done (Some (Trace err)), s')
      | (Done None, s') => run w k s'
      | (Panicked c, s') => (Panicked c, s')
      end
  | None => run w k s
  end.
Proof.
  unfold bucket. destruct b as [all |]; [| reflexivity].
  rewrite run_bind.
  destruct (run w (splitExecDML sched e all exec) s) as [[[err |] | c] s']; reflexivity.
Qed.

Lemma emits_replaceBuckets (sched : DMLType -> list nat) (e : executor)
    (types : DMLType -> option (list DML)) :
  emits (not_from SiteBulkDelete) (replaceBuckets sched e types).
Proof.
  unfold replaceBuckets.
  apply emits_bucket; [intros; apply emits_bulkReplace; auto |].
  apply emits_bucket; [intros; apply emits_bulkReplace; auto | simpl; auto].
Qed.

(** The trace of a call falls into the part up to the end of the delete
    bucket and the part after it. *)
Lemma execTableBatch_phases (w : Downstream) (sched : DMLType -> list nat)
    (e : executor) (dmls : list DML) (s : World) :
  dmls <> [] ->
  exists tD tR,
    trace (run w (execTableBatch sched e dmls) s).2 = trace s ++ tD ++ tR
    /\ Forall (not_from SiteBulkReplace) tD
    /\ Forall (not_from SiteBulkDelete) tR
    /\ (forall types allDeletes err,
          mergeByPrimaryKey dmls = inl types ->
          types DeleteDMLType = Some allDeletes ->
          (run w (splitExecDML (sched DeleteDMLType) e allDeletes (bulkDelete e))
             (perform w (OLog LDebug "merge dmls") s).2).1 = Done (Some err) ->
          tR = [] /\ (run w (execTableBatch sched e dmls) s).1 = Done (Some (Trace err))).
Proof.
  intros Hne. destruct dmls as [| d ds]; [congruence |]. clear Hne.
  unfold execTableBatch.
  destruct (mergeByPrimaryKey (d :: ds)) as [types | merr] eqn:Em.
  2:{ exists [], []. simpl. rewrite app_nil_r.
      split; [reflexivity |]. split; [constructor |]. split; [constructor |].
      discriminate. }
  change (logf LDebug "merge dmls";; ?k)%prog with (Do (OLog LDebug "merge dmls") (fun _ => k)).
  cbn [run]. fold (replaceBuckets sched e types).
  pose proof (perform_trace w (OLog LDebug "merge dmls") s) as Hlog.
  destruct (perform w (OLog LDebug "merge dmls") s) as [u s1]. cbn [fst snd] in *.
  rewrite run_bucket.
  assert (HlogD : not_from SiteBulkReplace (Ev (OLog LDebug "merge dmls") u))
    by (unfold not_from; simpl; congruence).
  destruct (types DeleteDMLType) as [all |] eqn:Ed.
  - destruct (run_emits (not_from SiteBulkReplace) w
                (splitExecDML (sched DeleteDMLType) e all (bulkDelete e)) s1)
      as (tDel & EDel & FDel).
    { apply emits_splitExecDML. intros. apply emits_bulkDelete. auto. }
    destruct (run w (splitExecDML (sched DeleteDMLType) e all (bulkDelete e)) s1)
      as [[[err |] | c] sD] eqn:ED; cbn [fst snd] in *.
    + exists (Ev (OLog LDebug "merge dmls") u :: tDel), []. rewrite app_nil_r.
      split; [rewrite EDel, Hlog, <- app_assoc; reflexivity |].
      split; [constructor; assumption |]. split; [constructor |].
      intros types' all' err' [= <-] Ed'. rewrite Ed in Ed'. injection Ed' as <-.
      rewrite ED. cbn [fst]. intros [= <-]. split; reflexivity.
    + destruct (run_emits (not_from SiteBulkDelete) w (replaceBuckets sched e types) sD
                  (emits_replaceBuckets sched e types)) as (tR & ER & FR).
      exists (Ev (OLog LDebug "merge dmls") u :: tDel), tR.
      split; [rewrite ER, EDel, Hlog, <- !app_assoc; reflexivity |].
      split; [constructor; assumption |]. split; [assumption |].
      intros types' all' err' [= <-] Ed'. rewrite Ed in Ed'. injection Ed' as <-.
      rewrite ED. discriminate.
    + exists (Ev (OLog LDebug "merge dmls") u :: tDel), []. rewrite app_nil_r.
      split; [rewrite EDel, Hlog, <- app_assoc; reflexivity |].
      split; [constructor; assumption |]. split; [constructor |].
      intros types' all' err' [= <-] Ed'. rewrite Ed in Ed'. injection Ed' as <-.
      rewrite ED. discriminate.
  - destruct (run_emits (not_from SiteBulkDelete) w (replaceBuckets sched e types) s1
                (emits_replaceBuckets sched e types)) as (tR & ER & FR).
    exists [Ev (OLog LDebug "merge dmls") u], tR.
    split; [rewrite ER, Hlog, <- !app_assoc; reflexivity |].
    split; [constructor; [assumption | constructor] |]. split; [assumption |].
    intros types' all' err' [= <-] Ed'. congruence.
Qed.

End TableBatch.

Section TableBatchOrder.

Context {pkg : Package}.

(** C1.  In a call of [execTableBatch] on a non-empty list, every statement
    that [bulkDelete] hands to the downstream comes earlier in the trace than
    every statement that [bulkReplace] hands to it, whatever the downstream
    answers and however the goroutines of a bucket are scheduled; and when
    the delete bucket returns an error, the call returns that error and no
    statement of [bulkReplace] is issued at all. *)
Theorem execTableBatch_deletes_first (w : Downstream) (sched : DMLType -> list nat)
    (e : executor) (dmls : list DML) (s : World) (t : list event) :
  dmls <> [] ->
  trace (run w (execTableBatch sched e dmls) s).2 = trace s ++ t ->
  (forall i j evi evj,
      t !! i = Some evi -> t !! j = Some evj ->
      event_site evi = Some SiteBulkDelete ->
      event_site evj = Some SiteBulkReplace ->
      (i < j)%nat)
  /\ (forall types allDeletes err,
        mergeByPrimaryKey dmls = inl types ->
        types DeleteDMLType = Some allDeletes ->
        (run w (splitExecDML (sched DeleteDMLType) e allDeletes (bulkDelete e))
           (perform w (OLog LDebug "merge dmls") s).2).1 = Done (Some err) ->
        statements_at SiteBulkReplace t = []
        /\ (run w (execTableBatch sched e dmls) s).1 = Done (Some (Trace err))).
Proof.
  intros Hne Ht.
  destruct (execTableBatch_phases w sched e dmls s Hne) as (tD & tR & Etr & FD & FR & Herr).
  rewrite Ht in Etr. apply app_inv_head in Etr. subst t. split.
  - intros i j evi evj Hi Hj Si Sj.
    destruct (decide (i < length tD)%nat) as [Hlt | Hge].
    + destruct (decide (j < length tD)%nat) as [Hjlt | Hjge]; [| lia].
      rewrite lookup_app_l in Hj by exact Hjlt.
      pose proof (Forall_lookup_1 _ _ _ _ FD Hj) as Hnot. unfold not_from in Hnot. congruence.
    + rewrite lookup_app_r in Hi by lia.
      pose proof (Forall_lookup_1 _ _ _ _ FR Hi) as Hnot. unfold not_from in Hnot. congruence.
  - intros types allDeletes err Hm Hd Hrun.
    destruct (Herr types allDeletes err Hm Hd Hrun) as [-> Hres].
    split; [| exact Hres].
    rewrite app_nil_r. apply statements_at_not_from, FD.
Qed.

End TableBatchOrder.

(** A delete and an insert against a downstream that rejects the delete:
    the call returns the downstream's error and the insert is never sent. *)
Lemma execTableBatch_deletes_first_witness :
  [row DeleteDMLType 1 "ann"; row InsertDMLType 2 "bob"] <> []
  /\ trace (run rejectsDeletes
              (execTableBatch (pkg := demoPackage) (fun _ => []) plainExecutor
                 [row DeleteDMLType 1 "ann"; row InsertDMLType 2 "bob"]) world0).2
     = trace world0 ++
       [Ev (OLog LDebug "merge dmls") tt;
        Ev OBegin (inl 0%nat);
        Ev (OExec SiteBulkDelete 0%nat "DELETE users;" [VInt 1; VString "ann"]) (inr deadlock);
        Ev (OLog LError "exec fail") tt;
        Ev (ORollback 0%nat) None]
  /\ statements_at SiteBulkReplace
       [Ev (OLog LDebug "merge dmls") tt;
        Ev OBegin (inl 0%nat);
        Ev (OExec SiteBulkDelete 0%nat "DELETE users;" [VInt 1; VString "ann"]) (inr deadlock);
        Ev (OLog LError "exec fail") tt;
        Ev (ORollback 0%nat) None] = []
  /\ (run rejectsDeletes
        (execTableBatch (pkg := demoPackage) (fun _ => []) plainExecutor
           [row DeleteDMLType 1 "ann"; row InsertDMLType 2 "bob"]) world0).1
     = Done (Some (Trace deadlock)).
Proof.
  assert (Hne : [row DeleteDMLType 1 "ann"; row InsertDMLType 2 "bob"] <> []) by discriminate.
  split; [exact Hne |]. split; [vm_compute; reflexivity |].
  eapply (proj2 (execTableBatch_deletes_first (pkg := demoPackage) rejectsDeletes
                   (fun _ => []) plainExecutor _ world0 _ Hne ltac:(vm_compute; reflexivity))).
  - cbn. reflexivity.
  - cbn. reflexivity.
  - vm_compute. reflexivity.
Defined.

(** ** Empty input *)

Section EmptyInput.

Context {pkg : Package}.

(** C7.  On the empty list, [execTableBatch], [bulkDelete] and [bulkReplace]
    return nil and leave the world as it was: no [Begin], no statement, no
    event at all reaches the downstream. *)
Theorem empty_input_is_a_no_op (w : Downstream) (sched : DMLType -> list nat)
    (e : executor) (s : World) :
  run w (execTableBatch sched e []) s = (Done None, s)
  /\ run w (bulkDelete e []) s = (Done None, s)
  /\ run w (bulkReplace e []) s = (Done None, s).
Proof. repeat split; reflexivity. Qed.

End EmptyInput.

(** ** Nil sync info *)

Section NilInfo.

Context {pkg : Package}.

Lemma run_begin_nil_info (w : Downstream) (e : executor) (s : World) :
  exe_info e = None ->
  run w (begin e) s =
  (Done (match w _ (trace s) OBegin with
         | inl tx => inl tx
         | inr err => inr (Trace err)
         end),
   {| trace := trace s ++ [Ev OBegin (w _ (trace s) OBegin)]; Index := Index s |}).
Proof.
  intros Hnil. unfold begin. simpl.
  destruct (w _ (trace s) OBegin) as [tx | err]; simpl; [| reflexivity].
  rewrite Hnil. reflexivity.
Qed.

(** C9.  On an executor whose [info] is nil, once [db.Begin] has handed out
    a transaction, [bulkDelete] and [bulkReplace] on a non-empty list and
    [singleExec] panic with a nil dereference at [e.info.SupportPlugin],
    right after the [Begin] and before any statement; [begin] itself
    returns the transaction.  [newExecutor] leaves [info] nil. *)
Theorem nil_info_is_dereferenced (w : Downstream) (e : executor) (d : DML)
    (ds dmls : list DML) (safeMode : bool) (s : World) (tx : Tx) :
  exe_info e = None ->
  w _ (trace s) OBegin = inl tx ->
  let s1 := {| trace := trace s ++ [Ev OBegin (inl tx)]; Index := Index s |} in
  run w (bulkDelete e (d :: ds)) s = (Panicked NilDereference, s1)
  /\ run w (bulkReplace e (d :: ds)) s = (Panicked NilDereference, s1)
  /\ run w (singleExec e dmls safeMode) s = (Panicked NilDereference, s1)
  /\ run w (begin e) s = (Done (inl tx), s1)
  /\ exe_info newExecutor = None.
Proof.
  intros Hnil Hb s1.
  assert (Hbegin : run w (begin e) s = (Done (inl tx), s1)).
  { rewrite (run_begin_nil_info w e s Hnil), Hb. reflexivity. }
  assert (Hext : forall B (k : unit -> Prog B),
             run w (bind (extendTxn e tx) k) s1 = (Panicked NilDereference, s1)).
  { intros B k. unfold extendTxn. rewrite Hnil. reflexivity. }
  repeat split; try exact Hbegin.
  - unfold bulkDelete. rewrite (run_bind_done _ _ _ _ _ _ Hbegin). apply Hext.
  - unfold bulkReplace. rewrite (run_bind_done _ _ _ _ _ _ Hbegin). apply Hext.
  - unfold singleExec. rewrite (run_bind_done _ _ _ _ _ _ Hbegin). apply Hext.
Qed.

End NilInfo.

(** A fresh executor, one delete, a healthy downstream. *)
Lemma nil_info_is_dereferenced_witness :
  exe_info newExecutor = None
  /\ healthy _ (trace world0) OBegin = inl 0%nat
  /\ run healthy (bulkDelete (pkg := demoPackage) newExecutor [row DeleteDMLType 1 "ann"]) world0
     = (Panicked NilDereference, {| trace := [Ev OBegin (inl 0%nat)]; Index := 0 |}).
Proof.
  split; [reflexivity |]. split; [reflexivity |].
  exact (proj1 (nil_info_is_dereferenced (pkg := demoPackage) healthy newExecutor
                  (row DeleteDMLType 1 "ann") [] [] false world0 0%nat eq_refl eq_refl)).
Defined.

(** ** [begin] and the mark table *)

Section BeginMark.

Context {pkg : Package}.

(** C3, as the code has it.  With loopback control on, a worker count
    other than zero and a transaction handed out by [db.Begin], [begin]
    increments [Index] atomically (with [int64] wrap-around) and sends, on
    that transaction, the update of the mark row [Index % workerCount]; when
    that update fails or affects zero rows, [begin] rolls the transaction
    back and returns an error, never the transaction; otherwise it returns
    the transaction and sends nothing more. *)
Theorem begin_updates_mark (w : Downstream) (e : executor)
    (i : LoopBackSync (option ExecutorExtend)) (mt : string) (s : World) (tx : Tx) :
  (forall tx' id ch, UpdateMark tx' id ch = SpecModel.UpdateMark mt tx' id ch) ->
  exe_info e = Some i ->
  LoopbackControl i = true ->
  workerCount e <> 0 ->
  w _ (trace s) OBegin = inl tx ->
  let idx := wrap64 (Index s + 1) in
  let update := SpecModel.markUpdate mt tx (Z.rem idx (workerCount e)) in
  let t2 := trace s ++ [Ev OBegin (inl tx); Ev OAddIndex idx] in
  let r := w _ t2 update in
  let rr := w _ (t2 ++ [Ev update r]) (ORollback tx) in
  let out := run w (begin e) s in
  Index out.2 = idx
  /\ (SpecModel.markFailed r = true ->
      (exists err, out.1 = Done (inr err))
      /\ exists tail,
           trace out.2 = t2 ++ [Ev update r; Ev (ORollback tx) rr] ++ tail
           /\ (tail = [] \/ exists u, tail = [Ev (OLog LError "fail to rollback") u]))
  /\ (SpecModel.markFailed r = false ->
      out.1 = Done (inl tx) /\ trace out.2 = t2 ++ [Ev update r]).
Proof.
  intros HUM Hinfo Hctl Hwc Hb idx update t2 r rr out.
  subst out. unfold begin. cbn [bind call run perform]. rewrite Hb. cbn [bind].
  rewrite Hinfo, Hctl. cbn [bind call run perform fst snd trace Index].
  destruct (decide (workerCount e = 0)) as [Hz | _]; [contradiction |].
  rewrite HUM. unfold SpecModel.UpdateMark. fold idx.
  cbn [bind call at_site at_site_op SpecModel.markUpdate run perform fst snd trace Index].
  rewrite <- app_assoc. cbn [app]. fold t2. fold update. unfold SpecModel.markUpdate in update.
  fold update. fold r.
  destruct r as [[| n | rerr] | err] eqn:Er; cbn [SpecModel.markFailed].
  - split; [reflexivity |]. split; [discriminate |]. intros _.
    split; reflexivity.
  - destruct n as [| n | n]; cbn [bind at_site run perform fst snd trace Index].
    + split; [fold rr; destruct rr; reflexivity |]. split; [| discriminate]. intros _.
      fold rr. destruct rr as [e' |]; cbn; split; eauto.
      * eexists. split; [rewrite <- !app_assoc; reflexivity |]. right. eauto.
      * exists []. split; [rewrite <- !app_assoc; reflexivity |]. left. reflexivity.
    + split; [reflexivity |]. split; [discriminate |]. intros _. split; reflexivity.
    + split; [reflexivity |]. split; [discriminate |]. intros _. split; reflexivity.
  - split; [reflexivity |]. split; [discriminate |]. intros _. split; reflexivity.
  - cbn [bind at_site run perform fst snd trace Index].
    split; [fold rr; destruct rr; reflexivity |]. split; [| discriminate]. intros _.
    fold rr. destruct rr as [e' |]; cbn; split; eauto.
    + eexists. split; [rewrite <- !app_assoc; reflexivity |]. right. eauto.
    + exists []. split; [rewrite <- !app_assoc; reflexivity |]. left. reflexivity.
Qed.

End BeginMark.

(** Loopback control on, sixteen mark rows, and a downstream whose mark
    table has lost its rows: [begin] rolls back and reports the failure. *)
Lemma begin_updates_mark_witness :
  (forall tx' id ch,
      UpdateMark (Package := demoPackage) tx' id ch = SpecModel.UpdateMark "mark" tx' id ch)
  /\ exe_info loopbackExecutor = Some loopbackInfo
  /\ LoopbackControl loopbackInfo = true
  /\ workerCount loopbackExecutor <> 0
  /\ markRowMissing _ (trace world0) OBegin = inl 0%nat
  /\ Index (run markRowMissing (begin (pkg := demoPackage) loopbackExecutor) world0).2 = 1
  /\ (exists err,
        (run markRowMissing (begin (pkg := demoPackage) loopbackExecutor) world0).1
        = Done (inr err))
  /\ trace (run markRowMissing (begin (pkg := demoPackage) loopbackExecutor) world0).2
     = [Ev OBegin (inl 0%nat); Ev OAddIndex 1;
        Ev (SpecModel.markUpdate "mark" 0%nat 1) (inl (Rows 0));
        Ev (ORollback 0%nat) None].
Proof.
  assert (Hwc : workerCount loopbackExecutor <> 0) by (vm_compute; discriminate).
  pose proof (begin_updates_mark (pkg := demoPackage) markRowMissing loopbackExecutor
                loopbackInfo "mark" world0 0%nat (fun _ _ _ => eq_refl) eq_refl eq_refl
                Hwc eq_refl) as (Hidx & Hfail & _).
  destruct (Hfail eq_refl) as [Herr _].
  split; [reflexivity |]. split; [reflexivity |]. split; [reflexivity |].
  split; [exact Hwc |]. split; [reflexivity |]. split; [exact Hidx |].
  split; [exact Herr | reflexivity].
Defined.

(** C3 as it is worded, "whenever [begin] is called with loopback control
    enabled": with a worker count of zero, which [setWorkerCount] accepts,
    [begin] opens the transaction, increments [Index] and panics on the
    modulo.  No update of the mark table is sent, the transaction is not
    rolled back, and no error is returned. *)
Lemma begin_updates_mark_counterexample :
  exe_info noWorkers = Some loopbackInfo
  /\ LoopbackControl loopbackInfo = true
  /\ workerCount noWorkers = 0
  /\ run healthy (begin (pkg := demoPackage) noWorkers) world0
     = (Panicked DivideByZero,
        {| trace := [Ev OBegin (inl 0%nat); Ev OAddIndex 1]; Index := 1 |})
  /\ statements_at SiteUpdateMark [Ev OBegin (inl 0%nat); Ev OAddIndex 1] = []
  /\ Forall (fun ev => is_rollback 0%nat ev = false)
       [Ev OBegin (inl 0%nat); Ev OAddIndex 1].
Proof.
  split; [reflexivity |]. split; [reflexivity |]. split; [reflexivity |].
  split; [vm_compute; reflexivity |]. split; [reflexivity |].
  repeat constructor.
Qed.

(** ** The hook chain *)

Section HookChain.

Context {pkg : Package}.




End HookChain.


(** ** Safe mode *)

Section SafeMode.

Context {pkg : Package}.

Lemma statements_at_cons_exec (st : site) (tx : Tx) (q : string) (args : list value)
    (r : Result + error) (t : list event) :
  statements_at st (Ev (OExec st tx q args) r :: t) = (q, args) :: statements_at st t.
Proof. unfold statements_at. simpl. destruct (decide (st = st)); [reflexivity | contradiction]. Qed.

Lemma singleExec_loop_cons (tx : Tx) (safeMode : bool) (d : DML) (rest : list DML) :
  singleExec_loop tx safeMode (d :: rest)
  = execSeq tx (safeModeStatements safeMode d) (singleExec_loop tx safeMode rest).
Proof.
  unfold safeModeStatements. destruct safeMode, d as [db tb [] old vals inf]; reflexivity.
Qed.

Lemma sends_execSeq (w : Downstream) (tx : Tx) (stmts all : list (string * list value))
    (k : Prog (option error)) :
  sends w k all -> sends w (execSeq tx stmts k) (stmts ++ all).
Proof.
  intros Hk. induction stmts as [| [q args] rest IH]; [exact Hk |].
  intros s. cbn [execSeq autoRollbackExec bind call run perform fst snd].
  destruct (w _ (trace s) (OExec SiteSingleExec tx q args)) as [res | err] eqn:Er.
  - cbn [bind run].
    destruct (IH {| trace := trace s ++ [Ev (OExec SiteSingleExec tx q args) (inl res)];
                    Index := Index s |}) as (t & Et & Hpre & Hall).
    cbn [trace] in Et.
    exists (Ev (OExec SiteSingleExec tx q args) (inl res) :: t).
    rewrite statements_at_cons_exec. split; [| split].
    + rewrite Et, <- app_assoc. reflexivity.
    + apply prefix_cons, Hpre.
    + intros Hdone. cbn [app]. f_equal. apply Hall, Hdone.
  - cbn [bind logf call run perform fst snd trace Index].
    eexists. split; [rewrite <- !app_assoc; reflexivity |].
    cbn [app]. rewrite statements_at_cons_exec. split.
    + apply prefix_cons. cbn. apply prefix_nil.
    + discriminate.
Qed.

Lemma sends_singleExec_loop (w : Downstream) (tx : Tx) (safeMode : bool) (dmls : list DML) :
  sends w (singleExec_loop tx safeMode dmls)
    (concat (safeModeStatements safeMode <$> dmls)).
Proof.
  induction dmls as [| d rest IH].
  - intros s. cbn [singleExec_loop commit bind call run perform fst snd trace].
    eexists. split; [reflexivity |]. cbn. split; [apply prefix_nil | reflexivity].
  - rewrite singleExec_loop_cons. cbn [fmap list_fmap concat].
    apply sends_execSeq, IH.
Qed.

(** C4.  The statements [singleExec] hands to the downstream, in the order
    it hands them, are those safe mode prescribes for the DMLs of the list,
    in list order: all of them when [singleExec] returns nil, and otherwise
    an initial part of them (up to the statement that failed). *)
Theorem singleExec_safe_mode (w : Downstream) (e : executor) (dmls : list DML)
    (safeMode : bool) (s : World) (t : list event) :
  trace (run w (singleExec e dmls safeMode) s).2 = trace s ++ t ->
  statements_at SiteSingleExec t `prefix_of` concat (safeModeStatements safeMode <$> dmls)
  /\ ((run w (singleExec e dmls safeMode) s).1 = Done None ->
      statements_at SiteSingleExec t = concat (safeModeStatements safeMode <$> dmls)).
Proof.
  intros Ht. revert Ht. unfold singleExec. rewrite run_bind.
  destruct (run_emits (not_from SiteSingleExec) w (begin e) s) as (tb & Eb & Fb);
    [apply emits_begin; discriminate |].
  destruct (run w (begin e) s) as [[[tx | err] | c] s1]; cbn [fst snd] in *.
  - rewrite run_bind.
    destruct (run_emits (not_from SiteSingleExec) w (extendTxn e tx) s1) as (tx' & Ex & Fx);
      [apply emits_extendTxn; discriminate |].
    destruct (run w (extendTxn e tx) s1) as [[[] | c] s2]; cbn [fst snd] in *.
    + destruct (sends_singleExec_loop w tx safeMode dmls s2) as (tl & El & Hpre & Hall).
      rewrite El, Ex, Eb, <- !app_assoc. intros Ht. apply app_inv_head in Ht. subst t.
      rewrite !statements_at_app.
      rewrite (statements_at_not_from _ _ Fb), (statements_at_not_from _ _ Fx).
      split; assumption.
    + rewrite Ex, Eb, <- !app_assoc. intros Ht. apply app_inv_head in Ht. subst t.
      rewrite !statements_at_app.
      rewrite (statements_at_not_from _ _ Fb), (statements_at_not_from _ _ Fx).
      split; [apply prefix_nil | discriminate].
  - cbn [run snd fst]. rewrite Eb. intros Ht. apply app_inv_head in Ht. subst t.
    rewrite (statements_at_not_from _ _ Fb). split; [apply prefix_nil | discriminate].
  - rewrite Eb. intros Ht. apply app_inv_head in Ht. subst t.
    rewrite (statements_at_not_from _ _ Fb). split; [apply prefix_nil | discriminate].
Qed.

End SafeMode.

(** An update, an insert and a delete in safe mode, on a healthy downstream. *)
Lemma singleExec_safe_mode_witness :
  trace (run healthy (singleExec (pkg := demoPackage) plainExecutor safeBatch true) world0).2
  = trace world0 ++ safeTrace
  /\ (run healthy (singleExec (pkg := demoPackage) plainExecutor safeBatch true) world0).1
     = Done None
  /\ statements_at SiteSingleExec safeTrace
     = concat (safeModeStatements (pkg := demoPackage) true <$> safeBatch).
Proof.
  assert (Ht : trace (run healthy
                        (singleExec (pkg := demoPackage) plainExecutor safeBatch true) world0).2
               = trace world0 ++ safeTrace) by (vm_compute; reflexivity).
  assert (Hr : (run healthy
                  (singleExec (pkg := demoPackage) plainExecutor safeBatch true) world0).1
               = Done None) by (vm_compute; reflexivity).
  split; [exact Ht |]. split; [exact Hr |].
  exact (proj2 (singleExec_safe_mode (pkg := demoPackage) healthy plainExecutor safeBatch
                  true world0 safeTrace Ht) Hr).
Defined.

(** ** The splitter *)

Lemma chunks_concat {A : Type} (n : nat) (l : list A) :
  concat (SpecModel.chunks n l) = l.
Proof.
  funelim (SpecModel.chunks n l); simp chunks; [reflexivity |].
  cbn [concat app]. f_equal.
  match goal with IH : concat _ = _ |- _ => rewrite IH end.
  apply take_drop.
Qed.

Lemma chunks_bounded {A : Type} (n : nat) (l : list A) :
  Forall (fun c => c <> [] /\ (length c <= S n)%nat) (SpecModel.chunks n l).
Proof.
  funelim (SpecModel.chunks n l); simp chunks; constructor.
  - split; [discriminate |]. cbn [length]. rewrite length_take. lia.
  - assumption.
Qed.

(** C8.  For a batch size [N >= 1] the splitter returns groups whose
    concatenation, in order, is the input, each of them non-empty and of at
    most [N] items. *)
Theorem splitDMLs_partitions {A : Type} (L : list A) (N : Z) :
  1 <= N ->
  exists groups,
    SpecModel.splitDMLs L N = Some groups
    /\ concat groups = L
    /\ Forall (fun c => c <> [] /\ Z.of_nat (length c) <= N) groups.
Proof.
  intros HN. unfold SpecModel.splitDMLs.
  destruct (decide (1 <= N)) as [_ | Hn]; [| contradiction].
  eexists. split; [reflexivity |]. split; [apply chunks_concat |].
  eapply Forall_impl; [apply chunks_bounded |].
  intros c [Hc Hlen]. split; [exact Hc | lia].
Qed.

(** Five items in groups of two. *)
Lemma splitDMLs_partitions_witness :
  1 <= 2
  /\ exists groups,
       SpecModel.splitDMLs [1; 2; 3; 4; 5] 2 = Some groups
       /\ concat groups = [1; 2; 3; 4; 5]
       /\ Forall (fun c => c <> [] /\ Z.of_nat (length c) <= 2) groups.
Proof.
  assert (H : 1 <= 2) by lia.
  split; [exact H |]. exact (splitDMLs_partitions [1; 2; 3; 4; 5] 2 H).
Defined.

Example splitDMLs_five_by_two :
  SpecModel.splitDMLs [1; 2; 3; 4; 5] 2 = Some [[1; 2]; [3; 4]; [5]].
Proof. reflexivity. Qed.

(** ** The merger *)

Lemma dml_key_retype (tp : DMLType) (d : DML) :
  SpecModel.dml_key (SpecModel.retype tp d) = SpecModel.dml_key d.
Proof. reflexivity. Qed.

Lemma collapse_keeps_key (prior : DMLType) (next d : DML) :
  SpecModel.collapse prior next = inl (Some d) ->
  SpecModel.dml_key d = SpecModel.dml_key next.
Proof.
  unfold SpecModel.collapse.
  destruct prior, (Tp next); intros [= <-]; auto using dml_key_retype.
Qed.

Lemma arrive_keys (next : DML) (survivors survivors' : list (SpecModel.key * DML)) :
  SpecModel.arrive next survivors = inl survivors' ->
  forall k, k ∈ fst <$> survivors' ->
            k = SpecModel.dml_key next \/ k ∈ fst <$> survivors.
Proof.
  revert survivors'. induction survivors as [| [k0 prior] rest IH]; intros sv' Ha k Hk.
  - injection Ha as <-. apply list_elem_of_singleton in Hk. auto.
  - cbn [SpecModel.arrive] in Ha.
    destruct (decide (k0 = SpecModel.dml_key next)) as [-> | Hne].
    + destruct (SpecModel.collapse (Tp prior) next) as [[d |] | err]; [| | discriminate];
        injection Ha as <-; cbn in *.
      * right. exact Hk.
      * right. apply elem_of_cons. auto.
    + destruct (SpecModel.arrive next rest) as [rest' | err]; [| discriminate].
      injection Ha as <-. cbn in Hk. apply elem_of_cons in Hk as [-> | Hk].
      * right. cbn. apply elem_of_cons. auto.
      * destruct (IH rest' eq_refl k Hk) as [-> | Hin]; [auto |].
        right. cbn. apply elem_of_cons. auto.
Qed.

Lemma arrive_keyed (next : DML) (survivors survivors' : list (SpecModel.key * DML)) :
  SpecModel.arrive next survivors = inl survivors' -> keyed survivors -> keyed survivors'.
Proof.
  revert survivors'. induction survivors as [| [k0 prior] rest IH]; intros sv' Ha [Hnd Hown].
  - injection Ha as <-. split.
    + cbn. apply NoDup_singleton.
    + repeat constructor.
  - cbn [SpecModel.arrive] in Ha. cbn in Hnd.
    apply NoDup_cons in Hnd as [Hk0 Hnd]. apply Forall_cons in Hown as [Hk0own Hown].
    destruct (decide (k0 = SpecModel.dml_key next)) as [-> | Hne].
    + destruct (SpecModel.collapse (Tp prior) next) as [[d |] | err] eqn:Ec; [| | discriminate];
        injection Ha as <-.
      * split; [cbn; apply NoDup_cons; auto |].
        constructor; [| exact Hown]. cbn. symmetry. eapply collapse_keeps_key, Ec.
      * split; assumption.
    + destruct (SpecModel.arrive next rest) as [rest' | err] eqn:Er; [| discriminate].
      injection Ha as <-. destruct (IH rest' eq_refl (conj Hnd Hown)) as [Hnd' Hown'].
      split; [| constructor; assumption].
      cbn. apply NoDup_cons. split; [| exact Hnd'].
      intros Hin. destruct (arrive_keys _ _ _ Er _ Hin) as [-> | Hin']; contradiction.
Qed.

Lemma scan_keyed (dmls : list DML) (survivors survivors' : list (SpecModel.key * DML)) :
  SpecModel.scan dmls survivors = inl survivors' -> keyed survivors -> keyed survivors'.
Proof.
  revert survivors. induction dmls as [| d rest IH]; intros sv Hs Hk.
  - injection Hs as <-. exact Hk.
  - cbn [SpecModel.scan] in Hs.
    destruct (SpecModel.arrive d sv) as [sv1 | err] eqn:Ea; [| discriminate].
    eapply IH; [exact Hs |]. eapply arrive_keyed; eassumption.
Qed.

Lemma keyed_NoDup_keys (survivors : list (SpecModel.key * DML)) :
  keyed survivors -> NoDup (SpecModel.dml_key <$> (snd <$> survivors)).
Proof.
  intros [Hnd Hown].
  assert (E : SpecModel.dml_key <$> (snd <$> survivors) = fst <$> survivors).
  { clear Hnd. induction Hown as [| kd sv Hkd _ IH]; [reflexivity |].
    cbn. rewrite <- Hkd. f_equal. exact IH. }
  rewrite E. exact Hnd.
Qed.

(** C2.  When the merger succeeds, any two entries at different positions of
    the same bucket have different composite keys. *)
Theorem mergeByPrimaryKey_unique_keys (L : list DML)
    (types : DMLType -> option (list DML)) (op : DMLType) (b : list DML)
    (i j : nat) (x y : DML) :
  SpecModel.mergeByPrimaryKey L = inl types ->
  types op = Some b ->
  b !! i = Some x ->
  b !! j = Some y ->
  i <> j ->
  SpecModel.dml_key x <> SpecModel.dml_key y.
Proof.
  unfold SpecModel.mergeByPrimaryKey.
  destruct (SpecModel.scan L []) as [sv | err] eqn:Es; [| discriminate].
  intros [= <-] [= <-] Hi Hj Hij Hkey.
  assert (Hk : keyed sv).
  { eapply scan_keyed; [exact Es |]. split; constructor. }
  assert (Hnd : NoDup (SpecModel.dml_key <$> filter (fun d => Tp d = op) (snd <$> sv))).
  { eapply sublist_NoDup; [apply keyed_NoDup_keys, Hk |].
    apply fmap_sublist, sublist_filter. }
  apply Hij. eapply NoDup_lookup; [exact Hnd | |].
  - rewrite list_lookup_fmap, Hi. reflexivity.
  - rewrite list_lookup_fmap, Hj. cbn. rewrite Hkey. reflexivity.
Qed.

(** Key 7 is inserted and then updated, key 8 is inserted: the insert bucket
    holds one entry for each key. *)
Lemma mergeByPrimaryKey_unique_keys_witness :
  SpecModel.mergeByPrimaryKey
    [row InsertDMLType 7 "ann"; row UpdateDMLType 7 "anna"; row InsertDMLType 8 "bob"]
  = inl (SpecModel.regroup
           [(SpecModel.dml_key (row InsertDMLType 7 "anna"), row InsertDMLType 7 "anna");
            (SpecModel.dml_key (row InsertDMLType 8 "bob"), row InsertDMLType 8 "bob")])
  /\ SpecModel.regroup
       [(SpecModel.dml_key (row InsertDMLType 7 "anna"), row InsertDMLType 7 "anna");
        (SpecModel.dml_key (row InsertDMLType 8 "bob"), row InsertDMLType 8 "bob")]
       InsertDMLType
     = Some [row InsertDMLType 7 "anna"; row InsertDMLType 8 "bob"]
  /\ [row InsertDMLType 7 "anna"; row InsertDMLType 8 "bob"] !! 0%nat
     = Some (row InsertDMLType 7 "anna")
  /\ [row InsertDMLType 7 "anna"; row InsertDMLType 8 "bob"] !! 1%nat
     = Some (row InsertDMLType 8 "bob")
  /\ 0%nat <> 1%nat
  /\ SpecModel.dml_key (row InsertDMLType 7 "anna")
     <> SpecModel.dml_key (row InsertDMLType 8 "bob").
Proof.
  assert (H1 : SpecModel.mergeByPrimaryKey
    [row InsertDMLType 7 "ann"; row UpdateDMLType 7 "anna"; row InsertDMLType 8 "bob"]
  = inl (SpecModel.regroup
           [(SpecModel.dml_key (row InsertDMLType 7 "anna"), row InsertDMLType 7 "anna");
            (SpecModel.dml_key (row InsertDMLType 8 "bob"), row InsertDMLType 8 "bob")]))
    by reflexivity.
  assert (H2 : SpecModel.regroup
       [(SpecModel.dml_key (row InsertDMLType 7 "anna"), row InsertDMLType 7 "anna");
        (SpecModel.dml_key (row InsertDMLType 8 "bob"), row InsertDMLType 8 "bob")]
       InsertDMLType
     = Some [row InsertDMLType 7 "anna"; row InsertDMLType 8 "bob"]) by reflexivity.
  assert (H5 : 0%nat <> 1%nat) by discriminate.
  split; [exact H1 |]. split; [exact H2 |]. split; [reflexivity |].
  split; [reflexivity |]. split; [exact H5 |].
  exact (mergeByPrimaryKey_unique_keys _ _ InsertDMLType _ 0%nat 1%nat _ _
           H1 H2 eq_refl eq_refl H5).
Defined.

(** ** The plugin's filter *)

Section Filter.

Variable EqualFold : string -> string -> bool.
Variable Sprintf_count : nat -> string.
Variable Sprintf_dml : nat -> option DML -> string.

Context {H : Type}.

Local Abbreviation FilterTxn := (Plugin.FilterTxn EqualFold Sprintf_count Sprintf_dml).

Lemma findLoopBackMark_loop_none (all rest : list nat) (i : LoopBackSync H)
    (h : gmap nat DML) :
  off_mark EqualFold i h rest ->
  Plugin.findLoopBackMark_loop EqualFold Sprintf_count Sprintf_dml all rest i h
  = Ret (false, None).
Proof.
  induction rest as [| p rest IH]; intros Hoff; [reflexivity |].
  cbn [Plugin.findLoopBackMark_loop].
  destruct (Hoff p) as (d & -> & ->); [apply list_elem_of_here |].
  apply IH. intros q Hq. apply Hoff, list_elem_of_further, Hq.
Qed.

Lemma findLoopBackMark_loop_found (w : Downstream) (all rest : list nat)
    (i : LoopBackSync H) (h : gmap nat DML) (s : World) :
  (forall p, p ∈ rest -> is_Some (h !! p)) ->
  (exists p d, p ∈ rest /\ h !! p = Some d
               /\ EqualFold (Table d) (MarkTableName i) = true) ->
  (run w (Plugin.findLoopBackMark_loop EqualFold Sprintf_count Sprintf_dml all rest i h) s).1
  = Done (true, None).
Proof.
  induction rest as [| p rest IH]; intros Hbound (q & d & Hq & Hd & Hm).
  - apply elem_of_nil in Hq. contradiction.
  - cbn [Plugin.findLoopBackMark_loop].
    destruct (Hbound p) as [dp Hp]; [apply list_elem_of_here |]. rewrite Hp.
    destruct (EqualFold (Table dp) (MarkTableName i)) eqn:Ep; [reflexivity |].
    apply IH.
    + intros r Hr. apply Hbound, list_elem_of_further, Hr.
    + apply elem_of_cons in Hq as [-> | Hq].
      * rewrite Hp in Hd. injection Hd as ->. congruence.
      * eauto.
Qed.

Lemma checkMigrationIPs_pass (t : Plugin.Txn) (ips : list string) :
  Forall (fun ip => EqualFold (Plugin.Ip t) ip = false) ips ->
  Plugin.checkMigrationIPs EqualFold t ips = Ret tt.
Proof.
  induction 1 as [| ip ips Hip _ IH]; [reflexivity |].
  cbn [Plugin.checkMigrationIPs]. rewrite Hip. exact IH.
Qed.

Lemma clearDatabase_idem (d : DML) :
  Plugin.clearDatabase (Plugin.clearDatabase d) = Plugin.clearDatabase d.
Proof. reflexivity. Qed.

(** The last loop of [FilterTxn] writes [Database] of the DMLs it visits
    and nothing else. *)
Lemma clearDatabases_spec (ps : list nat) (h : gmap nat DML) :
  (forall p, p ∈ ps -> is_Some (h !! p)) ->
  exists h',
    Plugin.clearDatabases ps h = Ret h'
    /\ (forall p, p ∈ ps -> h' !! p = Plugin.clearDatabase <$> h !! p)
    /\ (forall p, p ∉ ps -> h' !! p = h !! p).
Proof.
  revert h. induction ps as [| p ps IH]; intros h Hbound.
  - exists h. split; [reflexivity |]. split; [| reflexivity].
    intros p Hp. apply elem_of_nil in Hp. contradiction.
  - cbn [Plugin.clearDatabases].
    destruct (Hbound p) as [d Hd]; [apply list_elem_of_here |]. rewrite Hd.
    destruct (IH (<[p := Plugin.clearDatabase d]> h)) as (h' & Eh & Hin & Hout).
    { intros q Hq. destruct (decide (q = p)) as [-> | Hne].
      - rewrite lookup_insert_eq. eauto.
      - rewrite lookup_insert_ne by congruence. apply Hbound, list_elem_of_further, Hq. }
    exists h'. split; [exact Eh |]. split.
    + intros q Hq. destruct (decide (q ∈ ps)) as [Hqs | Hqs].
      * rewrite (Hin q Hqs). destruct (decide (q = p)) as [-> | Hne].
        -- rewrite lookup_insert_eq, Hd. reflexivity.
        -- rewrite lookup_insert_ne by congruence. reflexivity.
      * rewrite (Hout q Hqs).
        apply elem_of_cons in Hq as [-> | Hq]; [| contradiction].
        rewrite lookup_insert_eq, Hd. reflexivity.
    + intros q Hq. apply not_elem_of_cons in Hq as [Hne Hqs].
      rewrite (Hout q Hqs). rewrite lookup_insert_ne by congruence. reflexivity.
Qed.

(** C10.  With a transaction and an info that are not nil: a transaction
    without DDL, without a DML on the mark table and whose [Ip] matches no
    migration IP comes back as the same pointer with a nil error, nothing
    is logged, the transaction object is untouched, and in the store of DMLs
    the only change is that [Database] of each of its DMLs is the empty
    string.  A transaction with a DDL, or with a DML on the mark table, and
    a nil transaction or nil info, give a nil transaction, a nil error and
    an unchanged store. *)
Theorem FilterTxn_frame (w : Downstream) (s : World) (a : nat) (t : Plugin.Txn)
    (i : LoopBackSync H) (σ : Plugin.Store) :
  Plugin.txns σ !! a = Some t ->
  (forall p, p ∈ Plugin.DMLs t -> is_Some (Plugin.dmls σ !! p)) ->
  (Plugin.TxnDDL t = None ->
   off_mark EqualFold i (Plugin.dmls σ) (Plugin.DMLs t) ->
   Forall (fun ip => EqualFold (Plugin.Ip t) ip = false) (MigrationIPs i) ->
   exists h',
     run w (FilterTxn (Some a) (Some i) σ) s
     = (Done (Some a, None, {| Plugin.txns := Plugin.txns σ; Plugin.dmls := h' |}), s)
     /\ (forall p d, p ∈ Plugin.DMLs t -> Plugin.dmls σ !! p = Some d ->
           exists d', h' !! p = Some d'
             /\ Database d' = "" /\ Table d' = Table d /\ Tp d' = Tp d
             /\ OldValues d' = OldValues d /\ Values d' = Values d /\ info d' = info d)
     /\ (forall p, p ∉ Plugin.DMLs t -> h' !! p = Plugin.dmls σ !! p))
  /\ (is_Some (Plugin.TxnDDL t) ->
      (run w (FilterTxn (Some a) (Some i) σ) s).1 = Done (None, None, σ))
  /\ (Plugin.TxnDDL t = None ->
      (exists p d, p ∈ Plugin.DMLs t /\ Plugin.dmls σ !! p = Some d
                   /\ EqualFold (Table d) (MarkTableName i) = true) ->
      (run w (FilterTxn (Some a) (Some i) σ) s).1 = Done (None, None, σ))
  /\ run w (FilterTxn None (Some i) σ) s = (Done (None, None, σ), s)
  /\ (forall txn, run w (FilterTxn txn (@None (LoopBackSync H)) σ) s
                  = (Done (None, None, σ), s)).
Proof.
  intros Ht Hbound. split; [| split; [| split; [| split]]].
  - intros Hddl Hoff Hips.
    destruct (clearDatabases_spec (Plugin.DMLs t) (Plugin.dmls σ) Hbound)
      as (h' & Eh & Hin & Hout).
    exists h'. split; [| split; [| exact Hout]].
    + unfold Plugin.FilterTxn, Plugin.findLoopBackMark. rewrite Ht, Hddl.
      rewrite (findLoopBackMark_loop_none _ _ _ _ Hoff). cbn [bind fst snd].
      rewrite (checkMigrationIPs_pass _ _ Hips). cbn [bind].
      rewrite Eh. reflexivity.
    + intros p d Hp Hd. exists (Plugin.clearDatabase d).
      rewrite (Hin p Hp), Hd. repeat split; reflexivity.
  - intros [ddl Hddl]. unfold Plugin.FilterTxn. rewrite Ht, Hddl. reflexivity.
  - intros Hddl Hmark. unfold Plugin.FilterTxn, Plugin.findLoopBackMark.
    rewrite Ht, Hddl, run_bind.
    pose proof (findLoopBackMark_loop_found w (Plugin.DMLs t) (Plugin.DMLs t) i
                  (Plugin.dmls σ) s Hbound Hmark) as Hf.
    destruct (run w _ s) as [[r | c] s'] in Hf |- *; cbn [fst] in Hf; [| discriminate].
    injection Hf as ->. reflexivity.
  - reflexivity.
  - intros [a' |]; reflexivity.
Qed.

End Filter.

(** Two DMLs on table [users], no DDL, a foreign origin: the transaction
    passes and both DMLs lose their database name. *)
Lemma FilterTxn_frame_witness :
  Plugin.txns ordersStore !! 0%nat = Some orders
  /\ (forall p, p ∈ Plugin.DMLs orders -> is_Some (Plugin.dmls ordersStore !! p))
  /\ Plugin.TxnDDL orders = None
  /\ off_mark String.eqb peerInfo (Plugin.dmls ordersStore) (Plugin.DMLs orders)
  /\ Forall (fun ip => String.eqb (Plugin.Ip orders) ip = false) (MigrationIPs peerInfo)
  /\ exists h',
       run healthy
         (Plugin.FilterTxn String.eqb (fun _ => "") (fun _ _ => "")
            (Some 0%nat) (Some peerInfo) ordersStore) world0
       = (Done (Some 0%nat, None,
                {| Plugin.txns := Plugin.txns ordersStore; Plugin.dmls := h' |}), world0)
       /\ (forall p d, p ∈ Plugin.DMLs orders -> Plugin.dmls ordersStore !! p = Some d ->
             exists d', h' !! p = Some d'
               /\ Database d' = "" /\ Table d' = Table d /\ Tp d' = Tp d
               /\ OldValues d' = OldValues d /\ Values d' = Values d /\ info d' = info d)
       /\ (forall p, p ∉ Plugin.DMLs orders -> h' !! p = Plugin.dmls ordersStore !! p).
Proof.
  assert (Hb : forall p, p ∈ Plugin.DMLs orders -> is_Some (Plugin.dmls ordersStore !! p)).
  { intros p Hp. apply elem_of_cons in Hp as [-> | Hp]; [vm_compute; eauto |].
    apply list_elem_of_singleton in Hp as ->. vm_compute. eauto. }
  assert (Ho : off_mark String.eqb peerInfo (Plugin.dmls ordersStore) (Plugin.DMLs orders)).
  { intros p Hp. apply elem_of_cons in Hp as [-> | Hp].
    - eexists. split; [vm_compute; reflexivity | reflexivity].
    - apply list_elem_of_singleton in Hp as ->.
      eexists. split; [vm_compute; reflexivity | reflexivity]. }
  assert (Hi : Forall (fun ip => String.eqb (Plugin.Ip orders) ip = false)
                 (MigrationIPs peerInfo)).
  { repeat constructor. }
  split; [reflexivity |]. split; [exact Hb |]. split; [reflexivity |].
  split; [exact Ho |]. split; [exact Hi |].
  exact (proj1 (FilterTxn_frame String.eqb (fun _ => "") (fun _ _ => "") healthy world0
                  0%nat orders peerInfo ordersStore eq_refl Hb) eq_refl Ho Hi).
Defined.

(** ** Schema refresh between attempts *)

Lemma refresh_calls_app (t1 t2 : list event) :
  refresh_calls (t1 ++ t2) = refresh_calls t1 ++ refresh_calls t2.
Proof. apply omap_app. Qed.

Lemma refresh_successes_app (t1 t2 : list event) :
  refresh_successes (t1 ++ t2) = refresh_successes t1 ++ refresh_successes t2.
Proof. unfold refresh_successes. rewrite refresh_calls_app. apply omap_app. Qed.

Lemma refresh_successes_le (t : list event) :
  (length (refresh_successes t) <= length (refresh_calls t))%nat.
Proof.
  unfold refresh_successes. induction (refresh_calls t) as [| [fresh | err] rs IH]; cbn; lia.
Qed.

Section Refresh.

Context {pkg : Package}.
Variable w : Downstream.

Lemma batch_names_cons (h : gmap nat DML) (p : nat) (d : DML) (rest : list nat) :
  h !! p = Some d ->
  batch_names h (p :: rest) = {[DML_TableName d]} ∪ batch_names h rest.
Proof. intros Hp. unfold batch_names. cbn. rewrite Hp. reflexivity. Qed.

Lemma batch_names_ext (h1 h : gmap nat DML) (ps : list nat) :
  (forall p, p ∈ ps -> h1 !! p = h !! p) -> batch_names h1 ps = batch_names h ps.
Proof.
  intros Hext. unfold batch_names. f_equal.
  induction ps as [| p ps IH]; [reflexivity |]. cbn.
  rewrite (Hext p) by apply list_elem_of_here.
  rewrite IH; [reflexivity |]. intros q Hq. apply Hext, list_elem_of_further, Hq.
Qed.

Lemma run_rebind (p : nat) (fresh : tableInfo) (d : DML) (h : gmap nat DML) (s : World) :
  exists s' t,
    run w (rebind p fresh d h) s = (Done (<[p := rebound fresh d]> h), s')
    /\ trace s' = trace s ++ t
    /\ refresh_calls t = [].
Proof.
  unfold rebind, rebound.
  destruct (decide (length (columns (info d)) ≠ length (columns fresh))).
  - cbn. eexists _, [_]. split; [reflexivity |]. split; reflexivity.
  - cbn. exists s, []. rewrite app_nil_r. split; [reflexivity |]. split; reflexivity.
Qed.

(** One pass of the refresh loop over distinct, bound addresses. *)
Lemma refreshLoop_walk (dmls : list nat) :
  forall (c : gmap string tableInfo) (h : gmap nat DML) (s : World),
  NoDup dmls ->
  (forall p, p ∈ dmls -> is_Some (h !! p)) ->
  exists h' c' s' t,
    run w (refreshLoop dmls c h) s = (Done (h', c'), s')
    /\ trace s' = trace s ++ t
    /\ c ⊆ c'
    /\ size c' = (size c + length (refresh_successes t))%nat
    /\ dom c' ⊆ dom c ∪ batch_names h dmls
    /\ (length (refresh_calls t) <= length dmls)%nat
    /\ (length (refresh_successes t) = length (refresh_calls t) ->
        batch_names h dmls ⊆ dom c')
    /\ (forall p d, p ∈ dmls -> h !! p = Some d ->
          h' !! p = Some d
          \/ exists fresh, c' !! DML_TableName d = Some fresh
                           /\ h' !! p = Some (rebound fresh d))
    /\ (forall p, p ∉ dmls -> h' !! p = h !! p).
Proof.
  induction dmls as [| p rest IH]; intros c h s Hnd Hbound.
  - exists h, c, s, []. cbn. rewrite app_nil_r.
    split; [reflexivity |]. split; [reflexivity |]. split; [reflexivity |].
    split; [lia |]. split; [set_solver |]. split; [lia |]. split; [set_solver |].
    split; [| reflexivity]. intros p d Hp. apply elem_of_nil in Hp. contradiction.
  - apply NoDup_cons in Hnd as [Hp Hnd].
    destruct (Hbound p) as [d Hd]; [apply list_elem_of_here |].
    assert (Hstep : forall c1 h1 s1 t0,
      trace s1 = trace s ++ t0 ->
      c ⊆ c1 ->
      size c1 = (size c + length (refresh_successes t0))%nat ->
      dom c1 ⊆ dom c ∪ {[DML_TableName d]} ->
      (length (refresh_calls t0) <= 1)%nat ->
      (length (refresh_successes t0) = length (refresh_calls t0) ->
       DML_TableName d ∈ dom c1) ->
      (forall q, q ≠ p -> h1 !! q = h !! q) ->
      (h1 !! p = Some d
       \/ exists fresh, c1 !! DML_TableName d = Some fresh
                        /\ h1 !! p = Some (rebound fresh d)) ->
      exists h' c' s' t,
        run w (refreshLoop rest c1 h1) s1 = (Done (h', c'), s')
        /\ trace s' = trace s ++ t
        /\ c ⊆ c'
        /\ size c' = (size c + length (refresh_successes t))%nat
        /\ dom c' ⊆ dom c ∪ batch_names h (p :: rest)
        /\ (length (refresh_calls t) <= length (p :: rest))%nat
        /\ (length (refresh_successes t) = length (refresh_calls t) ->
            batch_names h (p :: rest) ⊆ dom c')
        /\ (forall q dq, q ∈ p :: rest -> h !! q = Some dq ->
              h' !! q = Some dq
              \/ exists fresh, c' !! DML_TableName dq = Some fresh
                               /\ h' !! q = Some (rebound fresh dq))
        /\ (forall q, q ∉ p :: rest -> h' !! q = h !! q)).
    { intros c1 h1 s1 t0 Ht0 Hc1 Hsz Hdom Hcalls Hall Hframe Hhead.
      assert (Hrest : forall q, q ∈ rest -> h1 !! q = h !! q).
      { intros q Hq. apply Hframe. intros ->. contradiction. }
      destruct (IH c1 h1 s1 Hnd) as (h' & c' & s' & t' & Er & Et & Hsub & Hsz' & Hdom'
                                      & Hcalls' & Hall' & Hheap' & Hframe').
      { intros q Hq. rewrite (Hrest q Hq). apply Hbound, list_elem_of_further, Hq. }
      rewrite (batch_names_ext h1 h rest Hrest) in Hdom', Hall'.
      rewrite (batch_names_cons h p d rest Hd).
      pose proof (refresh_successes_le t0) as Hle0.
      pose proof (refresh_successes_le t') as Hle'.
      exists h', c', s', (t0 ++ t').
      rewrite refresh_successes_app, refresh_calls_app, !length_app.
      split; [exact Er |]. split; [rewrite Et, Ht0, <- app_assoc; reflexivity |].
      split; [etransitivity; eassumption |]. split; [lia |].
      split; [set_solver |]. split; [cbn [length]; lia |].
      split.
      { intros Heq. assert (Hin : DML_TableName d ∈ dom c1) by (apply Hall; lia).
        assert (Hinc : batch_names h rest ⊆ dom c') by (apply Hall'; lia).
        apply subseteq_dom in Hsub. set_solver. }
      split.
      { intros q dq Hq Hdq. apply elem_of_cons in Hq as [-> | Hq].
        - rewrite Hd in Hdq. injection Hdq as <-. rewrite (Hframe' p Hp).
          destruct Hhead as [Hs | (fresh & Hf & Hs)]; [left; exact Hs |].
          right. exists fresh. split; [| exact Hs].
          eapply lookup_weaken; eassumption.
        - apply Hheap'; [exact Hq |]. rewrite (Hrest q Hq). exact Hdq. }
      intros q Hq. apply not_elem_of_cons in Hq as [Hne Hq].
      rewrite (Hframe' q Hq). apply Hframe, Hne. }
    cbn [refreshLoop]. rewrite Hd.
    destruct (c !! DML_TableName d) as [fresh |] eqn:Ec.
    + rewrite run_bind.
      destruct (run_rebind p fresh d h s) as (s1 & t0 & Er & Et & Hno). rewrite Er.
      apply (Hstep c _ s1 t0 Et).
      * reflexivity.
      * unfold refresh_successes. rewrite Hno. cbn. lia.
      * set_solver.
      * rewrite Hno. cbn. lia.
      * intros _. apply elem_of_dom. eauto.
      * intros q Hq. apply lookup_insert_ne. congruence.
      * right. exists fresh. split; [exact Ec |]. apply lookup_insert_eq.
    + cbn [bind call run perform fst snd].
      destruct (w _ (trace s) (ORefresh (Database d) (Table d))) as [fresh | err] eqn:Ew.
      * rewrite run_bind.
        destruct (run_rebind p fresh d h
                    {| trace := trace s ++ [Ev (ORefresh (Database d) (Table d)) (inl fresh)];
                       Index := Index s |}) as (s1 & t0 & Er & Et & Hno).
        rewrite Er. cbn [trace] in Et. rewrite <- app_assoc in Et.
        apply (Hstep (<[DML_TableName d := fresh]> c) _ s1 _ Et).
        -- apply insert_subseteq, Ec.
        -- rewrite (map_size_insert_None _ _ _ Ec), refresh_successes_app.
           unfold refresh_successes at 2. rewrite Hno. cbn. lia.
        -- rewrite dom_insert. set_solver.
        -- rewrite refresh_calls_app, Hno. cbn. lia.
        -- intros _. rewrite dom_insert. set_solver.
        -- intros q Hq. apply lookup_insert_ne. congruence.
        -- right. exists fresh. split; apply lookup_insert_eq.
      * cbn [bind logf call run perform fst snd trace Index].
        eapply (Hstep c h); [cbn [trace]; rewrite <- app_assoc; reflexivity | ..].
        -- reflexivity.
        -- cbn. lia.
        -- set_solver.
        -- cbn. lia.
        -- cbn. lia.
        -- reflexivity.
        -- left. exact Hd.
Qed.

Lemma refresh_requests_app (t1 t2 : list event) :
  refresh_requests (t1 ++ t2) = refresh_requests t1 ++ refresh_requests t2.
Proof. apply omap_app. Qed.

Lemma run_rebind_requests (p : nat) (fresh : tableInfo) (d : DML) (h : gmap nat DML)
    (s : World) :
  exists s' t,
    run w (rebind p fresh d h) s = (Done (<[p := rebound fresh d]> h), s')
    /\ trace s' = trace s ++ t
    /\ refresh_requests t = [].
Proof.
  unfold rebind, rebound.
  destruct (decide (length (columns (info d)) ≠ length (columns fresh))).
  - cbn. eexists _, [_]. split; [reflexivity |]. split; reflexivity.
  - cbn. exists s, []. rewrite app_nil_r. split; [reflexivity |]. split; reflexivity.
Qed.

Lemma bound_ext (h1 h : gmap nat DML) (ps : list nat) (ds : list DML) :
  Forall2 (fun p d => h !! p = Some d) ps ds ->
  (forall q, q ∈ ps -> h1 !! q = h !! q) ->
  Forall2 (fun p d => h1 !! p = Some d) ps ds.
Proof.
  induction 1 as [| p d ps ds Hp _ IH]; intros Hext; constructor.
  - rewrite Hext by apply list_elem_of_here. exact Hp.
  - apply IH. intros q Hq. apply Hext, list_elem_of_further, Hq.
Qed.

(** One pass of the refresh loop, iteration by iteration: what each
    iteration found, asked and left behind. *)
Lemma refreshLoop_steps (dmls : list nat) :
  forall (ds : list DML) (c : gmap string tableInfo) (h : gmap nat DML) (s : World),
  NoDup dmls ->
  Forall2 (fun p d => h !! p = Some d) dmls ds ->
  exists steps h' c' s' t,
    run w (refreshLoop dmls c h) s = (Done (h', c'), s')
    /\ trace s' = trace s ++ t
    /\ c ⊆ c'
    /\ length steps = length ds
    /\ refresh_requests t = step_requests ds steps
    /\ (forall k p d st,
          dmls !! k = Some p -> ds !! k = Some d -> steps !! k = Some st ->
          h' !! p = Some (after_step d st)
          /\ forall fresh, step_info st = Some fresh ->
                           c' !! DML_TableName d = Some fresh)
    /\ (forall p, p ∉ dmls -> h' !! p = h !! p)
    /\ (forall k d fresh,
          ds !! k = Some d -> steps !! k = Some (Cached fresh) ->
          c !! DML_TableName d = Some fresh
          \/ exists j dj,
               (j < k)%nat /\ ds !! j = Some dj
               /\ DML_TableName dj = DML_TableName d
               /\ steps !! j = Some (Fetched fresh))
    /\ (forall k d st,
          ds !! k = Some d -> steps !! k = Some st -> asked st = true ->
          c !! DML_TableName d = None
          /\ forall j dj fresh,
               (j < k)%nat -> ds !! j = Some dj ->
               DML_TableName dj = DML_TableName d ->
               steps !! j <> Some (Fetched fresh)).
Proof.
  induction dmls as [| p rest IH]; intros ds c h s Hnd Hb.
  - apply Forall2_nil_inv_l in Hb as ->.
    exists [], h, c, s, []. cbn. rewrite app_nil_r.
    split; [reflexivity |]. split; [reflexivity |]. split; [reflexivity |].
    split; [reflexivity |]. split; [reflexivity |].
    split; [intros k p d st Hk; discriminate |].
    split; [reflexivity |].
    split; intros k d; discriminate.
  - apply Forall2_cons_inv_l in Hb as (d & ds' & Hd & Hb & ->).
    apply NoDup_cons in Hnd as [Hp Hnd].
    assert (Hstep : forall st c1 h1 s1 t0,
      trace s1 = trace s ++ t0 ->
      refresh_requests t0 = option_list (step_request d st) ->
      (forall q, q ≠ p -> h1 !! q = h !! q) ->
      h1 !! p = Some (after_step d st) ->
      c1 = match st with
           | Fetched fresh => <[DML_TableName d := fresh]> c
           | _ => c
           end ->
      match st with
      | Cached fresh => c !! DML_TableName d = Some fresh
      | _ => c !! DML_TableName d = None
      end ->
      exists steps h' c' s' t,
        run w (refreshLoop rest c1 h1) s1 = (Done (h', c'), s')
        /\ trace s' = trace s ++ t
        /\ c ⊆ c'
        /\ length steps = length (d :: ds')
        /\ refresh_requests t = step_requests (d :: ds') steps
        /\ (forall k q dq stq,
              (p :: rest) !! k = Some q -> (d :: ds') !! k = Some dq ->
              steps !! k = Some stq ->
              h' !! q = Some (after_step dq stq)
              /\ forall fresh, step_info stq = Some fresh ->
                               c' !! DML_TableName dq = Some fresh)
        /\ (forall q, q ∉ p :: rest -> h' !! q = h !! q)
        /\ (forall k dq fresh,
              (d :: ds') !! k = Some dq -> steps !! k = Some (Cached fresh) ->
              c !! DML_TableName dq = Some fresh
              \/ exists j dj,
                   (j < k)%nat /\ (d :: ds') !! j = Some dj
                   /\ DML_TableName dj = DML_TableName dq
                   /\ steps !! j = Some (Fetched fresh))
        /\ (forall k dq stq,
              (d :: ds') !! k = Some dq -> steps !! k = Some stq -> asked stq = true ->
              c !! DML_TableName dq = None
              /\ forall j dj fresh,
                   (j < k)%nat -> (d :: ds') !! j = Some dj ->
                   DML_TableName dj = DML_TableName dq ->
                   steps !! j <> Some (Fetched fresh))).
    { intros st c1 h1 s1 t0 Ht0 Hreq Hframe Hhead Hc1 Hdisc.
      assert (Hsub1 : c ⊆ c1).
      { subst c1. destruct st; try reflexivity. apply insert_subseteq, Hdisc. }
      assert (Hown : forall fresh, step_info st = Some fresh ->
                                   c1 !! DML_TableName d = Some fresh).
      { intros fresh Hf. subst c1. destruct st; cbn in Hf; try discriminate;
          injection Hf as ->; [exact Hdisc | apply lookup_insert_eq]. }
      assert (Hrest : forall q, q ∈ rest -> h1 !! q = h !! q).
      { intros q Hq. apply Hframe. intros ->. contradiction. }
      destruct (IH ds' c1 h1 s1 Hnd (bound_ext h1 h rest ds' Hb Hrest))
        as (steps' & h' & c' & s' & t' & Er & Et & Hsub & Hlen & Hreq' & Hpos
            & Hframe' & Hcached & Hasked).
      exists (st :: steps'), h', c', s', (t0 ++ t').
      split; [exact Er |]. split; [rewrite Et, Ht0, <- app_assoc; reflexivity |].
      split; [etransitivity; eassumption |].
      split; [cbn [length]; rewrite Hlen; reflexivity |].
      split.
      { rewrite refresh_requests_app, Hreq, Hreq'. unfold step_requests. cbn.
        destruct (step_request d st); reflexivity. }
      split.
      { intros [| k] q dq stq Hq Hdq Hst; cbn in Hq, Hdq, Hst.
        - injection Hq as <-. injection Hdq as <-. injection Hst as <-.
          split; [rewrite (Hframe' p Hp); exact Hhead |].
          intros fresh Hf. eapply lookup_weaken; [apply Hown, Hf | exact Hsub].
        - eapply Hpos; eassumption. }
      split.
      { intros q Hq. apply not_elem_of_cons in Hq as [Hne Hq].
        rewrite (Hframe' q Hq). apply Hframe, Hne. }
      split.
      { intros [| k] dq fresh Hdq Hst; cbn in Hdq, Hst.
        - injection Hdq as <-. injection Hst as ->. left. exact Hdisc.
        - destruct (Hcached k dq fresh Hdq Hst) as [Hin | (j & dj & Hj & Hdj & Hn & Hsj)].
          + subst c1. destruct st as [f0 | f0 | e0]; [left; exact Hin | | left; exact Hin].
            destruct (decide (DML_TableName d = DML_TableName dq)) as [Heq | Hne].
            * rewrite Heq, lookup_insert_eq in Hin. injection Hin as ->.
              right. exists 0%nat, d. split; [lia |]. split; [reflexivity |].
              split; [exact Heq | reflexivity].
            * rewrite lookup_insert_ne in Hin by exact Hne. left. exact Hin.
          + right. exists (S j), dj. split; [lia |]. split; [exact Hdj |].
            split; [exact Hn | exact Hsj]. }
      intros [| k] dq stq Hdq Hst Hask; cbn in Hdq, Hst.
      - injection Hdq as <-. injection Hst as <-.
        split; [destruct st; [discriminate | exact Hdisc | exact Hdisc] |].
        intros j dj fresh Hj. lia.
      - destruct (Hasked k dq stq Hdq Hst Hask) as [Hnone Hprev].
        split; [eapply lookup_weaken_None; eassumption |].
        intros [| j] dj fresh Hj Hdj Hn; cbn in Hdj |- *.
        + injection Hdj as <-. intros [= ->].
          rewrite <- Hn, (Hown fresh eq_refl) in Hnone. discriminate.
        + apply (Hprev j dj fresh); [lia | exact Hdj | exact Hn]. }
    cbn [refreshLoop]. rewrite Hd.
    destruct (c !! DML_TableName d) as [fresh |] eqn:Ec.
    + rewrite run_bind.
      destruct (run_rebind_requests p fresh d h s) as (s1 & t0 & Er & Et & Hno). rewrite Er.
      apply (Hstep (Cached fresh) c _ s1 t0 Et).
      * exact Hno.
      * intros q Hq. apply lookup_insert_ne. congruence.
      * apply lookup_insert_eq.
      * reflexivity.
      * reflexivity.
    + cbn [bind call run perform fst snd].
      destruct (w _ (trace s) (ORefresh (Database d) (Table d))) as [fresh | err] eqn:Ew.
      * rewrite run_bind.
        destruct (run_rebind_requests p fresh d h
                    {| trace := trace s ++ [Ev (ORefresh (Database d) (Table d)) (inl fresh)];
                       Index := Index s |}) as (s1 & t0 & Er & Et & Hno).
        rewrite Er. cbn [trace] in Et. rewrite <- app_assoc in Et.
        apply (Hstep (Fetched fresh) (<[DML_TableName d := fresh]> c) _ s1 _ Et).
        -- rewrite refresh_requests_app, Hno. reflexivity.
        -- intros q Hq. apply lookup_insert_ne. congruence.
        -- apply lookup_insert_eq.
        -- reflexivity.
        -- reflexivity.
      * cbn [bind logf call run perform fst snd trace Index].
        eapply (Hstep (Failed err) c h);
          [cbn [trace]; rewrite <- app_assoc; reflexivity | ..].
        -- reflexivity.
        -- reflexivity.
        -- exact Hd.
        -- reflexivity.
        -- reflexivity.
Qed.

End Refresh.

Section RefreshAttempt.

Context {pkg : Package}.

Lemma load_bound (h : gmap nat DML) (dmls : list nat) (ds : list DML) :
  load h dmls = Some ds -> forall p, p ∈ dmls -> is_Some (h !! p).
Proof.
  unfold load. intros Hl p Hp. apply mapM_Some in Hl.
  apply list_elem_of_lookup in Hp as [k Hk].
  destruct (Forall2_lookup_l _ _ _ _ _ Hl Hk) as (d & _ & Hd). eauto.
Qed.

(** C5, as the code has it.  After an attempt that failed with the
    missing-column code, with a callback configured and a batch of distinct
    DMLs, the attempt returns the error of the failed execution, and the
    batch has been walked in order, one step per DML.  A step finds the info
    under the DML's table name only if an earlier step fetched it for that
    name; otherwise it calls the callback, with the DML's database and
    table, once: the calls of the trace are exactly those of the steps that
    asked, in order.  A DML whose step found or fetched an info is bound to
    it, its values pruned first when the number of columns differs, and that
    info is the one cached under its table name; a DML whose call failed is
    left as it was; a DML outside the batch is untouched.  Each successful
    call caches one more table name of the batch, so when no call fails the
    callback is called once per distinct table name. *)
Theorem schema_refresh_after_failed_attempt (w : Downstream) (e : executor)
    (safeMode : bool) (dmls : list nat) (h : gmap nat DML) (ds : list DML)
    (err : error) (s s1 : World) :
  NoDup dmls ->
  load h dmls = Some ds ->
  run w (singleExec e ds safeMode) s = (Done (Some err), s1) ->
  tryRefreshTableErr err = true ->
  refreshTableInfo e = true ->
  exists h' (c' : gmap string tableInfo) t (steps : list refreshStep),
    (run w (singleExecAttempt e safeMode dmls h) s).1 = Done (h', Some err)
    /\ trace (run w (singleExecAttempt e safeMode dmls h) s).2 = trace s1 ++ t
    /\ length (refresh_successes t) = size c'
    /\ dom c' ⊆ batch_names h dmls
    /\ (length (refresh_calls t) <= length dmls)%nat
    /\ (length (refresh_successes t) = length (refresh_calls t) ->
        length (refresh_calls t) = size (batch_names h dmls))
    /\ length steps = length dmls
    /\ refresh_requests t = step_requests ds steps
    /\ (forall k p d st,
          dmls !! k = Some p -> ds !! k = Some d -> steps !! k = Some st ->
          h' !! p = Some (after_step d st)
          /\ forall fresh, step_info st = Some fresh ->
                           c' !! DML_TableName d = Some fresh)
    /\ (forall k d fresh,
          ds !! k = Some d -> steps !! k = Some (Cached fresh) ->
          exists j dj,
            (j < k)%nat /\ ds !! j = Some dj
            /\ DML_TableName dj = DML_TableName d
            /\ steps !! j = Some (Fetched fresh))
    /\ (forall k d st,
          ds !! k = Some d -> steps !! k = Some st -> asked st = true ->
          forall j dj fresh,
            (j < k)%nat -> ds !! j = Some dj ->
            DML_TableName dj = DML_TableName d ->
            steps !! j <> Some (Fetched fresh))
    /\ (forall p, p ∉ dmls -> h' !! p = h !! p).
Proof.
  intros Hnd Hload Hexec Hcode Hcb.
  assert (Hb : Forall2 (fun p d => h !! p = Some d) dmls ds).
  { unfold load in Hload. apply mapM_Some in Hload. exact Hload. }
  unfold singleExecAttempt. rewrite Hload, run_bind, Hexec, Hcode, Hcb.
  cbn [andb bind logf call run perform fst snd].
  rewrite run_bind.
  destruct (refreshLoop_walk w dmls ∅ h
              {| trace := trace s1 ++ [Ev (OLog LInfo "try refresh table info")
                                          (w unit (trace s1) (OLog LInfo "try refresh table info"))];
                 Index := Index s1 |} Hnd (load_bound h dmls ds Hload))
    as (h' & c' & s' & t & Er & Et & _ & Hsz & Hdom & Hcalls & Hall & _ & Hframe).
  destruct (refreshLoop_steps w dmls ds ∅ h
              {| trace := trace s1 ++ [Ev (OLog LInfo "try refresh table info")
                                          (w unit (trace s1) (OLog LInfo "try refresh table info"))];
                 Index := Index s1 |} Hnd Hb)
    as (steps & h2 & c2 & s2 & t2 & Er2 & Et2 & _ & Hlen & Hreq & Hpos & _ & Hcached & Hasked).
  rewrite Er in Er2. injection Er2 as <- <- <-.
  rewrite Et in Et2. apply app_inv_head in Et2. subst t2.
  rewrite Er. cbn [run fst snd]. cbn [trace] in Et.
  rewrite map_size_empty in Hsz. rewrite dom_empty_L in Hdom.
  assert (Hdom' : dom c' ⊆ batch_names h dmls) by set_solver.
  exists h', c', (Ev (OLog LInfo "try refresh table info")
                    (w unit (trace s1) (OLog LInfo "try refresh table info")) :: t), steps.
  split; [reflexivity |]. split; [rewrite Et, <- app_assoc; reflexivity |].
  change (Ev (OLog LInfo "try refresh table info") ?u :: t)
    with ([Ev (OLog LInfo "try refresh table info") u] ++ t).
  rewrite refresh_successes_app, refresh_calls_app, refresh_requests_app. cbn [app length].
  change (refresh_successes [Ev (OLog LInfo "try refresh table info") ?u]) with (@nil tableInfo).
  change (refresh_calls [Ev (OLog LInfo "try refresh table info") ?u])
    with (@nil (tableInfo + error)).
  change (refresh_requests [Ev (OLog LInfo "try refresh table info") ?u])
    with (@nil (string * string * (tableInfo + error))).
  cbn [app].
  split; [lia |]. split; [exact Hdom' |]. split; [exact Hcalls |].
  split.
  { intros Heq. transitivity (size c'); [lia |].
    rewrite <- size_dom. f_equal. apply (anti_symm (⊆)); [exact Hdom' | apply Hall, Heq]. }
  split; [rewrite Hlen; symmetry; eapply Forall2_length, Hb |].
  split; [exact Hreq |]. split; [exact Hpos |].
  split.
  { intros k d fresh Hd Hst.
    destruct (Hcached k d fresh Hd Hst) as [Hin | Hex]; [| exact Hex].
    rewrite lookup_empty in Hin. discriminate. }
  split; [| exact Hframe].
  intros k d st Hd Hst Hask. apply (Hasked k d st Hd Hst Hask).
Qed.

End RefreshAttempt.

(** Two inserts into [users]; every statement is rejected for an unknown
    column, the callback fails once and then answers. *)
Lemma schema_refresh_after_failed_attempt_witness :
  NoDup [0%nat; 1%nat]
  /\ load twoUsers [0%nat; 1%nat]
     = Some [row InsertDMLType 1 "ann"; row InsertDMLType 2 "bob"]
  /\ run flakyRefresh
       (singleExec (pkg := demoPackage) refreshingExecutor
          [row InsertDMLType 1 "ann"; row InsertDMLType 2 "bob"] true) world0
     = (Done (Some unknownColumn), rejectedWorld)
  /\ tryRefreshTableErr (pkg := demoPackage) unknownColumn = true
  /\ refreshTableInfo refreshingExecutor = true
  /\ exists h' (c' : gmap string tableInfo) t (steps : list refreshStep),
       (run flakyRefresh
          (singleExecAttempt (pkg := demoPackage) refreshingExecutor true
             [0%nat; 1%nat] twoUsers) world0).1 = Done (h', Some unknownColumn)
       /\ trace (run flakyRefresh
                   (singleExecAttempt (pkg := demoPackage) refreshingExecutor true
                      [0%nat; 1%nat] twoUsers) world0).2 = trace rejectedWorld ++ t
       /\ length (refresh_successes t) = size c'
       /\ dom c' ⊆ batch_names (pkg := demoPackage) twoUsers [0%nat; 1%nat]
       /\ (length (refresh_calls t) <= length [0%nat; 1%nat])%nat
       /\ (length (refresh_successes t) = length (refresh_calls t) ->
           length (refresh_calls t)
           = size (batch_names (pkg := demoPackage) twoUsers [0%nat; 1%nat]))
       /\ length steps = length [0%nat; 1%nat]
       /\ refresh_requests t
          = step_requests [row InsertDMLType 1 "ann"; row InsertDMLType 2 "bob"] steps
       /\ (forall k p d st,
             [0%nat; 1%nat] !! k = Some p ->
             [row InsertDMLType 1 "ann"; row InsertDMLType 2 "bob"] !! k = Some d ->
             steps !! k = Some st ->
             h' !! p = Some (after_step (pkg := demoPackage) d st)
             /\ forall fresh, step_info st = Some fresh ->
                  c' !! DML_TableName (Package := demoPackage) d = Some fresh)
       /\ (forall k d fresh,
             [row InsertDMLType 1 "ann"; row InsertDMLType 2 "bob"] !! k = Some d ->
             steps !! k = Some (Cached fresh) ->
             exists j dj,
               (j < k)%nat
               /\ [row InsertDMLType 1 "ann"; row InsertDMLType 2 "bob"] !! j = Some dj
               /\ DML_TableName (Package := demoPackage) dj
                  = DML_TableName (Package := demoPackage) d
               /\ steps !! j = Some (Fetched fresh))
       /\ (forall k d st,
             [row InsertDMLType 1 "ann"; row InsertDMLType 2 "bob"] !! k = Some d ->
             steps !! k = Some st -> asked st = true ->
             forall j dj fresh,
               (j < k)%nat ->
               [row InsertDMLType 1 "ann"; row InsertDMLType 2 "bob"] !! j = Some dj ->
               DML_TableName (Package := demoPackage) dj
               = DML_TableName (Package := demoPackage) d ->
               steps !! j <> Some (Fetched fresh))
       /\ (forall p, p ∉ [0%nat; 1%nat] -> h' !! p = twoUsers !! p).
Proof.
  assert (H1 : NoDup [0%nat; 1%nat]).
  { apply NoDup_cons. split; [| apply NoDup_singleton].
    intros Hin. apply list_elem_of_singleton in Hin. discriminate. }
  assert (H2 : load twoUsers [0%nat; 1%nat]
               = Some [row InsertDMLType 1 "ann"; row InsertDMLType 2 "bob"])
    by (vm_compute; reflexivity).
  assert (H3 : run flakyRefresh
                 (singleExec (pkg := demoPackage) refreshingExecutor
                    [row InsertDMLType 1 "ann"; row InsertDMLType 2 "bob"] true) world0
               = (Done (Some unknownColumn), rejectedWorld))
    by (vm_compute; reflexivity).
  split; [exact H1 |]. split; [exact H2 |]. split; [exact H3 |].
  split; [reflexivity |]. split; [reflexivity |].
  exact (schema_refresh_after_failed_attempt (pkg := demoPackage) flakyRefresh
           refreshingExecutor true [0%nat; 1%nat] twoUsers _ unknownColumn world0
           rejectedWorld H1 H2 H3 eq_refl eq_refl).
Defined.

(** The same run, against the claim as it is worded: the batch has one
    table name and the callback is called twice; the cached columns of the
    second DML differ from the fresh ones, its info is rebound, and the
    column [name], which the fresh list does not have, stays in its values. *)
Lemma schema_refresh_counterexample :
  tryRefreshTableErr (pkg := demoPackage) unknownColumn = true
  /\ refreshTableInfo refreshingExecutor = true
  /\ (run flakyRefresh
        (singleExecAttempt (pkg := demoPackage) refreshingExecutor true
           [0%nat; 1%nat] twoUsers) world0).1
     = Done (<[1%nat := set_info renamed (row InsertDMLType 2 "bob")]> twoUsers,
             Some unknownColumn)
  /\ size (batch_names (pkg := demoPackage) twoUsers [0%nat; 1%nat]) = 1%nat
  /\ length (refresh_calls
               (trace (run flakyRefresh
                         (singleExecAttempt (pkg := demoPackage) refreshingExecutor true
                            [0%nat; 1%nat] twoUsers) world0).2)) = 2%nat
  /\ columns (info (row InsertDMLType 2 "bob")) <> columns renamed
  /\ Values (set_info renamed (row InsertDMLType 2 "bob")) !! "name" = Some (VString "bob")
  /\ "name" ∉ columns renamed.
Proof.
  split; [reflexivity |]. split; [reflexivity |].
  split; [vm_compute; reflexivity |]. split; [vm_compute; reflexivity |].
  split; [vm_compute; reflexivity |]. split; [discriminate |].
  split; [vm_compute; reflexivity |].
  intros Hin. apply elem_of_cons in Hin as [Hin | Hin]; [discriminate |].
  apply list_elem_of_singleton in Hin. discriminate.
Qed.

(** * Further properties of the plugin *)

Section FilterSound.

Variable EqualFold : string -> string -> bool.
Variable Sprintf_count : nat -> string.
Variable Sprintf_dml : nat -> option DML -> string.

Context {H : Type}.

Lemma findLoopBackMark_loop_result (w : Downstream) (all rest : list nat)
    (i : LoopBackSync H) (h : gmap nat DML) (s s' : World) (found : bool)
    (err : option error) :
  run w (Plugin.findLoopBackMark_loop EqualFold Sprintf_count Sprintf_dml all rest i h) s
  = (Done (found, err), s') ->
  err = None /\ (found = false -> off_mark EqualFold i h rest).
Proof.
  induction rest as [| p rest IH]; cbn [Plugin.findLoopBackMark_loop].
  - intros [= <- <- <-]. split; [reflexivity |]. intros _ p Hp.
    apply elem_of_nil in Hp. contradiction.
  - destruct (h !! p) as [d |] eqn:Hd; [| discriminate].
    destruct (EqualFold (Table d) (MarkTableName i)) eqn:Ed.
    + cbn. intros [= <- <- <-]. split; [reflexivity | discriminate].
    + intros Hrun. destruct (IH Hrun) as [He Hoff]. split; [exact He |].
      intros Hf q Hq. apply elem_of_cons in Hq as [-> | Hq].
      * exists d. split; assumption.
      * apply Hoff; assumption.
Qed.

Lemma checkMigrationIPs_done (w : Downstream) (t : Plugin.Txn) (ips : list string)
    (s s' : World) (u : unit) :
  run w (Plugin.checkMigrationIPs EqualFold t ips) s = (Done u, s') ->
  s' = s /\ Forall (fun ip => EqualFold (Plugin.Ip t) ip = false) ips.
Proof.
  induction ips as [| ip ips IH]; cbn [Plugin.checkMigrationIPs].
  - intros [= <- <-]. split; [reflexivity | constructor].
  - destruct (EqualFold (Plugin.Ip t) ip) eqn:Eip.
    + destruct (Plugin.Metadata t); cbn; discriminate.
    + intros Hrun. destruct (IH Hrun) as [-> Hips]. split; [reflexivity |].
      constructor; assumption.
Qed.

Lemma clearDatabases_done (w : Downstream) (ps : list nat) (h h' : gmap nat DML)
    (s s' : World) :
  run w (Plugin.clearDatabases ps h) s = (Done h', s') -> s' = s.
Proof.
  revert h. induction ps as [| p ps IH]; intros h; cbn [Plugin.clearDatabases].
  - intros [= <- <-]. reflexivity.
  - destruct (h !! p); [apply IH | discriminate].
Qed.

(** Whenever [FilterTxn] returns, its error is nil; the transaction objects
    are as before; a returned pointer is the one passed in; and when it
    returns a nil transaction the store is unchanged. *)
Theorem FilterTxn_returns_no_error (w : Downstream) (txn r : option nat)
    (i : option (LoopBackSync H)) (err : option error) (σ σ' : Plugin.Store)
    (s s' : World) :
  run w (Plugin.FilterTxn EqualFold Sprintf_count Sprintf_dml txn i σ) s
  = (Done (r, err, σ'), s') ->
  err = None
  /\ Plugin.txns σ' = Plugin.txns σ
  /\ (forall a, r = Some a -> txn = Some a)
  /\ (r = None -> σ' = σ).
Proof.
  unfold Plugin.FilterTxn, Plugin.findLoopBackMark.
  destruct txn as [a |], i as [i |]; try (intros [= <- <- <-]; repeat split; discriminate).
  destruct (Plugin.txns σ !! a) as [t |]; [| discriminate].
  destruct (Plugin.TxnDDL t).
  { cbn. intros [= <- <- <-]. repeat split; discriminate. }
  rewrite run_bind.
  destruct (run w (Plugin.findLoopBackMark_loop _ _ _ _ _ _ _) s)
    as [[[found ferr] | c] s1] eqn:Ef; [| discriminate].
  destruct (findLoopBackMark_loop_result _ _ _ _ _ _ _ _ _ Ef) as [-> _].
  cbn [fst snd]. destruct found.
  { intros [= <- <- <-]. repeat split; discriminate. }
  rewrite run_bind.
  destruct (run w (Plugin.checkMigrationIPs EqualFold t (MigrationIPs i)) s1)
    as [[[] | c] s2]; [| discriminate].
  rewrite run_bind.
  destruct (run w (Plugin.clearDatabases (Plugin.DMLs t) (Plugin.dmls σ)) s2)
    as [[h' | c] s3]; [| discriminate].
  intros [= <- <- <-]. repeat split; try discriminate.
  intros a' [= <-]. reflexivity.
Qed.

(** What [FilterTxn] lets through is clean: a transaction it returns has no
    DDL, no DML on the mark table, and an origin that matches no migration
    IP. *)
Theorem FilterTxn_passes_only_clean (w : Downstream) (a a' : nat) (t : Plugin.Txn)
    (i : LoopBackSync H) (err : option error) (σ σ' : Plugin.Store) (s s' : World) :
  Plugin.txns σ !! a = Some t ->
  run w (Plugin.FilterTxn EqualFold Sprintf_count Sprintf_dml (Some a) (Some i) σ) s
  = (Done (Some a', err, σ'), s') ->
  Plugin.TxnDDL t = None
  /\ off_mark EqualFold i (Plugin.dmls σ) (Plugin.DMLs t)
  /\ Forall (fun ip => EqualFold (Plugin.Ip t) ip = false) (MigrationIPs i)
  /\ s' = s.
Proof.
  intros Ht. unfold Plugin.FilterTxn, Plugin.findLoopBackMark. rewrite Ht.
  destruct (Plugin.TxnDDL t); [cbn; discriminate |].
  rewrite run_bind.
  destruct (run w (Plugin.findLoopBackMark_loop _ _ _ _ _ _ _) s)
    as [[[found ferr] | c] s1] eqn:Ef; [| discriminate].
  destruct (findLoopBackMark_loop_result _ _ _ _ _ _ _ _ _ Ef) as [-> Hoff].
  cbn [fst snd]. destruct found; [discriminate |].
  assert (Hs1 : s1 = s).
  { revert Ef. rewrite (findLoopBackMark_loop_none _ _ _ _ _ _ _ (Hoff eq_refl)).
    intros [= <-]. reflexivity. }
  subst s1. rewrite run_bind.
  destruct (run w (Plugin.checkMigrationIPs EqualFold t (MigrationIPs i)) s)
    as [[[] | c] s2] eqn:Ec; [| discriminate].
  destruct (checkMigrationIPs_done _ _ _ _ _ _ Ec) as [-> Hips].
  rewrite run_bind.
  destruct (run w (Plugin.clearDatabases (Plugin.DMLs t) (Plugin.dmls σ)) s)
    as [[h' | c] s3] eqn:Ecl; [| discriminate].
  apply clearDatabases_done in Ecl as ->.
  intros [= <- <- <-]. auto.
Qed.

End FilterSound.

Lemma FilterTxn_returns_no_error_witness :
  run healthy
    (Plugin.FilterTxn String.eqb (fun _ => "") (fun _ _ => "")
       (Some 0%nat) (Some peerInfo) ordersStore) world0
  = (Done (Some 0%nat, None, clearedStore), world0)
  /\ @None error = None
  /\ Plugin.txns clearedStore = Plugin.txns ordersStore
  /\ (forall a, Some 0%nat = Some a -> Some 0%nat = Some a)
  /\ (Some 0%nat = None -> clearedStore = ordersStore).
Proof.
  assert (Hrun : run healthy
                   (Plugin.FilterTxn String.eqb (fun _ => "") (fun _ _ => "")
                      (Some 0%nat) (Some peerInfo) ordersStore) world0
                 = (Done (Some 0%nat, None, clearedStore), world0))
    by (vm_compute; reflexivity).
  split; [exact Hrun |].
  exact (FilterTxn_returns_no_error String.eqb (fun _ => "") (fun _ _ => "") healthy
           (Some 0%nat) (Some 0%nat) (Some peerInfo) None ordersStore clearedStore
           world0 world0 Hrun).
Defined.

Lemma FilterTxn_passes_only_clean_witness :
  Plugin.txns ordersStore !! 0%nat = Some orders
  /\ run healthy
       (Plugin.FilterTxn String.eqb (fun _ => "") (fun _ _ => "")
          (Some 0%nat) (Some peerInfo) ordersStore) world0
     = (Done (Some 0%nat, None, clearedStore), world0)
  /\ Plugin.TxnDDL orders = None
  /\ off_mark String.eqb peerInfo (Plugin.dmls ordersStore) (Plugin.DMLs orders)
  /\ Forall (fun ip => String.eqb (Plugin.Ip orders) ip = false) (MigrationIPs peerInfo)
  /\ world0 = world0.
Proof.
  assert (Hrun : run healthy
                   (Plugin.FilterTxn String.eqb (fun _ => "") (fun _ _ => "")
                      (Some 0%nat) (Some peerInfo) ordersStore) world0
                 = (Done (Some 0%nat, None, clearedStore), world0))
    by (vm_compute; reflexivity).
  split; [reflexivity |]. split; [exact Hrun |].
  exact (FilterTxn_passes_only_clean String.eqb (fun _ => "") (fun _ _ => "") healthy
           0%nat 0%nat orders peerInfo None ordersStore clearedStore world0 world0
           eq_refl Hrun).
Defined.

Section FilterFatal.

Variable EqualFold : string -> string -> bool.
Variable Sprintf_count : nat -> string.
Variable Sprintf_dml : nat -> option DML -> string.

Context {H : Type}.

Lemma checkMigrationIPs_match (w : Downstream) (t : Plugin.Txn) (ips : list string)
    (s : World) :
  Exists (fun ip => EqualFold (Plugin.Ip t) ip = true) ips ->
  exists c s',
    run w (Plugin.checkMigrationIPs EqualFold t ips) s = (Panicked c, s')
    /\ match Plugin.Metadata t with
       | Plugin.MetaItem _ =>
           c = OsExit /\ exists ev, trace s' = trace s ++ [ev] /\ is_fatal_log ev = true
       | Plugin.MetaOther => c = TypeAssertion /\ s' = s
       end.
Proof.
  induction ips as [| ip ips IH]; intros Hex; [inversion Hex |].
  cbn [Plugin.checkMigrationIPs].
  destruct (EqualFold (Plugin.Ip t) ip) eqn:Eip.
  - destruct (Plugin.Metadata t); cbn.
    + eexists _, _. split; [reflexivity |]. split; [reflexivity |].
      eexists. split; reflexivity.
    + eexists _, _. split; [reflexivity |]. split; reflexivity.
  - apply IH. apply Exists_cons in Hex as [Hh | Ht]; [congruence | exact Ht].
Qed.

(** A transaction without DDL and without mark-table DML whose origin
    matches a migration IP never comes back from [FilterTxn]: the process
    exits after the fatal log when [Metadata] holds an item, and panics on
    the type assertion, before any log, when it does not. *)
Theorem FilterTxn_cyclic_is_fatal (w : Downstream) (a : nat) (t : Plugin.Txn)
    (i : LoopBackSync H) (σ : Plugin.Store) (s : World) :
  Plugin.txns σ !! a = Some t ->
  Plugin.TxnDDL t = None ->
  off_mark EqualFold i (Plugin.dmls σ) (Plugin.DMLs t) ->
  Exists (fun ip => EqualFold (Plugin.Ip t) ip = true) (MigrationIPs i) ->
  exists c s',
    run w (Plugin.FilterTxn EqualFold Sprintf_count Sprintf_dml (Some a) (Some i) σ) s
    = (Panicked c, s')
    /\ match Plugin.Metadata t with
       | Plugin.MetaItem _ =>
           c = OsExit /\ exists ev, trace s' = trace s ++ [ev] /\ is_fatal_log ev = true
       | Plugin.MetaOther => c = TypeAssertion /\ s' = s
       end.
Proof.
  intros Ht Hddl Hoff Hex. unfold Plugin.FilterTxn, Plugin.findLoopBackMark.
  rewrite Ht, Hddl, (findLoopBackMark_loop_none _ _ _ _ _ _ _ Hoff).
  cbn [bind fst snd].
  destruct (checkMigrationIPs_match w t (MigrationIPs i) s Hex) as (c & s' & Er & Hc).
  exists c, s'. split; [| exact Hc].
  rewrite run_bind, Er. reflexivity.
Qed.

End FilterFatal.

Lemma FilterTxn_cyclic_is_fatal_witness :
  Plugin.txns ordersStore !! 0%nat = Some orders
  /\ Plugin.TxnDDL orders = None
  /\ off_mark String.eqb cyclicInfo (Plugin.dmls ordersStore) (Plugin.DMLs orders)
  /\ Exists (fun ip => String.eqb (Plugin.Ip orders) ip = true) (MigrationIPs cyclicInfo)
  /\ exists c s',
       run healthy
         (Plugin.FilterTxn String.eqb (fun _ => "") (fun _ _ => "")
            (Some 0%nat) (Some cyclicInfo) ordersStore) world0
       = (Panicked c, s')
       /\ c = OsExit
       /\ exists ev, trace s' = trace world0 ++ [ev] /\ is_fatal_log ev = true.
Proof.
  assert (Ho : off_mark String.eqb cyclicInfo (Plugin.dmls ordersStore) (Plugin.DMLs orders)).
  { intros p Hp. apply elem_of_cons in Hp as [-> | Hp].
    - eexists. split; [vm_compute; reflexivity | reflexivity].
    - apply list_elem_of_singleton in Hp as ->.
      eexists. split; [vm_compute; reflexivity | reflexivity]. }
  assert (He : Exists (fun ip => String.eqb (Plugin.Ip orders) ip = true)
                 (MigrationIPs cyclicInfo)).
  { apply Exists_cons_tl, Exists_cons_hd. reflexivity. }
  split; [reflexivity |]. split; [reflexivity |]. split; [exact Ho |]. split; [exact He |].
  exact (FilterTxn_cyclic_is_fatal String.eqb (fun _ => "") (fun _ _ => "") healthy
           0%nat orders cyclicInfo ordersStore world0 eq_refl eq_refl Ho He).
Defined.

(** ** [ExtendTxn] and the mark rows *)

Section ExtendTxnFacts.

Context {H : Type}.

Lemma last_flag_snoc (tx : Tx) (t : list event) (b : bool) (u : unit) :
  last_flag tx (t ++ [Ev (OSetProtocolFlag tx b) u]) = Some b.
Proof.
  unfold last_flag. rewrite omap_app. cbn.
  destruct (decide (tx = tx)); [| contradiction]. apply last_snoc.
Qed.

(** With a transaction and an info, and a non-zero [RecordID], [ExtendTxn]
    always returns; it increments [Index] once and sends one statement, the
    update of row [Index % RecordID].  When it returns nil the protocol flag
    of the transaction is left set and the transaction was not rolled back;
    when it returns an error the flag is left cleared and the transaction
    was rolled back. *)
Theorem ExtendTxn_outcome (w : Downstream) (tx : Tx) (i : LoopBackSync H) (s : World) :
  RecordID i <> 0 ->
  exists r t,
    run w (Plugin.ExtendTxn (Some tx) (Some i)) s
    = (Done r, {| trace := trace s ++ t; Index := wrap64 (Index s + 1) |})
    /\ statements_at SiteExtension t
       = [("update " +:+ MarkTableName i +:+ " set val=val+1 where id=? limit 1;",
           [VInt (Z.rem (wrap64 (Index s + 1)) (RecordID i))])]
    /\ (r = None ->
        last_flag tx t = Some true /\ Forall (fun ev => is_rollback tx ev = false) t)
    /\ (r <> None ->
        last_flag tx t = Some false /\ Exists (fun ev => is_rollback tx ev = true) t).
Proof.
  intros Hrec. unfold Plugin.ExtendTxn, Plugin.addIndex, Plugin.rollbackLogged.
  cbn [bind call run perform fst snd trace Index].
  destruct (decide (RecordID i = 0)) as [Hz | _]; [contradiction |].
  cbn [bind call run perform fst snd trace Index].
  set (id := Z.rem (wrap64 (Index s + 1)) (RecordID i)).
  set (q := "update " +:+ MarkTableName i +:+ " set " +:+ Plugin.Val +:+ "=" +:+ Plugin.Val
              +:+ "+1 where " +:+ Plugin.ID +:+ "=? limit 1;").
  assert (Hq : q = "update " +:+ MarkTableName i +:+ " set val=val+1 where id=? limit 1;").
  { reflexivity. }
  assert (Hflag : forall b, flag_event tx (Ev (OSetProtocolFlag tx b) tt) = Some b).
  { intros b. cbn. destruct (decide (tx = tx)); [reflexivity | contradiction]. }
  assert (Hrb : forall rr, is_rollback tx (Ev (ORollback tx) rr) = true).
  { intros rr. cbn. apply bool_decide_eq_true. reflexivity. }
  destruct (w unit (trace s) (OSetProtocolFlag tx true)).
  match goal with |- context [w (Result + error)%type ?tr (OExec SiteExtension tx q ?args)] =>
    destruct (w (Result + error)%type tr (OExec SiteExtension tx q args))
      as [[| n | rerr] | err] eqn:Er end.
  - (* nil result *)
    cbn [bind run]. rewrite <- !app_assoc. cbn [app]. eexists _, _.
    split; [reflexivity |]. split; [cbn; rewrite Hq; reflexivity |].
    split; [| congruence]. intros _. split.
    + unfold last_flag. cbn. destruct (decide (tx = tx)); [reflexivity | contradiction].
    + repeat constructor.
  - destruct (decide (n = 0)) as [-> | Hn].
    + cbn [bind logf call run perform fst snd trace Index].
      repeat match goal with |- context [w unit ?tr ?o] => destruct (w unit tr o) end.
      match goal with |- context [w (option error) ?tr (ORollback tx)] =>
        destruct (w (option error) tr (ORollback tx)) as [rerr |] eqn:Erb end;
        cbn [bind logf call run perform fst snd trace Index];
        repeat match goal with |- context [w unit ?tr ?o] => destruct (w unit tr o) end;
        rewrite <- !app_assoc; cbn [app]; eexists _, _;
        (split; [reflexivity |]); (split; [cbn; rewrite Hq; reflexivity |]);
        (split; [discriminate |]); intros _; (split;
          [unfold last_flag; cbn; destruct (decide (tx = tx)); [reflexivity | contradiction]
          | do 5 apply Exists_cons_tl; apply Exists_cons_hd, Hrb]).
    + cbn [bind run]. rewrite <- !app_assoc. cbn [app]. eexists _, _.
      split; [reflexivity |]. split; [cbn; rewrite Hq; reflexivity |].
      split; [| congruence]. intros _. split.
      * unfold last_flag. cbn. destruct (decide (tx = tx)); [reflexivity | contradiction].
      * repeat constructor.
  - cbn [bind logf call run perform fst snd trace Index].
    repeat match goal with |- context [w unit ?tr ?o] => destruct (w unit tr o) end.
    match goal with |- context [w (option error) ?tr (ORollback tx)] =>
      destruct (w (option error) tr (ORollback tx)) as [rerr' |] eqn:Erb end;
      cbn [bind logf call run perform fst snd trace Index];
      repeat match goal with |- context [w unit ?tr ?o] => destruct (w unit tr o) end;
      rewrite <- !app_assoc; cbn [app]; eexists _, _;
      (split; [reflexivity |]); (split; [cbn; rewrite Hq; reflexivity |]);
      (split; [discriminate |]); intros _; (split;
        [unfold last_flag; cbn; destruct (decide (tx = tx)); [reflexivity | contradiction]
        | do 5 apply Exists_cons_tl; apply Exists_cons_hd, Hrb]).
  - cbn [bind logf call run perform fst snd trace Index].
    repeat match goal with |- context [w unit ?tr ?o] => destruct (w unit tr o) end.
    match goal with |- context [w (option error) ?tr (ORollback tx)] =>
      destruct (w (option error) tr (ORollback tx)) as [rerr' |] eqn:Erb end;
      cbn [bind logf call run perform fst snd trace Index];
      repeat match goal with |- context [w unit ?tr ?o] => destruct (w unit tr o) end;
      rewrite <- !app_assoc; cbn [app]; eexists _, _;
      (split; [reflexivity |]); (split; [cbn; rewrite Hq; reflexivity |]);
      (split; [discriminate |]); intros _; (split;
        [unfold last_flag; cbn; destruct (decide (tx = tx)); [reflexivity | contradiction]
        | do 4 apply Exists_cons_tl; apply Exists_cons_hd, Hrb]).
Qed.

End ExtendTxnFacts.

Lemma ExtendTxn_outcome_witness :
  RecordID plainInfo <> 0
  /\ exists r t,
       run extensionRowMissing (Plugin.ExtendTxn (Some 0%nat) (Some plainInfo)) world0
       = (Done r, {| trace := trace world0 ++ t; Index := wrap64 (Index world0 + 1) |})
       /\ statements_at SiteExtension t
          = [("update " +:+ MarkTableName plainInfo +:+ " set val=val+1 where id=? limit 1;",
              [VInt (Z.rem (wrap64 (Index world0 + 1)) (RecordID plainInfo))])]
       /\ (r = None ->
           last_flag 0%nat t = Some true
           /\ Forall (fun ev => is_rollback 0%nat ev = false) t)
       /\ (r <> None ->
           last_flag 0%nat t = Some false
           /\ Exists (fun ev => is_rollback 0%nat ev = true) t).
Proof.
  assert (Hrec : RecordID plainInfo <> 0) by discriminate.
  split; [exact Hrec |].
  exact (ExtendTxn_outcome extensionRowMissing 0%nat plainInfo world0 Hrec).
Defined.

Lemma foldl_append_concat {A B : Type} (f : B -> list A) (l : list B) (acc : list A) :
  foldl (fun args x => args ++ f x) acc l = acc ++ concat (f <$> l).
Proof.
  revert acc. induction l as [| x l IH]; intros acc; cbn.
  - rewrite app_nil_r. reflexivity.
  - rewrite IH, <- app_assoc. reflexivity.
Qed.

Lemma lookup_pairs {A B : Type} (g : B -> A) (c : A) (l : list B) (k : nat) (x : B) :
  l !! k = Some x ->
  concat ((fun y => [g y; c]) <$> l) !! (2 * k)%nat = Some (g x)
  /\ concat ((fun y => [g y; c]) <$> l) !! (2 * k + 1)%nat = Some c.
Proof.
  revert k. induction l as [| y l IH]; intros k Hk; [discriminate |].
  destruct k as [| k]; cbn in *.
  - injection Hk as ->. split; reflexivity.
  - replace (k + S (k + 0))%nat with (S (2 * k)) by lia.
    replace (S (2 * k) + 1)%nat with (S (2 * k + 1)) by lia.
    cbn. apply IH, Hk.
Qed.

(** The arguments [initMarkTableData] passes: row [k] gets the id [k] and
    the value 1, for every [k] below [rowNum], and there is nothing else. *)
Lemma initMarkTableArgs_rows (rowNum : Z) :
  length (initMarkTableArgs rowNum) = (2 * Z.to_nat rowNum)%nat
  /\ forall k, Z.of_nat k < rowNum ->
       initMarkTableArgs rowNum !! (2 * k)%nat = Some (VInt (Z.of_nat k))
       /\ initMarkTableArgs rowNum !! (2 * k + 1)%nat = Some (VInt 1).
Proof.
  unfold initMarkTableArgs. rewrite foldl_append_concat. cbn [app]. split.
  - rewrite <- (length_seqZ 0 rowNum).
    induction (seqZ 0 rowNum) as [| x l IH]; cbn; [reflexivity |]. rewrite IH. lia.
  - intros k Hk. apply (lookup_pairs VInt (VInt 1)).
    rewrite lookup_seqZ_lt by exact Hk. f_equal.
Qed.

Section MarkRows.

Context {H : Type}.

(** The row [ExtendTxn] updates has been seeded by [LoaderInit]: with
    [RecordID] positive and [Index] non-negative and below the last [int64],
    [addIndex] returns [(Index + 1) mod RecordID], which lies in
    [0, RecordID) and is the id [initMarkTableData] wrote at its position,
    with the value 1. *)
Theorem addIndex_row_is_seeded (w : Downstream) (i : LoopBackSync H) (s : World) :
  0 < RecordID i ->
  0 <= Index s < 2 ^ 63 - 1 ->
  exists id,
    (run w (Plugin.addIndex i) s).1 = Done id
    /\ id = (Index s + 1) `mod` RecordID i
    /\ 0 <= id < RecordID i
    /\ initMarkTableArgs (RecordID i) !! (2 * Z.to_nat id)%nat = Some (VInt id)
    /\ initMarkTableArgs (RecordID i) !! (2 * Z.to_nat id + 1)%nat = Some (VInt 1).
Proof.
  intros Hrec Hidx. unfold Plugin.addIndex.
  cbn [bind call run perform fst snd].
  destruct (decide (RecordID i = 0)) as [Hz | _]; [lia |]. cbn [bind run fst].
  assert (Hwrap : wrap64 (Index s + 1) = Index s + 1).
  { unfold wrap64. rewrite Z.mod_small; lia. }
  rewrite Hwrap, Z.rem_mod_nonneg by lia.
  pose proof (Z.mod_pos_bound (Index s + 1) (RecordID i) Hrec) as Hb.
  exists ((Index s + 1) `mod` RecordID i).
  split; [reflexivity |]. split; [reflexivity |]. split; [exact Hb |].
  destruct (initMarkTableArgs_rows (RecordID i)) as [_ Hrows].
  specialize (Hrows (Z.to_nat ((Index s + 1) `mod` RecordID i))).
  rewrite Z2Nat.id in Hrows by lia. apply Hrows. lia.
Qed.

End MarkRows.

Lemma addIndex_row_is_seeded_witness :
  0 < RecordID plainInfo
  /\ 0 <= Index world0 < 2 ^ 63 - 1
  /\ exists id,
       (run healthy (Plugin.addIndex plainInfo) world0).1 = Done id
       /\ id = (Index world0 + 1) `mod` RecordID plainInfo
       /\ 0 <= id < RecordID plainInfo
       /\ initMarkTableArgs (RecordID plainInfo) !! (2 * Z.to_nat id)%nat = Some (VInt id)
       /\ initMarkTableArgs (RecordID plainInfo) !! (2 * Z.to_nat id + 1)%nat
          = Some (VInt 1).
Proof.
  assert (H1 : 0 < RecordID plainInfo) by (cbn; lia).
  assert (H2 : 0 <= Index world0 < 2 ^ 63 - 1) by (cbn; lia).
  split; [exact H1 |]. split; [exact H2 |].
  exact (addIndex_row_is_seeded healthy plainInfo world0 H1 H2).
Defined.

(** * Further properties of the executor *)

Lemma emits_and {A : Type} (P Q : event -> Prop) (p : Prog A) :
  emits P p -> emits Q p -> emits (fun ev => P ev /\ Q ev) p.
Proof.
  induction p as [a | c | X o k IH]; simpl; auto.
  intros [HP HkP] [HQ HkQ]. split; auto.
Qed.

(** The counter moves only at [atomic.AddInt64]. *)
Lemma run_index_frame {A : Type} (w : Downstream) (p : Prog A) (s : World) :
  emits (fun ev => is_add_index ev = false) p -> Index (run w p s).2 = Index s.
Proof.
  revert s. induction p as [a | c | X o k IH]; intros s; simpl; auto.
  intros [Ho Hk]. destruct o; simpl in *;
    try (rewrite IH by apply Hk; reflexivity).
  specialize (Ho 0). discriminate.
Qed.

(** Two phases, one after the other, split the trace in two. *)
Lemma run_bind_phases {A B : Type} (P Q : event -> Prop) (w : Downstream)
    (p : Prog A) (f : A -> Prog B) (s : World) :
  emits P p -> (forall a, emits Q (f a)) ->
  exists t1 t2, trace (run w (bind p f) s).2 = trace s ++ t1 ++ t2
                /\ Forall P t1 /\ Forall Q t2.
Proof.
  intros Hp Hf. rewrite run_bind.
  destruct (run_emits P w p s Hp) as (t1 & E1 & F1).
  destruct (run w p s) as [[a | c] s1]; cbn [snd] in *.
  - destruct (run_emits Q w (f a) s1 (Hf a)) as (t2 & E2 & F2).
    exists t1, t2. rewrite E2, E1, <- app_assoc. auto.
  - exists t1, []. rewrite E1, app_nil_r. auto.
Qed.

(** In a trace made of two phases, what only the first can hold comes
    before what only the second can hold. *)
Lemma phases_ordered (A B : event -> Prop) (t1 t2 : list event) (i j : nat)
    (evi evj : event) :
  Forall (fun ev => ~ B ev) t1 -> Forall (fun ev => ~ A ev) t2 ->
  (t1 ++ t2) !! i = Some evi -> (t1 ++ t2) !! j = Some evj ->
  A evi -> B evj -> (i < j)%nat.
Proof.
  intros F1 F2 Hi Hj HA HB.
  destruct (decide (i < length t1)%nat) as [Hlt | Hge].
  - destruct (decide (j < length t1)%nat) as [Hjlt | Hjge]; [| lia].
    rewrite lookup_app_l in Hj by exact Hjlt.
    exfalso. exact (Forall_lookup_1 _ _ _ _ F1 Hj HB).
  - rewrite lookup_app_r in Hi by lia.
    exfalso. exact (Forall_lookup_1 _ _ _ _ F2 Hi HA).
Qed.

Section ExecutorMore.

Context {pkg : Package}.

Lemma bulkDelete_withTx (e : executor) (d : DML) (ds : list DML) :
  bulkDelete e (d :: ds) = withTx e (fun tx => bulkDelete_body tx (d :: ds)).
Proof. reflexivity. Qed.

Lemma bulkReplace_withTx (e : executor) (d : DML) (ds : list DML) :
  bulkReplace e (d :: ds) = withTx e (fun tx => bulkReplace_body tx d (d :: ds)).
Proof. reflexivity. Qed.

Lemma singleExec_withTx (e : executor) (dmls : list DML) (safeMode : bool) :
  singleExec e dmls safeMode = withTx e (fun tx => singleExec_loop tx safeMode dmls).
Proof. reflexivity. Qed.

Lemma harmless_plain {X : Type} (o : Op X) (x : X) :
  is_add_index (Ev o x) = false -> event_site (Ev o x) = None -> harmless (Ev o x).
Proof. intros Ha Hs. unfold harmless, not_from. rewrite Hs. repeat split; congruence. Qed.

Lemma emits_harmless_autoRollbackExec (st : site) (tx : Tx) (q : string)
    (args : list value) :
  st <> SiteUpdateMark -> st <> SiteExtension ->
  emits harmless (autoRollbackExec tx st q args).
Proof.
  intros H1 H2. unfold autoRollbackExec. simpl. split.
  - intros r. unfold harmless, not_from. simpl. repeat split; congruence.
  - intros [res | err]; simpl; auto.
    repeat split; intros; try apply harmless_plain; reflexivity.
Qed.

Lemma emits_harmless_commit (tx : Tx) : emits harmless (commit tx).
Proof.
  unfold commit. simpl. split; [| auto]. intros r. apply harmless_plain; reflexivity.
Qed.

Lemma emits_harmless_bulkDelete_body (tx : Tx) (deletes : list DML) :
  emits harmless (bulkDelete_body tx deletes).
Proof.
  unfold bulkDelete_body.
  apply emits_bind; [apply emits_harmless_autoRollbackExec; discriminate |].
  intros [res | err]; [apply emits_harmless_commit | simpl; auto].
Qed.

Lemma emits_harmless_rowArgs (vals : gmap string value) (names : list string) :
  emits harmless (rowArgs vals names).
Proof.
  induction names as [| n rest IH]; simpl; auto.
  split; [intros; apply harmless_plain; reflexivity |]. intros _.
  apply emits_bind; simpl; auto.
Qed.

Lemma emits_harmless_replaceArgs (inserts : list DML) (names : list string) :
  emits harmless (replaceArgs inserts names).
Proof.
  induction inserts as [| d rest IH]; simpl; auto.
  apply emits_bind; [apply emits_harmless_rowArgs |]. intros row.
  apply emits_bind; simpl; auto.
Qed.

Lemma emits_harmless_bulkReplace_body (tx : Tx) (first : DML) (inserts : list DML) :
  emits harmless (bulkReplace_body tx first inserts).
Proof.
  unfold bulkReplace_body.
  apply emits_bind; [apply emits_harmless_replaceArgs |]. intros args.
  apply emits_bind; [apply emits_harmless_autoRollbackExec; discriminate |].
  intros [res | err]; [apply emits_harmless_commit | simpl; auto].
Qed.

Lemma emits_harmless_execSeq (tx : Tx) (stmts : list (string * list value))
    (k : Prog (option error)) :
  emits harmless k -> emits harmless (execSeq tx stmts k).
Proof.
  intros Hk. induction stmts as [| stmt rest IH]; [exact Hk |].
  cbn [execSeq].
  apply emits_bind; [apply emits_harmless_autoRollbackExec; discriminate |].
  intros [res | err]; [exact IH | simpl; auto].
Qed.

Lemma emits_harmless_singleExec_loop (tx : Tx) (safeMode : bool) (dmls : list DML) :
  emits harmless (singleExec_loop tx safeMode dmls).
Proof.
  induction dmls as [| d rest IH]; [apply emits_harmless_commit |].
  rewrite singleExec_loop_cons. apply emits_harmless_execSeq, IH.
Qed.

(** The business statements come after the mark update and after every
    statement of an extension: in a call of [bulkDelete], [bulkReplace] or
    [singleExec], a statement sent by [UpdateMark] or by an extension is
    earlier in the trace than any statement of the call's own. *)
Theorem mark_precedes_business (w : Downstream) (e : executor) (dmls : list DML)
    (safeMode : bool) (s : World) (p : Prog (option error)) (t : list event)
    (i j : nat) (evi evj : event) (st : site) :
  p = bulkDelete e dmls \/ p = bulkReplace e dmls \/ p = singleExec e dmls safeMode ->
  trace (run w p s).2 = trace s ++ t ->
  t !! i = Some evi ->
  t !! j = Some evj ->
  event_site evi = Some SiteUpdateMark \/ event_site evi = Some SiteExtension ->
  event_site evj = Some st ->
  st <> SiteUpdateMark -> st <> SiteExtension ->
  (i < j)%nat.
Proof.
  intros Hp Ht Hi Hj Hsi Hsj Hst1 Hst2.
  assert (Hshape : (p = Ret None) \/ exists body, p = withTx e body
                                       /\ forall tx, emits harmless (body tx)).
  { destruct Hp as [-> | [-> | ->]].
    - destruct dmls as [| d ds]; [left; reflexivity | right].
      eexists. split; [apply bulkDelete_withTx |].
      intros tx. apply emits_harmless_bulkDelete_body.
    - destruct dmls as [| d ds]; [left; reflexivity | right].
      eexists. split; [apply bulkReplace_withTx |].
      intros tx. apply emits_harmless_bulkReplace_body.
    - right. eexists. split; [apply singleExec_withTx |].
      intros tx. apply emits_harmless_singleExec_loop. }
  destruct Hshape as [-> | (body & -> & Hbody)].
  { cbn in Ht. rewrite <- (app_nil_r (trace s)) in Ht at 1.
    apply app_inv_head in Ht. subst t. discriminate. }
  assert (Hph : exists t1 t2, t = t1 ++ t2 /\ Forall (not_from st) t1 /\ Forall harmless t2).
  { revert Ht. unfold withTx. rewrite run_bind.
    destruct (run_emits (not_from st) w (begin e) s) as (tb & Eb & Fb);
      [apply emits_begin; congruence |].
    destruct (run w (begin e) s) as [[[tx | err] | c] s1]; cbn [fst snd] in *.
    - destruct (run_bind_phases (not_from st) harmless w (extendTxn e tx)
                  (fun _ => body tx) s1) as (t1 & t2 & E12 & F1 & F2);
        [apply emits_extendTxn; congruence | intros _; apply Hbody |].
      rewrite E12, Eb, <- app_assoc. intros Ht. apply app_inv_head in Ht. subst t.
      exists (tb ++ t1), t2. rewrite <- app_assoc. split; [reflexivity |].
      split; [apply Forall_app; auto | exact F2].
    - cbn [run snd]. rewrite Eb. intros Ht. apply app_inv_head in Ht. subst t.
      exists tb, []. rewrite app_nil_r. auto.
    - rewrite Eb. intros Ht. apply app_inv_head in Ht. subst t.
      exists tb, []. rewrite app_nil_r. auto. }
  destruct Hph as (t1 & t2 & -> & F1 & F2).
  eapply (phases_ordered
            (fun ev => event_site ev = Some SiteUpdateMark \/ event_site ev = Some SiteExtension)
            (fun ev => event_site ev = Some st) t1 t2 i j evi evj); eauto.
  - eapply Forall_impl; [exact F2 |]. intros ev (_ & H1 & H2) [Hs | Hs]; contradiction.
Qed.

End ExecutorMore.

Lemma mark_precedes_business_witness :
  (bulkDelete (pkg := demoPackage) pluginExecutor [row DeleteDMLType 1 "ann"]
   = bulkDelete (pkg := demoPackage) pluginExecutor [row DeleteDMLType 1 "ann"]
   \/ bulkDelete (pkg := demoPackage) pluginExecutor [row DeleteDMLType 1 "ann"]
      = bulkReplace (pkg := demoPackage) pluginExecutor [row DeleteDMLType 1 "ann"]
   \/ bulkDelete (pkg := demoPackage) pluginExecutor [row DeleteDMLType 1 "ann"]
      = singleExec (pkg := demoPackage) pluginExecutor [row DeleteDMLType 1 "ann"] false)
  /\ trace (run extensionRowMissing
              (bulkDelete (pkg := demoPackage) pluginExecutor [row DeleteDMLType 1 "ann"])
              world0).2 = trace world0 ++ swallowedTrace
  /\ swallowedTrace !! 3%nat
     = Some (Ev (OExec SiteExtension 0%nat
                   "update mark set val=val+1 where id=? limit 1;" [VInt 1]) (inl (Rows 0)))
  /\ swallowedTrace !! 8%nat
     = Some (Ev (OExec SiteBulkDelete 0%nat "DELETE users;" [VInt 1; VString "ann"])
               (inl (Rows 1)))
  /\ (3 < 8)%nat.
Proof.
  assert (Ht : trace (run extensionRowMissing
                        (bulkDelete (pkg := demoPackage) pluginExecutor
                           [row DeleteDMLType 1 "ann"]) world0).2
               = trace world0 ++ swallowedTrace) by (vm_compute; reflexivity).
  split; [left; reflexivity |]. split; [exact Ht |].
  split; [reflexivity |]. split; [reflexivity |].
  exact (mark_precedes_business (pkg := demoPackage) extensionRowMissing pluginExecutor
           [row DeleteDMLType 1 "ann"] false world0 _ swallowedTrace 3%nat 8%nat _ _
           SiteBulkDelete (or_introl eq_refl) Ht eq_refl eq_refl (or_intror eq_refl)
           eq_refl ltac:(discriminate) ltac:(discriminate)).
Defined.

Section PlainExecutor.

Context {pkg : Package}.

Lemma emits_harmless_begin_plain (e : executor) (i : LoopBackSync (option ExecutorExtend)) :
  exe_info e = Some i -> LoopbackControl i = false -> emits harmless (begin e).
Proof.
  intros Hi Hc. unfold begin. simpl. split.
  - intros r. apply harmless_plain; reflexivity.
  - intros [tx | err]; simpl; auto. rewrite Hi, Hc. simpl. auto.
Qed.

Lemma emits_harmless_extendTxn_plain (e : executor)
    (i : LoopBackSync (option ExecutorExtend)) (tx : Tx) :
  exe_info e = Some i -> SupportPlugin i = false -> emits harmless (extendTxn e tx).
Proof. intros Hi Hs. unfold extendTxn. rewrite Hi, Hs. simpl. auto. Qed.

Lemma emits_harmless_withTx_plain (e : executor)
    (i : LoopBackSync (option ExecutorExtend)) (body : Tx -> Prog (option error)) :
  exe_info e = Some i -> LoopbackControl i = false -> SupportPlugin i = false ->
  (forall tx, emits harmless (body tx)) -> emits harmless (withTx e body).
Proof.
  intros Hi Hc Hs Hbody. unfold withTx.
  apply emits_bind; [eapply emits_harmless_begin_plain; eassumption |].
  intros [tx | err]; [| simpl; auto].
  apply emits_bind; [eapply emits_harmless_extendTxn_plain; eassumption |].
  intros _. apply Hbody.
Qed.

Lemma leaves_mark_alone_harmless {A : Type} (w : Downstream) (p : Prog A) (s : World) :
  emits harmless p -> leaves_mark_alone w p s.
Proof.
  intros Hp. split.
  - apply run_index_frame. eapply emits_weaken; [| exact Hp]. intros ev [Ha _]. exact Ha.
  - destruct (run_emits harmless w p s Hp) as (t & Et & Ft).
    exists t. split; [exact Et |]. split; apply statements_at_not_from;
      (eapply Forall_impl; [exact Ft |]); intros ev (_ & H1 & H2); assumption.
Qed.

(** With loopback control and plugins switched off, the executor leaves the
    loopback machinery alone: [bulkDelete], [bulkReplace], [singleExec] and
    [execTableBatch] never move [Index] and send no statement of the mark
    update or of an extension, whatever the downstream answers. *)
Theorem plain_executor_never_marks (w : Downstream) (e : executor)
    (i : LoopBackSync (option ExecutorExtend)) (sched : DMLType -> list nat)
    (dmls : list DML) (safeMode : bool) (s : World) :
  exe_info e = Some i ->
  LoopbackControl i = false ->
  SupportPlugin i = false ->
  leaves_mark_alone w (bulkDelete e dmls) s
  /\ leaves_mark_alone w (bulkReplace e dmls) s
  /\ leaves_mark_alone w (singleExec e dmls safeMode) s
  /\ leaves_mark_alone w (execTableBatch sched e dmls) s.
Proof.
  intros Hi Hc Hs.
  assert (HD : forall ds, emits harmless (bulkDelete e ds)).
  { intros [| d ds]; [simpl; auto |]. rewrite bulkDelete_withTx.
    eapply emits_harmless_withTx_plain; eauto using emits_harmless_bulkDelete_body. }
  assert (HR : forall ds, emits harmless (bulkReplace e ds)).
  { intros [| d ds]; [simpl; auto |]. rewrite bulkReplace_withTx.
    eapply emits_harmless_withTx_plain; eauto using emits_harmless_bulkReplace_body. }
  split; [apply leaves_mark_alone_harmless, HD |].
  split; [apply leaves_mark_alone_harmless, HR |].
  split.
  - apply leaves_mark_alone_harmless. rewrite singleExec_withTx.
    eapply emits_harmless_withTx_plain; eauto using emits_harmless_singleExec_loop.
  - apply leaves_mark_alone_harmless. unfold execTableBatch.
    destruct dmls as [| d ds]; [simpl; auto |].
    destruct (mergeByPrimaryKey (d :: ds)) as [types | err]; [| simpl; auto].
    apply emits_bind.
    { simpl. split; [intros; apply harmless_plain; reflexivity | auto]. }
    intros _. repeat (apply emits_bucket; [assumption |]). simpl. auto.
Qed.

(** A worker count of zero with loopback control on: once [db.Begin] has
    handed out a transaction, [begin] increments [Index] and panics on the
    division, and so do [bulkDelete], [bulkReplace] and [singleExec]; the
    transaction is neither committed nor rolled back. *)
Theorem zero_workers_panic (w : Downstream) (e : executor)
    (i : LoopBackSync (option ExecutorExtend)) (d : DML) (ds dmls : list DML)
    (safeMode : bool) (s : World) (tx : Tx) :
  exe_info e = Some i ->
  LoopbackControl i = true ->
  workerCount e = 0 ->
  w _ (trace s) OBegin = inl tx ->
  let s1 := {| trace := trace s ++ [Ev OBegin (inl tx); Ev OAddIndex (wrap64 (Index s + 1))];
               Index := wrap64 (Index s + 1) |} in
  run w (begin e) s = (Panicked DivideByZero, s1)
  /\ run w (bulkDelete e (d :: ds)) s = (Panicked DivideByZero, s1)
  /\ run w (bulkReplace e (d :: ds)) s = (Panicked DivideByZero, s1)
  /\ run w (singleExec e dmls safeMode) s = (Panicked DivideByZero, s1).
Proof.
  intros Hi Hc Hw Hb s1.
  assert (Hbegin : run w (begin e) s = (Panicked DivideByZero, s1)).
  { unfold begin. cbn [bind call run perform]. rewrite Hb. cbn [bind]. rewrite Hi, Hc.
    cbn [bind call run perform fst snd trace Index].
    destruct (decide (workerCount e = 0)) as [_ | Hn]; [| contradiction].
    cbn [run]. subst s1. rewrite <- app_assoc. reflexivity. }
  split; [exact Hbegin |].
  split; [| split].
  - unfold bulkDelete. apply run_bind_panicked, Hbegin.
  - unfold bulkReplace. apply run_bind_panicked, Hbegin.
  - unfold singleExec. apply run_bind_panicked, Hbegin.
Qed.

End PlainExecutor.

Lemma plain_executor_never_marks_witness :
  exe_info plainExecutor = Some plainInfo
  /\ LoopbackControl plainInfo = false
  /\ SupportPlugin plainInfo = false
  /\ leaves_mark_alone healthy
       (singleExec (pkg := demoPackage) plainExecutor safeBatch true) world0.
Proof.
  split; [reflexivity |]. split; [reflexivity |]. split; [reflexivity |].
  exact (proj1 (proj2 (proj2
           (plain_executor_never_marks (pkg := demoPackage) healthy plainExecutor plainInfo
              (fun _ => []) safeBatch true world0 eq_refl eq_refl eq_refl)))).
Defined.

Lemma zero_workers_panic_witness :
  exe_info noWorkers = Some loopbackInfo
  /\ LoopbackControl loopbackInfo = true
  /\ workerCount noWorkers = 0
  /\ healthy _ (trace world0) OBegin = inl 0%nat
  /\ run healthy (bulkDelete (pkg := demoPackage) noWorkers [row DeleteDMLType 1 "ann"]) world0
     = (Panicked DivideByZero,
        {| trace := trace world0 ++ [Ev OBegin (inl 0%nat); Ev OAddIndex (wrap64 (Index world0 + 1))];
           Index := wrap64 (Index world0 + 1) |}).
Proof.
  split; [reflexivity |]. split; [reflexivity |]. split; [reflexivity |].
  split; [reflexivity |].
  exact (proj1 (proj2
           (zero_workers_panic (pkg := demoPackage) healthy noWorkers loopbackInfo
              (row DeleteDMLType 1 "ann") [] [] false world0 0%nat
              eq_refl eq_refl eq_refl eq_refl))).
Defined.

(** ** Every transaction is ended once *)

Section Lifecycle.

Context {pkg : Package}.
Variable w : Downstream.

Lemma closes_commit (tx : Tx) : closes w tx (commit tx).
Proof.
  intros s. unfold commit. cbn [bind call run perform fst snd].
  destruct (w _ (trace s) (OCommit tx)) as [err |] eqn:Ec.
  - exists (Some (Trace err)), {| trace := trace s ++ [Ev (OCommit tx) (Some err)];
                                  Index := Index s |}, [], (Ev (OCommit tx) (Some err)).
    cbn. rewrite bool_decide_eq_true_2 by reflexivity.
    split; [reflexivity |]. split; [reflexivity |]. split; [constructor |].
    split; [reflexivity |]. split; discriminate.
  - exists None, {| trace := trace s ++ [Ev (OCommit tx) None]; Index := Index s |},
      [], (Ev (OCommit tx) None).
    cbn. rewrite bool_decide_eq_true_2 by reflexivity.
    split; [reflexivity |]. split; [reflexivity |]. split; [constructor |].
    split; [reflexivity |]. split; reflexivity.
Qed.

(** One statement through [autoRollbackExec], the error returned at once,
    then a part that closes. *)
Lemma closes_exec_then (tx : Tx) (st : site) (q : string) (args : list value)
    (k : Prog (option error)) :
  closes w tx k ->
  closes w tx (r <- autoRollbackExec tx st q args;;
               match r with
               | inr err => Ret (Some (Trace err))
               | inl _ => k
               end).
Proof.
  intros Hk s. unfold autoRollbackExec. cbn [bind call run perform fst snd].
  destruct (w _ (trace s) (OExec st tx q args)) as [res | err] eqn:Er.
  - cbn [bind run].
    destruct (Hk {| trace := trace s ++ [Ev (OExec st tx q args) (inl res)];
                    Index := Index s |}) as (r & s' & t0 & ev & Erun & Et & F0 & He & Hr).
    exists r, s', (Ev (OExec st tx q args) (inl res) :: t0), ev.
    split; [exact Erun |]. cbn [trace] in Et.
    split; [rewrite Et, <- app_assoc; reflexivity |].
    split; [constructor; [reflexivity | exact F0] |]. split; assumption.
  - cbn [bind logf call run perform fst snd trace Index].
    eexists (Some (Trace err)), _, [Ev (OExec st tx q args) (inr err); _], _.
    split; [reflexivity |]. cbn [trace].
    split; [rewrite <- !app_assoc; reflexivity |].
    split; [repeat constructor |].
    split; [cbn; apply bool_decide_eq_true_2; reflexivity |].
    cbn. split; discriminate.
Qed.

Lemma closes_execSeq (tx : Tx) (stmts : list (string * list value))
    (k : Prog (option error)) :
  closes w tx k -> closes w tx (execSeq tx stmts k).
Proof.
  intros Hk. induction stmts as [| stmt rest IH]; [exact Hk |].
  cbn [execSeq]. apply closes_exec_then, IH.
Qed.

Lemma closes_singleExec_loop (tx : Tx) (safeMode : bool) (dmls : list DML) :
  closes w tx (singleExec_loop tx safeMode dmls).
Proof.
  induction dmls as [| d rest IH]; [apply closes_commit |].
  rewrite singleExec_loop_cons. apply closes_execSeq, IH.
Qed.

Lemma run_rowArgs (tx : Tx) (vals : gmap string value) (names : list string) (s : World) :
  exists s' t,
    run w (rowArgs vals names) s
    = (Done ((fun name => default VNil (vals !! name)) <$> names), s')
    /\ trace s' = trace s ++ t
    /\ length t = length names
    /\ Forall (fun e => ends tx e = false) t.
Proof.
  revert s. induction names as [| name rest IH]; intros s.
  - exists s, []. cbn. rewrite app_nil_r. repeat split; constructor.
  - cbn [rowArgs logf bind call run perform fst snd]. rewrite run_bind.
    destruct (IH {| trace := trace s ++ [Ev (OLog LWarn "######")
                                            (w unit (trace s) (OLog LWarn "######"))];
                    Index := Index s |}) as (s' & t & Er & Et & Hl & Ft).
    rewrite Er. cbn [run]. eexists s', (_ :: t).
    split; [reflexivity |]. cbn [trace] in Et.
    split; [rewrite Et, <- app_assoc; reflexivity |].
    split; [cbn; rewrite Hl; reflexivity |]. constructor; [reflexivity | exact Ft].
Qed.

Lemma run_replaceArgs (tx : Tx) (inserts : list DML) (names : list string) (s : World) :
  exists s' t,
    run w (replaceArgs inserts names) s
    = (Done (concat ((fun insert =>
                        (fun name => default VNil (Values insert !! name)) <$> names)
                     <$> inserts)), s')
    /\ trace s' = trace s ++ t
    /\ length t = (length inserts * length names)%nat
    /\ Forall (fun e => ends tx e = false) t.
Proof.
  revert s. induction inserts as [| insert rest IH]; intros s.
  - exists s, []. cbn. rewrite app_nil_r. repeat split; constructor.
  - cbn [replaceArgs]. rewrite run_bind.
    destruct (run_rowArgs tx (Values insert) names s) as (s1 & t1 & E1 & Et1 & Hl1 & F1).
    rewrite E1, run_bind.
    destruct (IH s1) as (s2 & t2 & E2 & Et2 & Hl2 & F2). rewrite E2. cbn [run].
    exists s2, (t1 ++ t2). split; [reflexivity |].
    split; [rewrite Et2, Et1, <- app_assoc; reflexivity |].
    split; [rewrite length_app, Hl1, Hl2; cbn; lia |]. apply Forall_app; auto.
Qed.

(** Once a transaction is open and the hook chain is over, what is left of
    [singleExec], [bulkDelete] and [bulkReplace] always returns, and it ends
    the transaction exactly once, with its very last event, a commit or a
    rollback.  It returns nil exactly when that last event is a commit that
    succeeded. *)
Theorem transaction_ends_once (tx : Tx) (safeMode : bool) (dmls deletes inserts : list DML)
    (first : DML) :
  closes w tx (singleExec_loop tx safeMode dmls)
  /\ closes w tx (bulkDelete_body tx deletes)
  /\ closes w tx (bulkReplace_body tx first inserts).
Proof.
  split; [apply closes_singleExec_loop |]. split.
  - unfold bulkDelete_body.
    apply (closes_exec_then tx SiteBulkDelete _ _ (commit tx)), closes_commit.
  - intros s. unfold bulkReplace_body. rewrite run_bind.
    destruct (run_replaceArgs tx inserts (columns (info first)) s)
      as (s1 & t1 & E1 & Et1 & _ & F1).
    rewrite E1.
    destruct (closes_exec_then tx SiteBulkReplace
                (replaceQuery first (length inserts))
                (concat ((fun insert =>
                            (fun name => default VNil (Values insert !! name))
                              <$> columns (info first)) <$> inserts))
                (commit tx) (closes_commit tx) s1)
      as (r & s' & t0 & ev & Erun & Et & F0 & He & Hr).
    exists r, s', (t1 ++ t0), ev. split; [exact Erun |].
    split; [rewrite Et, Et1, <- !app_assoc; reflexivity |].
    split; [apply Forall_app; auto |]. split; assumption.
Qed.

End Lifecycle.

(** ** The statements of the bulk functions *)

Section BulkStatements.

Context {pkg : Package}.
Variable w : Downstream.

Lemma statements_after_exec (tx : Tx) (st : site) (q : string) (args : list value)
    (s : World) :
  exists t,
    trace (run w (r <- autoRollbackExec tx st q args;;
                  match r with
                  | inr err => Ret (Some (Trace err))
                  | inl _ => commit tx
                  end) s).2 = trace s ++ t
    /\ statements_at st t = [(q, args)].
Proof.
  unfold autoRollbackExec, commit. cbn [bind call run perform fst snd].
  destruct (w _ (trace s) (OExec st tx q args)) as [res | err].
  - cbn [bind call logf run perform fst snd trace Index].
    eexists. split; [rewrite <- !app_assoc; reflexivity |].
    cbn [app]. rewrite statements_at_cons_exec. reflexivity.
  - cbn [bind call logf run perform fst snd trace Index].
    eexists. split; [rewrite <- !app_assoc; reflexivity |].
    cbn [app]. rewrite statements_at_cons_exec. reflexivity.
Qed.

Lemma length_rows (inserts : list DML) (names : list string) :
  length (concat ((fun insert =>
                     (fun name => default VNil (Values insert !! name)) <$> names)
                  <$> inserts))
  = (length inserts * length names)%nat.
Proof.
  induction inserts as [| d rest IH]; [reflexivity |].
  cbn. rewrite length_app, length_fmap, IH. reflexivity.
Qed.

(** What the bulk functions hand to the downstream.  [bulkReplace] sends
    exactly one statement; its arguments go row by row, one per column of
    the first DML's info and in that order, whatever the info of the other
    DMLs says, and a column a DML has no value for is sent as nil; so there
    are rows times columns of them.  [bulkDelete] sends exactly one
    statement, with the arguments of its DMLs in list order. *)
Theorem bulk_statement_shape (tx : Tx) (first : DML) (inserts deletes : list DML)
    (s : World) :
  (exists t,
     trace (run w (bulkReplace_body tx first inserts) s).2 = trace s ++ t
     /\ statements_at SiteBulkReplace t
        = [(replaceQuery first (length inserts),
            concat ((fun insert =>
                       (fun name => default VNil (Values insert !! name))
                         <$> columns (info first)) <$> inserts))]
     /\ length (concat ((fun insert =>
                           (fun name => default VNil (Values insert !! name))
                             <$> columns (info first)) <$> inserts))
        = (length inserts * length (columns (info first)))%nat)
  /\ (exists t,
        trace (run w (bulkDelete_body tx deletes) s).2 = trace s ++ t
        /\ statements_at SiteBulkDelete t
           = [(deleteQuery deletes, concat ((fun dml => (DML_sql dml).2) <$> deletes))]).
Proof.
  split.
  - unfold bulkReplace_body. rewrite run_bind.
    destruct (run_replaceArgs w tx inserts (columns (info first)) s)
      as (s1 & t1 & E1 & Et1 & _ & _).
    destruct (run_emits (not_from SiteBulkReplace) w
                (replaceArgs inserts (columns (info first))) s
                (emits_replaceArgs _ _ _)) as (t1' & Et1' & F1).
    rewrite E1 in Et1' |- *. cbn [snd] in Et1'. rewrite Et1 in Et1'.
    apply app_inv_head in Et1'. subst t1'.
    destruct (statements_after_exec tx SiteBulkReplace
                (replaceQuery first (length inserts))
                (concat ((fun insert =>
                            (fun name => default VNil (Values insert !! name))
                              <$> columns (info first)) <$> inserts)) s1)
      as (t2 & Et2 & Hst).
    exists (t1 ++ t2). split; [rewrite Et2, Et1, <- app_assoc; reflexivity |].
    split; [| apply length_rows].
    rewrite statements_at_app, (statements_at_not_from _ _ F1). exact Hst.
  - unfold bulkDelete_body, deleteArgs. rewrite foldl_append_concat. cbn [app].
    apply statements_after_exec.
Qed.

End BulkStatements.

(** ** Nil means accepted *)

Lemma doomed_run {A : Type} (bad : A -> Prop) (w : Downstream) (p : Prog A)
    (s s' : World) (a : A) :
  doomed bad p -> run w p s = (Done a, s') -> bad a.
Proof.
  revert s. induction p as [a0 | c | X o k IH]; intros s Hd; simpl.
  - intros [= <- <-]. exact Hd.
  - discriminate.
  - destruct (perform w o s) as [x s1]. apply IH, Hd.
Qed.

Lemma honest_run {A : Type} (bad : A -> Prop) (w : Downstream) (p : Prog A)
    (s s' : World) (a : A) :
  honest bad p -> run w p s = (Done a, s') -> ~ bad a ->
  exists t, trace s' = trace s ++ t /\ Forall (fun ev => failed_stmt ev = false) t.
Proof.
  revert s. induction p as [a0 | c | X o k IH]; intros s Hh; simpl.
  - intros [= <- <-] _. exists []. rewrite app_nil_r. auto.
  - discriminate.
  - pose proof (perform_trace w o s) as Ht.
    destruct (perform w o s) as [x s1]. cbn [fst snd] in Ht.
    intros Hrun Hbad. destruct (Hh x) as [Hfail Hk].
    destruct (IH x s1 Hk Hrun Hbad) as (t & Et & Ft).
    exists (Ev o x :: t). split; [rewrite Et, Ht, <- app_assoc; reflexivity |].
    constructor; [| exact Ft].
    destruct (failed_stmt (Ev o x)) eqn:Ef; [| reflexivity].
    exfalso. apply Hbad. eapply doomed_run; [apply Hfail; reflexivity | exact Hrun].
Qed.

Lemma honest_of_emits {A : Type} (bad : A -> Prop) (p : Prog A) :
  emits (fun ev => failed_stmt ev = false) p -> honest bad p.
Proof.
  induction p as [a | c | X o k IH]; simpl; auto.
  intros [Ho Hk] x. split; [rewrite Ho; discriminate | auto].
Qed.

Lemma doomed_bind {A B : Type} (badA : A -> Prop) (badB : B -> Prop) (p : Prog A)
    (f : A -> Prog B) :
  doomed badA p -> (forall a, badA a -> doomed badB (f a)) -> doomed badB (bind p f).
Proof. intros Hp Hf. induction p as [a | c | X o k IH]; simpl in *; auto. Qed.

Lemma honest_bind {A B : Type} (badA : A -> Prop) (badB : B -> Prop) (p : Prog A)
    (f : A -> Prog B) :
  honest badA p -> (forall a, honest badB (f a)) ->
  (forall a, badA a -> doomed badB (f a)) -> honest badB (bind p f).
Proof.
  intros Hp Hf Hd. induction p as [a | c | X o k IH]; simpl in *; auto.
  intros x. destruct (Hp x) as [Hfail Hk]. split; [| auto].
  intros Hx. eapply doomed_bind; [apply Hfail, Hx | exact Hd].
Qed.

Lemma not_business_not_failed (ev : event) :
  not_from SiteBulkDelete ev -> not_from SiteBulkReplace ev ->
  not_from SiteSingleExec ev -> failed_stmt ev = false.
Proof.
  unfold not_from. destruct ev as [X o x]. destruct o; simpl; auto.
  destruct st; simpl; intros; congruence.
Qed.

(** What sends no business statement is honest. *)
Lemma honest_quiet {A : Type} (bad : A -> Prop) (p : Prog A) :
  emits (not_from SiteBulkDelete) p -> emits (not_from SiteBulkReplace) p ->
  emits (not_from SiteSingleExec) p -> honest bad p.
Proof.
  intros H1 H2 H3. apply honest_of_emits.
  eapply emits_weaken; [| exact (emits_and _ _ _ H1 (emits_and _ _ _ H2 H3))].
  intros ev (A1 & A2 & A3). apply not_business_not_failed; assumption.
Qed.

Lemma doomed_errg_drain_first (tasks : list (Prog (option error))) (first : option error) :
  first <> None -> doomed some_err (errg_drain tasks first).
Proof.
  revert first. induction tasks as [| t ts IH]; intros first Hf; cbn [errg_drain doomed].
  - exact Hf.
  - apply (doomed_bind (fun _ => True)).
    + clear. induction t as [a | c | X o k IHt]; simpl; auto.
    + intros r _. apply IH. destruct first; [discriminate | contradiction].
Qed.

Lemma doomed_errg_drain_task (tasks : list (Prog (option error))) (first : option error) :
  Exists (doomed some_err) tasks -> doomed some_err (errg_drain tasks first).
Proof.
  intros Hex. revert first. induction Hex as [t ts Ht | t ts _ IH]; intros first;
    cbn [errg_drain].
  - apply (doomed_bind some_err); [exact Ht |].
    intros r Hr. apply doomed_errg_drain_first.
    destruct first; [discriminate | exact Hr].
  - apply (doomed_bind (fun _ => True)).
    + clear. induction t as [a | c | X o k IHt]; simpl; auto.
    + intros r _. apply IH.
Qed.

(** Once an error has arrived, or a task is bound to fail, the group
    returns an error. *)
Lemma doomed_errg_go (sched : list nat) (tasks : list (Prog (option error)))
    (first : option error) :
  first <> None \/ (exists j t, tasks !! j = Some t /\ doomed some_err t) ->
  doomed some_err (errg_go sched tasks first).
Proof.
  revert tasks first. induction sched as [| i sched IH]; intros tasks first Hd.
  - cbn [errg_go]. destruct Hd as [Hf | (j & t & Hj & Ht)].
    + apply doomed_errg_drain_first, Hf.
    + apply doomed_errg_drain_task. apply Exists_exists. exists t.
      split; [eapply list_elem_of_lookup_2, Hj | exact Ht].
  - cbn [errg_go]. destruct (tasks !! i) as [ti |] eqn:Ei; [| apply IH, Hd].
    destruct ti as [r | c | X o k]; cbn [doomed]; auto.
    + apply IH. destruct Hd as [Hf | (j & t & Hj & Ht)].
      * left. destruct first; [discriminate | contradiction].
      * destruct (decide (j = i)) as [-> | Hne].
        -- rewrite Ei in Hj. injection Hj as <-. left.
           cbn in Ht. destruct first; [discriminate | exact Ht].
        -- right. destruct (decide (j < i)%nat) as [Hlt | Hge].
           ++ exists j, t. split; [| exact Ht]. rewrite list_lookup_delete_lt by exact Hlt. exact Hj.
           ++ exists (pred j), t. split; [| exact Ht].
              rewrite list_lookup_delete_ge by lia. replace (S (pred j)) with j by lia. exact Hj.
    + intros x. apply IH. destruct Hd as [Hf | (j & t & Hj & Ht)]; [left; exact Hf |].
      right. destruct (decide (j = i)) as [-> | Hne].
      * rewrite Ei in Hj. injection Hj as <-. exists i, (k x).
        split; [| apply Ht]. apply list_lookup_insert_eq. eapply lookup_lt_Some, Ei.
      * exists j, t. split; [| exact Ht]. rewrite list_lookup_insert_ne by congruence. exact Hj.
Qed.

Lemma honest_errg_drain (tasks : list (Prog (option error))) (first : option error) :
  Forall (honest some_err) tasks -> honest some_err (errg_drain tasks first).
Proof.
  intros Ht. revert first. induction Ht as [| t ts Hh _ IH]; intros first;
    cbn [errg_drain]; [exact I |].
  apply (honest_bind some_err); [exact Hh | intros r; apply IH |].
  intros r Hr. apply doomed_errg_drain_first. destruct first; [discriminate | exact Hr].
Qed.

(** Whatever the schedule, a group of honest tasks is honest. *)
Lemma honest_errg_go (sched : list nat) (tasks : list (Prog (option error)))
    (first : option error) :
  Forall (honest some_err) tasks -> honest some_err (errg_go sched tasks first).
Proof.
  revert tasks first. induction sched as [| i sched IH]; intros tasks first Ht.
  - apply honest_errg_drain, Ht.
  - cbn [errg_go]. destruct (tasks !! i) as [ti |] eqn:Ei; [| apply IH, Ht].
    pose proof (Forall_lookup_1 _ _ _ _ Ht Ei) as Hti.
    destruct ti as [r | c | X o k]; cbn [honest]; auto.
    + apply IH, Forall_delete, Ht.
    + intros x. destruct (Hti x) as [Hfail Hk]. split.
      * intros Hx. apply doomed_errg_go. right. exists i, (k x).
        split; [| apply Hfail, Hx]. apply list_lookup_insert_eq. eapply lookup_lt_Some, Ei.
      * apply IH, Forall_insert; assumption.
Qed.

Section Accepted.

Context {pkg : Package}.

Lemma honest_exec_then (tx : Tx) (st : site) (q : string) (args : list value)
    (k : Prog (option error)) :
  honest some_err k ->
  honest some_err (r <- autoRollbackExec tx st q args;;
                   match r with
                   | inr err => Ret (Some (Trace err))
                   | inl _ => k
                   end).
Proof.
  intros Hk. apply (honest_bind is_err).
  - unfold autoRollbackExec. simpl. intros [res | err]; simpl.
    + split; [rewrite andb_false_r; discriminate | exact I].
    + split; [intros _ _ _; exact I |]. intros _. split; [discriminate |].
      intros _. split; [discriminate | exact I].
  - intros [res | err]; [exact Hk | exact I].
  - intros [res | err] Hr; [contradiction | simpl; discriminate].
Qed.

Lemma honest_commit (tx : Tx) : honest some_err (commit tx).
Proof. apply honest_quiet; apply emits_commit. Qed.

Lemma honest_execSeq (tx : Tx) (stmts : list (string * list value))
    (k : Prog (option error)) :
  honest some_err k -> honest some_err (execSeq tx stmts k).
Proof.
  intros Hk. induction stmts as [| stmt rest IH]; [exact Hk |].
  cbn [execSeq]. apply honest_exec_then, IH.
Qed.

Lemma honest_singleExec_loop (tx : Tx) (safeMode : bool) (dmls : list DML) :
  honest some_err (singleExec_loop tx safeMode dmls).
Proof.
  induction dmls as [| d rest IH]; [apply honest_commit |].
  rewrite singleExec_loop_cons. apply honest_execSeq, IH.
Qed.

Lemma honest_bulkDelete_body (tx : Tx) (deletes : list DML) :
  honest some_err (bulkDelete_body tx deletes).
Proof. unfold bulkDelete_body. apply honest_exec_then, honest_commit. Qed.

Lemma honest_bulkReplace_body (tx : Tx) (first : DML) (inserts : list DML) :
  honest some_err (bulkReplace_body tx first inserts).
Proof.
  unfold bulkReplace_body. apply (honest_bind (fun _ => False)).
  - apply honest_quiet; apply emits_replaceArgs.
  - intros args. apply honest_exec_then, honest_commit.
  - intros args [].
Qed.

Lemma honest_withTx (e : executor) (body : Tx -> Prog (option error)) :
  (forall tx, honest some_err (body tx)) -> honest some_err (withTx e body).
Proof.
  intros Hbody. unfold withTx. apply (honest_bind (fun _ => False)).
  - apply honest_quiet; apply emits_begin; discriminate.
  - intros [tx | err]; [| exact I]. apply (honest_bind (fun _ => False)).
    + apply honest_quiet; apply emits_extendTxn; discriminate.
    + intros _. apply Hbody.
    + intros _ [].
  - intros r [].
Qed.

Lemma honest_bulkDelete (e : executor) (deletes : list DML) :
  honest some_err (bulkDelete e deletes).
Proof.
  destruct deletes as [| d ds]; [exact I |]. rewrite bulkDelete_withTx.
  apply honest_withTx. intros tx. apply honest_bulkDelete_body.
Qed.

Lemma honest_bulkReplace (e : executor) (inserts : list DML) :
  honest some_err (bulkReplace e inserts).
Proof.
  destruct inserts as [| d ds]; [exact I |]. rewrite bulkReplace_withTx.
  apply honest_withTx. intros tx. apply honest_bulkReplace_body.
Qed.

Lemma honest_splitExecDML (sched : list nat) (e : executor) (dmls : list DML)
    (exec : list DML -> Prog (option error)) :
  (forall split, honest some_err (exec split)) ->
  honest some_err (splitExecDML sched e dmls exec).
Proof.
  intros Hexec. unfold splitExecDML. apply (honest_bind some_err).
  - apply honest_errg_go. apply Forall_forall. intros t Ht.
    apply list_elem_of_fmap in Ht as (split & -> & _).
    apply (honest_bind some_err); [apply Hexec | intros; exact I |].
    intros [err |] Hr; [simpl; discriminate | contradiction].
  - intros r. exact I.
  - intros [err |] Hr; [simpl; discriminate | contradiction].
Qed.

Lemma honest_bucket (sched : list nat) (e : executor) (b : option (list DML))
    (exec : list DML -> Prog (option error)) (k : Prog (option error)) :
  (forall split, honest some_err (exec split)) -> honest some_err k ->
  honest some_err (bucket sched e b exec k).
Proof.
  intros Hexec Hk. unfold bucket. destruct b as [all |]; [| exact Hk].
  apply (honest_bind some_err); [apply honest_splitExecDML, Hexec | |].
  - intros [err |]; [exact I | exact Hk].
  - intros [err |] Hr; [simpl; discriminate | contradiction].
Qed.

Lemma honest_execTableBatch (sched : DMLType -> list nat) (e : executor) (dmls : list DML) :
  honest some_err (execTableBatch sched e dmls).
Proof.
  unfold execTableBatch. destruct dmls as [| d ds]; [exact I |].
  destruct (mergeByPrimaryKey (d :: ds)) as [types | err]; [| exact I].
  apply (honest_bind (fun _ => False)).
  - simpl. intros x. split; [discriminate | exact I].
  - intros _. repeat (apply honest_bucket; [first [apply honest_bulkDelete
                                                  | apply honest_bulkReplace] |]).
    exact I.
  - intros _ [].
Qed.

(** Nil means accepted: when [execTableBatch], [bulkDelete], [bulkReplace]
    or [singleExec] returns nil, no statement it sent from its own call
    sites was rejected by the downstream, whatever the schedule of the
    goroutines, the plugins and the mark update did. *)
Theorem nil_means_accepted (w : Downstream) (sched : DMLType -> list nat)
    (e : executor) (dmls : list DML) (safeMode : bool) (s : World)
    (p : Prog (option error)) (t : list event) :
  p = execTableBatch sched e dmls \/ p = bulkDelete e dmls
  \/ p = bulkReplace e dmls \/ p = singleExec e dmls safeMode ->
  (run w p s).1 = Done None ->
  trace (run w p s).2 = trace s ++ t ->
  Forall (fun ev => failed_stmt ev = false) t.
Proof.
  intros Hp Hnil Ht.
  assert (Hh : honest some_err p).
  { destruct Hp as [-> | [-> | [-> | ->]]].
    - apply honest_execTableBatch.
    - apply honest_bulkDelete.
    - apply honest_bulkReplace.
    - rewrite singleExec_withTx. apply honest_withTx. intros tx.
      apply honest_singleExec_loop. }
  destruct (run w p s) as [r s'] eqn:Er. cbn [fst snd] in *. subst r.
  destruct (honest_run some_err w p s s' None Hh Er) as (t' & Et & Ft).
  { intros Hbad. apply Hbad. reflexivity. }
  rewrite Et in Ht. apply app_inv_head in Ht. subst t'. exact Ft.
Qed.

End Accepted.

(** The safe-mode batch on a healthy downstream returns nil, and none of its
    statements was answered with an error. *)
Lemma nil_means_accepted_witness :
  (run healthy (singleExec (pkg := demoPackage) plainExecutor safeBatch true) world0).1
  = Done None
  /\ Forall (fun ev => failed_stmt ev = false) safeTrace.
Proof.
  assert (Hr : (run healthy
                  (singleExec (pkg := demoPackage) plainExecutor safeBatch true) world0).1
               = Done None) by (vm_compute; reflexivity).
  assert (Ht : trace (run healthy
                        (singleExec (pkg := demoPackage) plainExecutor safeBatch true) world0).2
               = trace world0 ++ safeTrace) by (vm_compute; reflexivity).
  split; [exact Hr |].
  exact (nil_means_accepted (pkg := demoPackage) healthy (fun _ => []) plainExecutor
           safeBatch true world0
           (singleExec (pkg := demoPackage) plainExecutor safeBatch true) safeTrace
           (or_intror (or_intror (or_intror eq_refl))) Hr Ht).
Defined.

(** ** No split is cancelled *)

Lemma tally_run {A : Type} (w : Downstream) (p : Prog A) (n : nat) (s s' : World) (a : A) :
  tally p n -> run w p s = (Done a, s') ->
  exists t, trace s' = trace s ++ t /\ begins t = n.
Proof.
  revert n s. induction p as [a0 | c | X o k IH]; intros n s Hp; simpl.
  - intros [= <- <-]. exists []. rewrite app_nil_r. auto.
  - discriminate.
  - pose proof (perform_trace w o s) as Ht.
    destruct (perform w o s) as [x s1]. cbn [fst snd] in Ht. intros Hrun.
    destruct (Hp x) as (m & -> & Hk).
    destruct (IH x m s1 Hk Hrun) as (t & Et & <-).
    exists (Ev o x :: t). split; [rewrite Et, Ht, <- app_assoc; reflexivity |].
    unfold begins. rewrite filter_cons.
    destruct (is_begin (Ev o x)) eqn:Eb.
    + rewrite decide_True by reflexivity. reflexivity.
    + rewrite decide_False by discriminate. reflexivity.
Qed.

Lemma tally_quiet {A : Type} (p : Prog A) : emits no_begin p -> tally p 0.
Proof.
  induction p as [a | c | X o k IH]; simpl; auto.
  intros [Ho Hk] x. exists 0%nat. rewrite (Ho x). auto.
Qed.

Lemma tally_bind {A B : Type} (p : Prog A) (f : A -> Prog B) (n m : nat) :
  tally p n -> (forall a, tally (f a) m) -> tally (bind p f) (n + m).
Proof.
  intros Hp Hf. revert n Hp. induction p as [a | c | X o k IH]; intros n Hp; simpl in *.
  - subst n. apply Hf.
  - exact I.
  - intros x. destruct (Hp x) as (n' & -> & Hk). exists (n' + m)%nat.
    split; [lia | apply IH, Hk].
Qed.

Lemma sum_list_insert (ns : list nat) (i a b : nat) :
  ns !! i = Some a -> (sum_list (<[i := b]> ns) + a = sum_list ns + b)%nat.
Proof.
  revert i. induction ns as [| n ns IH]; intros [| i]; simpl; try discriminate.
  - intros [= ->]. lia.
  - intros Hi. specialize (IH i Hi). lia.
Qed.

Lemma sum_list_delete (ns : list nat) (i a : nat) :
  ns !! i = Some a -> (sum_list (delete i ns) + a = sum_list ns)%nat.
Proof.
  revert i. induction ns as [| n ns IH]; intros [| i]; simpl; try discriminate.
  - intros [= ->]. lia.
  - intros Hi. specialize (IH i Hi). lia.
Qed.

Lemma tally_errg_drain (tasks : list (Prog (option error))) (ns : list nat)
    (first : option error) :
  Forall2 tally tasks ns -> tally (errg_drain tasks first) (sum_list ns).
Proof.
  intros Ht. revert first. induction Ht as [| t n ts ns Hh _ IH]; intros first;
    cbn [errg_drain sum_list sum_list_with]; [reflexivity |].
  apply tally_bind; [exact Hh | intros r; apply IH].
Qed.

(** Whatever the schedule, a group asks [db.Begin] as often as its tasks do
    together: no task is given up. *)
Lemma tally_errg_go (sched : list nat) (tasks : list (Prog (option error)))
    (ns : list nat) (first : option error) :
  Forall2 tally tasks ns -> tally (errg_go sched tasks first) (sum_list ns).
Proof.
  revert tasks ns first. induction sched as [| i sched IH]; intros tasks ns first Ht.
  - apply tally_errg_drain, Ht.
  - cbn [errg_go]. destruct (tasks !! i) as [ti |] eqn:Ei; [| apply IH, Ht].
    destruct (Forall2_lookup_l _ _ _ _ _ Ht Ei) as (n & En & Hti).
    destruct ti as [r | c | X o k]; cbn [tally] in *.
    + subst n. pose proof (sum_list_delete ns i 0 En) as Hs.
      replace (sum_list ns) with (sum_list (delete i ns)) by lia.
      apply IH, Forall2_delete, Ht.
    + exact I.
    + intros x. destruct (Hti x) as (m & -> & Hk).
      exists (sum_list (<[i := m]> ns)). split.
      * pose proof (sum_list_insert ns i _ m En). lia.
      * apply IH, Forall2_insert; assumption.
Qed.

Lemma no_begin_at_site {A : Type} (st : site) (p : Prog A) :
  emits no_begin p -> emits no_begin (at_site st p).
Proof.
  induction p as [a | c | X o k IH]; simpl; auto.
  intros [Ho Hk]. split; [| auto].
  intros x. specialize (Ho x). destruct o; exact Ho.
Qed.

Section NoCancel.

Context {pkg : Package}.

Variable e : executor.

Hypothesis quiet_mark : forall tx id channel, emits no_begin (UpdateMark tx id channel).

Hypothesis quiet_hooks :
  forall i c tx, exe_info e = Some i -> Some c ∈ Hooks i -> emits no_begin (c tx).

Lemma tally_begin : tally (begin e) 1.
Proof.
  unfold begin. simpl. intros r. exists 0%nat. split; [reflexivity |].
  apply tally_quiet. destruct r as [tx | err]; [| exact I].
  destruct (exe_info e) as [i |]; [| exact I].
  destruct (LoopbackControl i); [| exact I].
  simpl. split; [reflexivity |]. intros idx.
  destruct (decide (workerCount e = 0)); [exact I |].
  apply emits_bind; [apply no_begin_at_site, quiet_mark |].
  intros [err |]; [| exact I].
  simpl. split; [reflexivity |]. intros [rerr |]; simpl; [| exact I].
  split; [reflexivity | auto].
Qed.

Lemma no_begin_rangeHooks (hooks : list (option ExecutorExtend)) (tx : Tx) :
  (forall c, Some c ∈ hooks -> emits no_begin (c tx)) ->
  emits no_begin (rangeHooks hooks tx).
Proof.
  induction hooks as [| [c |] rest IH]; intros Hq; simpl; auto.
  - apply emits_bind; [apply no_begin_at_site, Hq; left |].
    intros [err |]; [exact I |]. apply IH. intros c' Hc'. apply Hq. right. exact Hc'.
  - apply IH. intros c' Hc'. apply Hq. right. exact Hc'.
Qed.

Lemma no_begin_extendTxn (tx : Tx) : emits no_begin (extendTxn e tx).
Proof.
  unfold extendTxn. destruct (exe_info e) as [i |] eqn:Ei; [| exact I].
  destruct (SupportPlugin i); [| exact I].
  apply emits_bind.
  - apply no_begin_rangeHooks. intros c Hc. eapply quiet_hooks; [reflexivity | exact Hc].
  - intros [err |]; simpl; [split; [reflexivity | auto] | exact I].
Qed.

Lemma no_begin_autoRollbackExec (tx : Tx) (st : site) (q : string) (args : list value) :
  emits no_begin (autoRollbackExec tx st q args).
Proof.
  unfold autoRollbackExec. simpl. split; [reflexivity |].
  intros [res | err]; simpl; [exact I |].
  split; [reflexivity |]. intros _. split; [reflexivity | auto].
Qed.

Lemma no_begin_commit (tx : Tx) : emits no_begin (commit tx).
Proof. unfold commit. simpl. split; [reflexivity | auto]. Qed.

Lemma no_begin_rowArgs (vals : gmap string value) (names : list string) :
  emits no_begin (rowArgs vals names).
Proof.
  induction names as [| n rest IH]; simpl; auto.
  split; [reflexivity |]. intros _. apply emits_bind; simpl; auto.
Qed.

Lemma no_begin_replaceArgs (inserts : list DML) (names : list string) :
  emits no_begin (replaceArgs inserts names).
Proof.
  induction inserts as [| d rest IH]; simpl; auto.
  apply emits_bind; [apply no_begin_rowArgs |]. intros row.
  apply emits_bind; simpl; auto.
Qed.

Lemma tally_withTx (body : Tx -> Prog (option error)) :
  (forall tx, emits no_begin (body tx)) -> tally (withTx e body) 1.
Proof.
  intros Hbody. unfold withTx. apply (tally_bind _ _ 1 0 tally_begin).
  intros [tx | err]; [| reflexivity].
  apply tally_quiet, emits_bind; [apply no_begin_extendTxn | intros _; apply Hbody].
Qed.

Lemma tally_bulkDelete (split : list DML) :
  tally (bulkDelete e split) (if nonempty split then 1 else 0).
Proof.
  destruct split as [| d ds]; [reflexivity |]. rewrite bulkDelete_withTx.
  apply tally_withTx. intros tx. unfold bulkDelete_body.
  apply emits_bind; [apply no_begin_autoRollbackExec |].
  intros [res | err]; [apply no_begin_commit | exact I].
Qed.

Lemma tally_bulkReplace (split : list DML) :
  tally (bulkReplace e split) (if nonempty split then 1 else 0).
Proof.
  destruct split as [| d ds]; [reflexivity |]. rewrite bulkReplace_withTx.
  apply tally_withTx. intros tx. unfold bulkReplace_body.
  apply emits_bind; [apply no_begin_replaceArgs |]. intros args.
  apply emits_bind; [apply no_begin_autoRollbackExec |].
  intros [res | err]; [apply no_begin_commit | exact I].
Qed.

Lemma sum_list_nonempty (splits : list (list DML)) :
  sum_list ((fun split => if nonempty split then 1 else 0)%nat <$> splits)
  = length (filter (fun split => nonempty split = true) splits).
Proof.
  induction splits as [| sp rest IH]; [reflexivity |].
  rewrite fmap_cons, filter_cons.
  transitivity ((if nonempty sp then 1 else 0)
                + sum_list ((fun split => if nonempty split then 1 else 0) <$> rest))%nat;
    [reflexivity |].
  rewrite IH. destruct (nonempty sp).
  - rewrite decide_True by reflexivity. reflexivity.
  - rewrite decide_False by discriminate. reflexivity.
Qed.

Lemma tally_splitExecDML (sched : list nat) (dmls : list DML)
    (exec : list DML -> Prog (option error)) :
  (forall split, tally (exec split) (if nonempty split then 1 else 0)) ->
  tally (splitExecDML sched e dmls exec)
    (length (filter (fun split => nonempty split = true)
               (splitDMLs DML dmls (batchSize e)))).
Proof.
  intros Hexec. unfold splitExecDML. rewrite <- sum_list_nonempty.
  rewrite <- (Nat.add_0_r (sum_list _)).
  apply tally_bind; [| intros r; reflexivity].
  apply tally_errg_go. apply Forall2_fmap, Forall_Forall2_diag, Forall_forall.
  intros split _. rewrite <- (Nat.add_0_r (if nonempty split then _ else _)).
  apply tally_bind; [apply Hexec | intros r; reflexivity].
Qed.

End NoCancel.

(** No split is cancelled: when [splitExecDML] returns from [bulkDelete] or
    [bulkReplace], with an error or without, [db.Begin] has been asked once
    for every non-empty split of the bucket, whatever the schedule of the
    goroutines; a split that fails stops none of the others.  The mark
    update and the plugins are assumed to open no transaction of their
    own. *)
Theorem failed_split_cancels_no_sibling {pkg : Package} (w : Downstream)
    (sched : list nat) (e : executor) (dmls : list DML)
    (exec : list DML -> Prog (option error)) (r : option error) (s s' : World) :
  (forall tx id channel, emits no_begin (UpdateMark tx id channel)) ->
  (forall i c tx, exe_info e = Some i -> Some c ∈ Hooks i -> emits no_begin (c tx)) ->
  exec = bulkDelete e \/ exec = bulkReplace e ->
  run w (splitExecDML sched e dmls exec) s = (Done r, s') ->
  exists t,
    trace s' = trace s ++ t
    /\ begins t = length (filter (fun split => nonempty split = true)
                            (splitDMLs DML dmls (batchSize e))).
Proof.
  intros Hmark Hhooks Hexec Hrun.
  eapply tally_run; [| exact Hrun].
  apply tally_splitExecDML. intros split.
  destruct Hexec as [-> | ->];
    [apply tally_bulkDelete | apply tally_bulkReplace]; assumption.
Qed.

Ltac opens_nothing :=
  cbn;
  repeat first
    [ exact I
    | reflexivity
    | progress intros
    | split
    | match goal with
      | |- context [match ?x with _ => _ end] => is_var x; destruct x; cbn
      | |- context [decide ?P] => destruct (decide P); cbn
      end ].

(** Two deletes in batches of one, both rejected, the second goroutine
    scheduled first: the group returns the deadlock, and both transactions
    were opened. *)
Lemma failed_split_cancels_no_sibling_witness :
  (run rejectsDeletes
     (splitExecDML (pkg := demoPackage) secondFirst oneByOne twoDeletes
        (bulkDelete (pkg := demoPackage) oneByOne)) world0).1
  = Done (Some deadlock)
  /\ length (filter (fun split => nonempty split = true)
               (splitDMLs (Package := demoPackage) DML twoDeletes (batchSize oneByOne)))
     = 2%nat
  /\ exists t,
       trace (run rejectsDeletes
                (splitExecDML (pkg := demoPackage) secondFirst oneByOne twoDeletes
                   (bulkDelete (pkg := demoPackage) oneByOne)) world0).2
       = trace world0 ++ t
       /\ begins t
          = length (filter (fun split => nonempty split = true)
                      (splitDMLs (Package := demoPackage) DML twoDeletes
                         (batchSize oneByOne))).
Proof.
  assert (Hrun : run rejectsDeletes
                   (splitExecDML (pkg := demoPackage) secondFirst oneByOne twoDeletes
                      (bulkDelete (pkg := demoPackage) oneByOne)) world0
                 = (Done (Some deadlock),
                    (run rejectsDeletes
                       (splitExecDML (pkg := demoPackage) secondFirst oneByOne twoDeletes
                          (bulkDelete (pkg := demoPackage) oneByOne)) world0).2))
    by (vm_compute; reflexivity).
  assert (Hmark : forall tx id channel,
             emits no_begin (UpdateMark (Package := demoPackage) tx id channel))
    by (intros tx id channel; unfold UpdateMark, demoPackage, SpecModel.UpdateMark;
        opens_nothing).
  assert (Hhooks : forall i c tx, exe_info oneByOne = Some i -> Some c ∈ Hooks i ->
             emits no_begin (c tx)).
  { intros i c tx [= <-] Hc. cbn [Hooks pluginInfo] in Hc.
    apply elem_of_cons in Hc as [[=] | Hc].
    apply elem_of_cons in Hc as [[= ->] | Hc].
    - unfold markExtension, Plugin.ExtendTxn, Plugin.addIndex, Plugin.rollbackLogged.
      opens_nothing.
    - apply elem_of_cons in Hc as [[= ->] | Hc]; [| apply elem_of_nil in Hc as []].
      unfold chattyExtension. opens_nothing. }
  split; [rewrite Hrun; reflexivity |].
  split; [vm_compute; reflexivity |].
  exact (failed_split_cancels_no_sibling (pkg := demoPackage) rejectsDeletes secondFirst
           oneByOne twoDeletes (bulkDelete (pkg := demoPackage) oneByOne)
           (Some deadlock) world0 _ Hmark Hhooks (or_introl eq_refl) Hrun).
Defined.
